(** * vdb: a header-only vector database (vdb.h), embedded in Rocq

    The development follows the layout of [vdb.h]:

    - the machine model (LP64, little-endian): bytes, [size_t] and
      [uint32_t] arithmetic with its wrap-around, IEEE-754 binary32 [float];
    - the metric engine ([vdb_dot_product] ... [vdb_compute_distance]);
    - the environment of the stateful code: allocator, file system, and the
      outcome monad in which undefined behaviour is an explicit [Fault];
    - the vector store ([vdb_create], [vdb_add_vector], [vdb_get_vector],
      [vdb_remove_vector], [vdb_destroy]);
    - the search engine ([vdb_result_compare], [vdb_search]), over any
      [qsort] that meets the contract of the C library's;
    - the persistence codec ([vdb_save], [vdb_load]);
    - the theorems.

    The single-threaded configuration is modelled (VDB_MULTITHREADED
    undefined): the lock calls bracket every operation and do not change
    what a single caller observes. *)

From Stdlib Require Import ZArith Lia Floats.SpecFloat Strings.Ascii Strings.String.
From stdpp Require Import base list strings.

Open Scope Z_scope.

(** * Machine model *)

(** A byte is an 8-bit character, as C's [char]. *)
Abbreviation byte := ascii.

Definition byte_of_Z (z : Z) : byte := ascii_of_N (Z.to_N (z mod 256)).
Definition Z_of_byte (b : byte) : Z := Z.of_N (N_of_ascii b).

(** The terminator of a C string. *)
Definition NUL : byte := byte_of_Z 0.

(** [size_t] is 64 bits wide, [uint32_t] 32 bits; arithmetic on them wraps. *)
Definition wrap64 (z : Z) : Z := z mod 2 ^ 64.
Definition wrap32 (z : Z) : Z := z mod 2 ^ 32.

(** Little-endian object representation of an unsigned integer on [n] bytes. *)
Fixpoint encode_le (n : nat) (z : Z) : list byte :=
  match n with
  | O => []
  | S n' => byte_of_Z z :: encode_le n' (z / 256)
  end.

Fixpoint decode_le (bs : list byte) : Z :=
  match bs with
  | [] => 0
  | b :: bs' => Z_of_byte b + 256 * decode_le bs'
  end.

(** Sizes of the structures of vdb.h under LP64. *)
Definition sizeof_float : Z := 4.
Definition sizeof_vdb_vector : Z := 24.
Definition sizeof_vdb_result : Z := 32.

(** ** IEEE-754 binary32

    A [float] is kept as its four bytes (least significant first), so that
    [memcpy], [fwrite] and [fread] move it unchanged; arithmetic decodes the
    bytes to the Standard Library's [spec_float], computes with 24 bits of
    precision and round-to-nearest-even, and encodes the result.  NaN payloads
    are not tracked: an operation that yields NaN yields 0x7FC00000. *)

Record c_float : Type := Float { fb0 : byte; fb1 : byte; fb2 : byte; fb3 : byte }.

Definition float_bytes (f : c_float) : list byte := [fb0 f; fb1 f; fb2 f; fb3 f].

Definition float_of_bytes (bs : list byte) : c_float :=
  Float (default NUL (bs !! 0%nat)) (default NUL (bs !! 1%nat))
        (default NUL (bs !! 2%nat)) (default NUL (bs !! 3%nat)).

Definition float_bits (f : c_float) : Z := decode_le (float_bytes f).

Definition float_of_bits (z : Z) : c_float := float_of_bytes (encode_le 4 z).

Definition prec32 : Z := 24.
Definition emax32 : Z := 128.

Definition SF_of_bits (x : Z) : spec_float :=
  let s := Z.testbit x 31 in
  let e := Z.land (Z.shiftr x 23) 255 in
  let m := Z.land x (2 ^ 23 - 1) in
  if e =? 0 then
    match m with
    | Zpos p => S754_finite s p (-149)
    | _ => S754_zero s
    end
  else if e =? 255 then
    (if m =? 0 then S754_infinity s else S754_nan)
  else
    match m + 2 ^ 23 with
    | Zpos p => S754_finite s p (e - 150)
    | _ => S754_nan
    end.

Definition sign_bit (s : bool) : Z := if s then 2 ^ 31 else 0.

Definition bits_of_SF (f : spec_float) : Z :=
  match f with
  | S754_zero s => sign_bit s
  | S754_infinity s => sign_bit s + 255 * 2 ^ 23
  | S754_nan => 255 * 2 ^ 23 + 2 ^ 22
  | S754_finite s m e =>
      if Zpos m <? 2 ^ 23 then sign_bit s + Zpos m
      else sign_bit s + (e + 150) * 2 ^ 23 + (Zpos m - 2 ^ 23)
  end.

Definition to_SF (f : c_float) : spec_float := SF_of_bits (float_bits f).
Definition of_SF (x : spec_float) : c_float := float_of_bits (bits_of_SF x).

Definition f_add (a b : c_float) : c_float := of_SF (SFadd prec32 emax32 (to_SF a) (to_SF b)).
Definition f_sub (a b : c_float) : c_float := of_SF (SFsub prec32 emax32 (to_SF a) (to_SF b)).
Definition f_mul (a b : c_float) : c_float := of_SF (SFmul prec32 emax32 (to_SF a) (to_SF b)).
Definition f_div (a b : c_float) : c_float := of_SF (SFdiv prec32 emax32 (to_SF a) (to_SF b)).
Definition f_sqrt (a : c_float) : c_float := of_SF (SFsqrt prec32 emax32 (to_SF a)).
Definition f_neg (a : c_float) : c_float := of_SF (SFopp (to_SF a)).

(** The comparisons of C: all are false as soon as an operand is NaN. *)
Definition f_eq (a b : c_float) : bool := SFeqb (to_SF a) (to_SF b).
Definition f_lt (a b : c_float) : bool := SFltb (to_SF a) (to_SF b).
Definition f_le (a b : c_float) : bool := SFleb (to_SF a) (to_SF b).
Definition f_gt (a b : c_float) : bool := f_lt b a.

Definition f_is_nan (a : c_float) : bool :=
  match to_SF a with S754_nan => true | _ => false end.

Definition f_is_finite (a : c_float) : bool :=
  match to_SF a with S754_zero _ | S754_finite _ _ _ => true | _ => false end.

(** The literals [0.0f] and [1.0f]. *)
Definition f_zero : c_float := float_of_bits 0.
Definition f_one : c_float := float_of_bits (127 * 2 ^ 23).

(** A float given by an integer, for examples. *)
Definition f_of_Z (z : Z) : c_float :=
  of_SF (binary_normalize prec32 emax32 z 0 false).

(** * Metric engine *)

(** [for (size_t i = lo; i < lo + n; i++) s = body i s]. *)
Fixpoint for_range {S : Type} (lo n : nat) (body : nat → S → S) (s : S) : S :=
  match n with
  | O => s
  | Datatypes.S n' => for_range (Datatypes.S lo) n' body (body lo s)
  end.

(** [a[i]].  The metric functions are pure: they are handed buffers that
    hold at least [dims] floats, which their callers check (reading past a
    buffer is undefined in C; here it reads [0.0f]). *)
Definition float_at (a : list c_float) (i : nat) : c_float := default f_zero (a !! i).

Definition vdb_dot_product (a b : list c_float) (dims : Z) : c_float :=
  for_range 0 (Z.to_nat dims)
    (λ i sum, f_add sum (f_mul (float_at a i) (float_at b i))) f_zero.

Definition vdb_magnitude (v : list c_float) (dims : Z) : c_float :=
  f_sqrt (for_range 0 (Z.to_nat dims)
            (λ i sum, f_add sum (f_mul (float_at v i) (float_at v i))) f_zero).

Definition vdb_cosine_similarity (a b : list c_float) (dims : Z) : c_float :=
  let dot := vdb_dot_product a b dims in
  let mag_a := vdb_magnitude a dims in
  let mag_b := vdb_magnitude b dims in
  if f_eq mag_a f_zero || f_eq mag_b f_zero then f_zero
  else f_div dot (f_mul mag_a mag_b).

Definition vdb_euclidean_distance (a b : list c_float) (dims : Z) : c_float :=
  f_sqrt (for_range 0 (Z.to_nat dims)
            (λ i sum, let diff := f_sub (float_at a i) (float_at b i) in
                      f_add sum (f_mul diff diff)) f_zero).

(** [vdb_metric] is a C enumeration, that is an [int]: [vdb_load] reads it from
    the file without checking it, so any value can occur. *)
Definition vdb_metric : Type := Z.
Definition VDB_METRIC_COSINE : vdb_metric := 0.
Definition VDB_METRIC_EUCLIDEAN : vdb_metric := 1.
Definition VDB_METRIC_DOT_PRODUCT : vdb_metric := 2.

Definition vdb_compute_distance (a b : list c_float) (dims : Z) (metric : vdb_metric) : c_float :=
  if metric =? VDB_METRIC_COSINE then f_sub f_one (vdb_cosine_similarity a b dims)
  else if metric =? VDB_METRIC_EUCLIDEAN then vdb_euclidean_distance a b dims
  else if metric =? VDB_METRIC_DOT_PRODUCT then f_neg (vdb_dot_product a b dims)
  else f_zero.

(** * Environment of the stateful code *)

(** What the code sees of its process: how many heap blocks and streams it
    holds, whether the coming allocation requests succeed, and the files. *)
Record world : Type := World {
  live_blocks : nat;              (* blocks obtained from VDB_MALLOC/VDB_REALLOC, not yet freed *)
  open_files : nat;               (* streams obtained from fopen, not yet closed *)
  alloc_plan : list bool;         (* answers to the coming allocation requests; then they succeed *)
  disk : string → option (list byte);   (* the contents of the files *)
  read_only : string → bool             (* files that cannot be opened for writing *)
}.

(** A call either returns a value in a new world, or its behaviour is
    undefined in C (access outside a block, read of an indeterminate
    value, free of a block that is not held). *)
Inductive outcome (A : Type) : Type :=
  | Ret (a : A) (w : world)
  | Fault.
Arguments Ret {A} a w.
Arguments Fault {A}.

Definition M (A : Type) : Type := world → outcome A.

Definition ret {A} (a : A) : M A := λ w, Ret a w.
Definition fault {A} : M A := λ _, Fault.
Definition bind {A B} (m : M A) (k : A → M B) : M B :=
  λ w, match m w with
       | Ret a w' => k a w'
       | Fault => Fault
       end.

Notation "x <- m ;; k" := (bind m (λ x, k))
  (at level 100, m at next level, right associativity).

(** [VDB_MALLOC(size)]: [true] when a block is returned, [false] for NULL. *)
Definition malloc (size : Z) : M bool :=
  λ w, match alloc_plan w with
       | false :: plan =>
           Ret false (World (live_blocks w) (open_files w) plan (disk w) (read_only w))
       | true :: plan =>
           Ret true (World (S (live_blocks w)) (open_files w) plan (disk w) (read_only w))
       | [] =>
           Ret true (World (S (live_blocks w)) (open_files w) [] (disk w) (read_only w))
       end.

(** [VDB_REALLOC(ptr, size)]; [held] tells whether [ptr] is a block (not
    NULL).  On success the old block, if any, is replaced by the new one; on
    failure it is kept.  Resizing a block to zero bytes is not defined. *)
Definition realloc (held : bool) (size : Z) : M bool :=
  if held then
    if size =? 0 then fault
    else λ w, match alloc_plan w with
              | false :: plan =>
                  Ret false (World (live_blocks w) (open_files w) plan (disk w) (read_only w))
              | true :: plan =>
                  Ret true (World (live_blocks w) (open_files w) plan (disk w) (read_only w))
              | [] => Ret true w
              end
  else malloc size.

(** [VDB_FREE(ptr)] for a block. *)
Definition free : M unit :=
  λ w, match live_blocks w with
       | O => Fault
       | S n => Ret tt (World n (open_files w) (alloc_plan w) (disk w) (read_only w))
       end.

(** [VDB_FREE(ptr)] for a pointer that may be NULL. *)
Definition free_if (held : bool) : M unit := if held then free else ret tt.

(** [fopen(filename, "rb")]: the bytes of the file, or [None] for NULL. *)
Definition fopen_rb (filename : string) : M (option (list byte)) :=
  λ w, match disk w filename with
       | Some bytes =>
           Ret (Some bytes)
               (World (live_blocks w) (S (open_files w)) (alloc_plan w) (disk w) (read_only w))
       | None => Ret None w
       end.

Definition disk_write (d : string → option (list byte)) (filename : string)
    (bytes : list byte) : string → option (list byte) :=
  λ name, if String.eqb name filename then Some bytes else d name.

(** [fopen(filename, "wb")]: creates or truncates the file. *)
Definition fopen_wb (filename : string) : M bool :=
  λ w, if read_only w filename then Ret false w
       else Ret true (World (live_blocks w) (S (open_files w)) (alloc_plan w)
                            (disk_write (disk w) filename []) (read_only w)).

(** [fwrite] on the stream opened on [filename]: appends; the model has no
    short writes (the code does not look at what [fwrite] returns). *)
Definition fwrite (filename : string) (bytes : list byte) : M unit :=
  λ w, match disk w filename with
       | Some old =>
           Ret tt (World (live_blocks w) (open_files w) (alloc_plan w)
                         (disk_write (disk w) filename (old ++ bytes)) (read_only w))
       | None => Fault
       end.

Definition fclose : M unit :=
  λ w, match open_files w with
       | O => Fault
       | S n => Ret tt (World (live_blocks w) n (alloc_plan w) (disk w) (read_only w))
       end.

(** * Data model of vdb.h *)

Inductive vdb_error : Type :=
  | VDB_OK
  | VDB_ERROR_NULL_POINTER
  | VDB_ERROR_INVALID_DIMENSIONS
  | VDB_ERROR_OUT_OF_MEMORY
  | VDB_ERROR_NOT_FOUND
  | VDB_ERROR_INVALID_INDEX
  | VDB_ERROR_THREAD_FAILURE.

Definition vdb_error_code (e : vdb_error) : Z :=
  match e with
  | VDB_OK => 0
  | VDB_ERROR_NULL_POINTER => -1
  | VDB_ERROR_INVALID_DIMENSIONS => -2
  | VDB_ERROR_OUT_OF_MEMORY => -3
  | VDB_ERROR_NOT_FOUND => -4
  | VDB_ERROR_INVALID_INDEX => -5
  | VDB_ERROR_THREAD_FAILURE => -6
  end.

(** A pointer the store does not follow ([void* metadata]); 0 is NULL. *)
Definition void_ptr : Type := Z.
Definition NULL : void_ptr := 0.

(** [vdb_vector].  [data] is the contents of the block [data] points to;
    [id] is [None] for NULL, otherwise the contents of the block, terminator
    included. *)
Record vdb_vector : Type := Vector {
  data : list c_float;
  id : option (list byte);
  metadata : void_ptr
}.

(** [vdb_database].  [vectors] is [None] for NULL, otherwise the slots of the
    block; a slot is [None] while its contents are indeterminate (never
    written, or pointing to freed blocks). *)
Record vdb_database : Type := Database {
  vectors : option (list (option vdb_vector));
  count : Z;
  capacity : Z;
  dimensions : Z;
  metric : vdb_metric
}.

Record vdb_result : Type := Result {
  index : Z;
  distance : c_float;
  result_id : option (list byte);
  result_metadata : void_ptr
}.

Record vdb_result_set : Type := ResultSet {
  results : list (option vdb_result);
  result_count : Z
}.

(** * Vector store *)

Definition is_held {A} (p : option A) : bool :=
  match p with Some _ => true | None => false end.

(** An array of [n] slots obtained by resizing [old]: the slots that fit are
    kept, the new ones are indeterminate. *)
Definition resize_slots {A} (n : nat) (old : list (option A)) : list (option A) :=
  take n old ++ replicate (n - length old) None.

(** [memmove(&a[dst], &a[src], n * sizeof a[0])] inside one array. *)
Definition memmove_slots {A} (a : list A) (dst src n : nat) : list A :=
  take dst a ++ take n (drop src a) ++ drop (dst + n) a.

(** [strlen]: the position of the first NUL; [None] when the buffer holds
    none (the scan then leaves the buffer). *)
Fixpoint strlen (s : list byte) : option Z :=
  match s with
  | [] => None
  | c :: s' => if Ascii.eqb c NUL then Some 0 else Z.succ <$> strlen s'
  end.

(** A loop [for (size_t i = lo; i < lo + n; i++)] whose body may fail. *)
Fixpoint for_rangeM {S : Type} (lo n : nat) (body : nat → S → M S) (s : S) : M S :=
  match n with
  | O => ret s
  | Datatypes.S n' => s' <- body lo s ;; for_rangeM (Datatypes.S lo) n' body s'
  end.

(** [db->vectors[i]], read. *)
Definition read_slot (db : vdb_database) (i : Z) : M vdb_vector :=
  match vectors db with
  | Some slots =>
      match slots !! Z.to_nat i with
      | Some (Some v) => ret v
      | _ => fault
      end
  | None => fault
  end.

(** [db->vectors[i]], overwritten; the other fields are kept. *)
Definition with_slot (db : vdb_database) (slots : list (option vdb_vector)) (i : Z)
    (v : option vdb_vector) : vdb_database :=
  Database (Some (<[Z.to_nat i := v]> slots)) (count db) (capacity db)
           (dimensions db) (metric db).

Definition vdb_create (dimensions : Z) (metric : vdb_metric) : M (option vdb_database) :=
  if dimensions =? 0 then ret None
  else
    ok <- malloc 40 ;;
    if ok then ret (Some (Database None 0 0 dimensions metric))
    else ret None.

(** The first part of [vdb_add_vector]: make room for one more slot.
    [None] when [VDB_REALLOC] fails. *)
Definition grow (db : vdb_database) : M (option vdb_database) :=
  if count db >=? capacity db then
    let new_capacity := if capacity db =? 0 then 16 else wrap64 (capacity db * 2) in
    let size := wrap64 (new_capacity * sizeof_vdb_vector) in
    ok <- realloc (is_held (vectors db)) size ;;
    if ok then
      ret (Some (Database
                   (Some (resize_slots (Z.to_nat (size / sizeof_vdb_vector))
                                       (default [] (vectors db))))
                   (count db) new_capacity (dimensions db) (metric db)))
    else ret None
  else ret (Some db).

(** [data] and [id] are the caller's buffers ([None] for NULL).  The
    database is returned with the error code, as the call leaves it. *)
Definition vdb_add_vector (db : option vdb_database) (data : option (list c_float))
    (id : option (list byte)) (metadata : void_ptr)
  : M (vdb_error * option vdb_database) :=
  match db, data with
  | Some db, Some data =>
      grown <- grow db ;;
      match grown with
      | None => ret (VDB_ERROR_OUT_OF_MEMORY, Some db)
      | Some db =>
          match vectors db with
          | None => fault
          | Some slots =>
              if Z.of_nat (length slots) <=? count db then fault
              else
                let size := wrap64 (dimensions db * sizeof_float) in
                ok <- malloc size ;;
                if negb ok then
                  ret (VDB_ERROR_OUT_OF_MEMORY, Some (with_slot db slots (count db) None))
                else
                  let n := Z.to_nat (size / sizeof_float) in
                  if (length data <? n)%nat then fault
                  else
                    let vec_data := take n data in
                    let finish (vec_id : option (list byte)) :=
                      ret (VDB_OK,
                           Some (Database
                                   (Some (<[Z.to_nat (count db) :=
                                              Some (Vector vec_data vec_id metadata)]> slots))
                                   (wrap64 (count db + 1)) (capacity db)
                                   (dimensions db) (metric db))) in
                    match id with
                    | Some id =>
                        match strlen id with
                        | None => fault
                        | Some id_len =>
                            let id_size := wrap64 (id_len + 1) in
                            ok <- malloc id_size ;;
                            if negb ok then
                              _ <- free ;;
                              ret (VDB_ERROR_OUT_OF_MEMORY,
                                   Some (with_slot db slots (count db) None))
                            else finish (Some (take (Z.to_nat id_size) id))
                        end
                    | None => finish None
                    end
          end
      end
  | _, _ => ret (VDB_ERROR_NULL_POINTER, db)
  end.

(** The three out-parameters receive the fields of the slot (the pointers
    of the store itself, no copy); the model returns them together. *)
Definition vdb_get_vector (db : option vdb_database) (index : Z)
  : M (vdb_error * option vdb_vector) :=
  match db with
  | None => ret (VDB_ERROR_NULL_POINTER, None)
  | Some db =>
      if index >=? count db then ret (VDB_ERROR_INVALID_INDEX, None)
      else v <- read_slot db index ;; ret (VDB_OK, Some v)
  end.

Definition vdb_remove_vector (db : option vdb_database) (index : Z)
  : M (vdb_error * option vdb_database) :=
  match db with
  | None => ret (VDB_ERROR_NULL_POINTER, None)
  | Some db =>
      if index >=? count db then ret (VDB_ERROR_INVALID_INDEX, Some db)
      else
        v <- read_slot db index ;;
        _ <- free ;;
        _ <- free_if (is_held (id v)) ;;
        let slots := <[Z.to_nat index := None]> (default [] (vectors db)) in
        slots' <- (if index <? count db - 1 then
                     let n := Z.to_nat (wrap64 ((count db - index - 1) * sizeof_vdb_vector)
                                        / sizeof_vdb_vector) in
                     if (length slots <? Z.to_nat index + 1 + n)%nat then fault
                     else ret (memmove_slots slots (Z.to_nat index) (Z.to_nat index + 1) n)
                   else ret slots) ;;
        ret (VDB_OK,
             Some (Database (Some slots') (wrap64 (count db - 1)) (capacity db)
                            (dimensions db) (metric db)))
  end.

(** The body of the loop of [vdb_destroy]: frees the blocks of slot [i]. *)
Definition free_record (db : vdb_database) (i : nat) (_ : unit) : M unit :=
  v <- read_slot db (Z.of_nat i) ;;
  _ <- free ;;
  free_if (is_held (id v)).

Definition vdb_destroy (db : option vdb_database) : M unit :=
  match db with
  | None => ret tt
  | Some db =>
      _ <- for_rangeM 0 (Z.to_nat (count db)) (free_record db) tt ;;
      _ <- free_if (is_held (vectors db)) ;;
      free
  end.

Definition vdb_count (db : option vdb_database) : Z :=
  match db with
  | None => 0
  | Some db => count db
  end.

Definition vdb_dimensions (db : option vdb_database) : Z :=
  match db with
  | None => 0
  | Some db => dimensions db
  end.

(** * Search engine *)

Definition vdb_result_compare (ra rb : vdb_result) : Z :=
  if f_lt (distance ra) (distance rb) then -1
  else if f_gt (distance ra) (distance rb) then 1
  else 0.

(** What the C standard asks of a comparison function for the elements of
    the array handed to [qsort]: a total preorder, consistently signed. *)
Definition consistent_on {A} (cmp : A → A → Z) (l : list A) : Prop :=
  (∀ x y, x ∈ l → y ∈ l → (cmp x y < 0 ↔ cmp y x > 0) ∧ (cmp x y = 0 → cmp y x = 0)) ∧
  (∀ x y z, x ∈ l → y ∈ l → z ∈ l → cmp x y <= 0 → cmp y z <= 0 → cmp x z <= 0).

(** An array is in the order of [cmp] when no element compares greater than
    a later one. *)
Definition ordered_by {A} (cmp : A → A → Z) (l : list A) : Prop :=
  ∀ (i j : nat) x y, (i < j)%nat → l !! i = Some x → l !! j = Some y → cmp x y <= 0.

(** The entry [vdb_search] computes for the record [v] at index [i]. *)
Definition score (db : vdb_database) (query : list c_float) (i : nat) (v : vdb_vector)
  : vdb_result :=
  Result (Z.of_nat i)
         (vdb_compute_distance query (data v) (dimensions db) (metric db))
         (id v) (metadata v).

(** The body of the scoring loop of [vdb_search]: fills [all_results[i]].
    [vdb_compute_distance] reads [dimensions] floats of the query and of the
    stored vector. *)
Definition score_record (db : vdb_database) (query : list c_float) (i : nat)
    (all_results : list (option vdb_result)) : M (list (option vdb_result)) :=
  if (length all_results <=? i)%nat then fault
  else
    v <- read_slot db (Z.of_nat i) ;;
    if (0 <? dimensions db) &&
       ((Z.of_nat (length query) <? dimensions db) ||
        (Z.of_nat (length (data v)) <? dimensions db))
    then fault
    else ret (<[i := Some (score db query i v)]> all_results).

Section Search.

(** The [qsort] of the C library is not part of vdb.h: the search is
    defined over any function that meets its contract. *)
Variable qsort : ∀ A : Type, (A → A → Z) → list A → list A.

(** [qsort(array, n, sizeof array[0], cmp)] on the first [n] slots. *)
Definition qsort_array {A} (array : list (option A)) (n : nat) (cmp : A → A → Z)
  : M (list (option A)) :=
  if (length array <? n)%nat then fault
  else
    match mapM (λ slot, slot) (take n array) with
    | Some elems => ret ((Some <$> qsort A cmp elems) ++ drop n array)
    | None => fault
    end.

Definition vdb_search (db : option vdb_database) (query : option (list c_float)) (k : Z)
  : M (option vdb_result_set) :=
  match db, query with
  | Some db, Some query =>
      if k =? 0 then ret None
      else if count db =? 0 then ret None
      else
        let k := if k >? count db then count db else k in
        let size := wrap64 (count db * sizeof_vdb_result) in
        ok <- malloc size ;;
        if negb ok then ret None
        else
          all_results <-
            for_rangeM 0 (Z.to_nat (count db)) (score_record db query)
              (replicate (Z.to_nat (size / sizeof_vdb_result)) None) ;;
          all_results <- qsort_array all_results (Z.to_nat (count db)) vdb_result_compare ;;
          ok <- malloc 16 ;;
          if negb ok then _ <- free ;; ret None
          else
            let rsize := wrap64 (k * sizeof_vdb_result) in
            ok <- malloc rsize ;;
            if negb ok then _ <- free ;; _ <- free ;; ret None
            else
              let n := Z.to_nat (rsize / sizeof_vdb_result) in
              if (length all_results <? n)%nat then fault
              else
                _ <- free ;;
                ret (Some (ResultSet (take n all_results) k))
  | _, _ => ret None
  end.

End Search.

Definition vdb_free_result_set (result_set : option vdb_result_set) : M unit :=
  match result_set with
  | None => ret tt
  | Some _ => _ <- free ;; free
  end.

(** * Persistence codec *)

Definition VDB_MAGIC : Z := 1447313968.   (* 0x56444230 *)

Definition floats_to_bytes (fs : list c_float) : list byte := fs ≫= float_bytes.

Fixpoint floats_of_bytes (n : nat) (bs : list byte) : list c_float :=
  match n with
  | O => []
  | S n' => float_of_bytes (take 4 bs) :: floats_of_bytes n' (drop 4 bs)
  end.

(** [fread(buf, size, nmemb, f)] where [buf] is a block of [cap] bytes and
    [stream] what is left of the file.  The number of bytes asked for is
    [size * nmemb] as a [size_t], as the C libraries of LP64 systems compute
    it; the call yields [nmemb] when that many bytes were read and were asked
    for, and fewer items otherwise (the code reads items of 1, 4 and 8
    bytes, of which a short read never holds [nmemb]).  The model gives the bytes when the
    call yields [nmemb], [None] when it yields another count; and the rest of
    the stream.  The bytes that arrive are stored as they come, so that a
    block too small for them is overrun. *)
Definition fread (cap size nmemb : Z) (stream : list byte)
  : M (option (list byte) * list byte) :=
  let want := wrap64 (size * nmemb) in
  let got := Z.min want (Z.of_nat (length stream)) in
  if cap <? got then fault
  else if got <? want then ret (None, drop (Z.to_nat got) stream)
  else if (want =? 0) && negb (nmemb =? 0) then ret (None, stream)
  else ret (Some (take (Z.to_nat want) stream), drop (Z.to_nat want) stream).

(** The body of the loop of [vdb_save]: writes the record of slot [i]. *)
Definition save_record (db : vdb_database) (filename : string) (i : nat) (_ : unit)
  : M unit :=
  v <- read_slot db (Z.of_nat i) ;;
  if Z.of_nat (length (data v)) <? dimensions db then fault
  else
    _ <- fwrite filename (floats_to_bytes (take (Z.to_nat (dimensions db)) (data v))) ;;
    match id v with
    | Some s =>
        match strlen s with
        | None => fault
        | Some len =>
            let id_len := wrap32 len in
            _ <- fwrite filename (encode_le 4 id_len) ;;
            if id_len >? 0 then fwrite filename (take (Z.to_nat id_len) s)
            else ret tt
        end
    | None => fwrite filename (encode_le 4 0)
    end.

Definition vdb_save (db : option vdb_database) (filename : option string) : M vdb_error :=
  match db, filename with
  | Some db, Some filename =>
      f <- fopen_wb filename ;;
      if negb f then ret VDB_ERROR_OUT_OF_MEMORY
      else
        _ <- fwrite filename (encode_le 4 VDB_MAGIC) ;;
        _ <- fwrite filename (encode_le 8 (dimensions db)) ;;
        _ <- fwrite filename (encode_le 8 (count db)) ;;
        _ <- fwrite filename (encode_le 4 (metric db)) ;;
        _ <- for_rangeM 0 (Z.to_nat (count db)) (save_record db filename) tt ;;
        _ <- fclose ;;
        ret VDB_OK
  | _, _ => ret VDB_ERROR_NULL_POINTER
  end.

(** The clean-up of the failure paths of [vdb_load] inside its loop:
    [VDB_FREE(data); VDB_FREE(id); vdb_destroy(db); fclose(f); return NULL]. *)
Definition load_abort (data_held id_held : bool) (db : vdb_database)
  : M (option vdb_database) :=
  _ <- free_if data_held ;;
  _ <- free_if id_held ;;
  _ <- vdb_destroy (Some db) ;;
  _ <- fclose ;;
  ret None.

(** The end of the body of the loop of [vdb_load]: the record read is
    added, the buffers are freed, and the loop goes on ([next]) unless the
    insertion failed. *)
Definition load_add (next : vdb_database → list byte → M (option vdb_database))
    (db : vdb_database) (data : list c_float) (id : option (list byte))
    (stream : list byte) : M (option vdb_database) :=
  r <- vdb_add_vector (Some db) (Some data) id NULL ;;
  _ <- free ;;
  _ <- free_if (is_held id) ;;
  match r with
  | (VDB_OK, Some db) => next db stream
  | (_, Some db) => _ <- vdb_destroy (Some db) ;; _ <- fclose ;; ret None
  | (_, None) => fault
  end.

(** The loop of [vdb_load], with [n] records still to read. *)
Fixpoint load_records (n : nat) (dimensions : Z) (db : vdb_database) (stream : list byte)
  : M (option vdb_database) :=
  match n with
  | O => _ <- fclose ;; ret (Some db)
  | S n' =>
      let size := wrap64 (dimensions * sizeof_float) in
      ok <- malloc size ;;
      if negb ok then load_abort false false db
      else
        r <- fread size sizeof_float dimensions stream ;;
        match r with
        | (None, _) => load_abort true false db
        | (Some bytes, stream) =>
            let data := floats_of_bytes (Z.to_nat (size / sizeof_float)) bytes in
            r <- fread 4 4 1 stream ;;
            match r with
            | (None, _) => load_abort true false db
            | (Some len_bytes, stream) =>
                let id_len := decode_le len_bytes in
                if id_len >? 0 then
                  let id_size := wrap32 (id_len + 1) in
                  ok <- malloc id_size ;;
                  if negb ok then load_abort true false db
                  else
                    r <- fread id_size 1 id_len stream ;;
                    match r with
                    | (None, _) => load_abort true true db
                    | (Some id_bytes, stream) =>
                        if id_size <=? id_len then fault
                        else load_add (load_records n' dimensions) db data
                                      (Some (id_bytes ++ [NUL])) stream
                    end
                else load_add (load_records n' dimensions) db data None stream
            end
        end
  end.

Definition vdb_load (filename : option string) : M (option vdb_database) :=
  match filename with
  | None => ret None
  | Some filename =>
      f <- fopen_rb filename ;;
      match f with
      | None => ret None
      | Some stream =>
          r <- fread 4 4 1 stream ;;
          match r with
          | (Some magic, stream) =>
              if negb (decode_le magic =? VDB_MAGIC) then _ <- fclose ;; ret None
              else
                r <- fread 8 8 1 stream ;;
                match r with
                | (Some dimensions, stream) =>
                    r <- fread 8 8 1 stream ;;
                    match r with
                    | (Some count, stream) =>
                        r <- fread 4 4 1 stream ;;
                        match r with
                        | (Some metric, stream) =>
                            db <- vdb_create (decode_le dimensions) (decode_le metric) ;;
                            match db with
                            | None => _ <- fclose ;; ret None
                            | Some db =>
                                load_records (Z.to_nat (decode_le count))
                                             (decode_le dimensions) db stream
                            end
                        | (None, _) => _ <- fclose ;; ret None
                        end
                    | (None, _) => _ <- fclose ;; ret None
                    end
                | (None, _) => _ <- fclose ;; ret None
                end
          | (None, _) => _ <- fclose ;; ret None
          end
      end
  end.

(** * Invariants and specification vocabulary *)

(** The cosine distance [vdb_compute_distance] computes from a vector to
    itself when its magnitude is not zero, as a function of the sum [s] of
    the squares of its components: [1.0f - s / (sqrtf(s) * sqrtf(s))], each
    operation rounded to single precision. *)
Definition cosine_self (s : c_float) : c_float :=
  f_sub f_one (f_div s (f_mul (f_sqrt s) (f_sqrt s))).

(** [FLT_MIN], the least normal number [2^-126]; [2^127]; and [2^-22]. *)
Definition f_min_normal : c_float := float_of_bits (2 ^ 23).
Definition f_2_127 : c_float := float_of_bits (254 * 2 ^ 23).
Definition cosine_eps : c_float := float_of_bits (105 * 2 ^ 23).

(** No coming allocation request fails. *)
Definition allocs_succeed (w : world) : Prop := false ∉ alloc_plan w.

(** Two worlds in which the program holds the same resources. *)
Definition same_resources (w w' : world) : Prop :=
  live_blocks w' = live_blocks w ∧ open_files w' = open_files w.

Definition zero_vector3 : list c_float := [f_zero; f_zero; f_zero].

Definition empty_world : world := World 0 0 [] (λ _, None) (λ _, false).

(** The slots of the array, none for NULL. *)
Definition slots_of (db : vdb_database) : list (option vdb_vector) :=
  default [] (vectors db).

(** The record at index [i], when that slot holds one. *)
Definition record_at (db : vdb_database) (i : Z) : option vdb_vector :=
  if i <? 0 then None else mjoin (slots_of db !! Z.to_nat i).

(** [count <= capacity], [capacity] is the number of slots of the block
    [vectors] points to (none for NULL), and the block is one that
    [VDB_REALLOC] can have returned: its size in bytes is a [size_t]. *)
Definition cap_inv (db : vdb_database) : Prop :=
  0 <= count db <= capacity db ∧
  capacity db = Z.of_nat (length (slots_of db)) ∧
  capacity db * sizeof_vdb_vector < 2 ^ 64 ∧
  (vectors db = None → capacity db = 0).

(** The identifier block [vdb_add_vector] fills from the caller's string. *)
Definition id_copy (id : option (list byte)) : option (list byte) :=
  match id with
  | Some s =>
      match strlen s with
      | Some len => Some (take (Z.to_nat (wrap64 (len + 1))) s)
      | None => None
      end
  | None => None
  end.

(** The number of floats [vdb_add_vector] copies. *)
Definition copied_floats (db : vdb_database) : nat :=
  Z.to_nat (wrap64 (dimensions db * sizeof_float) / sizeof_float).

(** [1] when the array of slots was first allocated between [db] and [db']. *)
Definition new_array (db db' : vdb_database) : nat :=
  if is_held (vectors db') && negb (is_held (vectors db)) then 1%nat else 0%nat.

(** The heap blocks a slot owns: its vector and, when present, its
    identifier. *)
Definition record_blocks (slot : option vdb_vector) : nat :=
  match slot with
  | Some v => if is_held (id v) then 2%nat else 1%nat
  | None => 0%nat
  end.

(** The slots in use. *)
Definition live_slots (db : vdb_database) : list (option vdb_vector) :=
  take (Z.to_nat (count db)) (slots_of db).

(** The heap blocks a database owns: the structure, the array, and the
    blocks of the slots in use. *)
Definition owned_blocks (db : vdb_database) : nat :=
  (1 + (if is_held (vectors db) then 1 else 0)
   + sum_list ((λ i, record_blocks (record_at db (Z.of_nat i)))
                 <$> seq 0 (Z.to_nat (count db))))%nat.

(** Every slot in use holds a record. *)
Definition live_inv (db : vdb_database) : Prop :=
  ∀ i, 0 <= i < count db → is_Some (record_at db i).

(** The characters of the C string held in a buffer: those before the
    first NUL. *)
Fixpoint c_string (s : list byte) : list byte :=
  match s with
  | [] => []
  | c :: s' => if Ascii.eqb c NUL then [] else c :: c_string s'
  end.

(** There is room for one more record, or the array can be doubled: the
    size of the new block is a [size_t]. *)
Definition can_grow (db : vdb_database) : Prop :=
  count db < capacity db ∨ 2 * capacity db * sizeof_vdb_vector < 2 ^ 64.

(** The dimensions are such that a vector is an object: its size in bytes
    is a [size_t]. *)
Definition dims_fit (db : vdb_database) : Prop :=
  0 < dimensions db ∧ dimensions db * sizeof_float < 2 ^ 64.

(** The identifier a record holds, as a C string ([None] for NULL). *)
Definition identifier (v : vdb_vector) : option (list byte) := c_string <$> id v.

(** A caller's string: a buffer that holds a NUL, shorter than the address
    space. *)
Definition is_c_string (s : list byte) : Prop :=
  NUL ∈ s ∧ Z.of_nat (length s) < 2 ^ 64.

(** * Concrete inputs for the examples *)

(** A string literal, with its terminator. *)
Definition c_str (s : string) : list byte := list_ascii_of_string s ++ [NUL].

Definition floats (l : list Z) : list c_float := f_of_Z <$> l.

(** What [vdb_create(3, VDB_METRIC_COSINE)] and [vdb_create(2, ...)] return. *)
Definition empty_db3 : vdb_database := Database None 0 0 3 VDB_METRIC_COSINE.
Definition empty_db2 : vdb_database := Database None 0 0 2 VDB_METRIC_COSINE.

Definition vec_a : vdb_vector := Vector (floats [1; 0; 0]) (Some (c_str "a")) NULL.
Definition vec_b : vdb_vector := Vector (floats [0; 1; 0]) (Some (c_str "b")) NULL.
Definition vec_c : vdb_vector := Vector (floats [1; 1; 0]) (Some (c_str "c")) NULL.

(** The database of the scenario of the specification: (1,0,0)/"a",
    (0,1,0)/"b", (1,1,0)/"c" inserted in that order. *)
Definition db_abc : vdb_database :=
  Database (Some ([Some vec_a; Some vec_b; Some vec_c] ++ replicate 13 None))
           3 16 3 VDB_METRIC_COSINE.

(** A world that holds the blocks of [db_abc]. *)
Definition world_abc : world := World 8 0 [] (λ _, None) (λ _, false).

(** [db_abc] after [vdb_add_vector(db, (0,0,1), "d", 77)], and the world. *)
Definition vec_d : vdb_vector := Vector (floats [0; 0; 1]) (Some (c_str "d")) 77.

Definition db_abcd : vdb_database :=
  Database (Some ([Some vec_a; Some vec_b; Some vec_c; Some vec_d] ++ replicate 12 None))
           4 16 3 VDB_METRIC_COSINE.

Definition world_abcd : world := World 10 0 [] (λ _, None) (λ _, false).

(** What [vdb_create(2^62 + 1, VDB_METRIC_COSINE)] returns: the size of a
    vector, [dimensions * sizeof(float)], does not fit a [size_t]. *)
Definition empty_db_overflow : vdb_database :=
  Database None 0 0 (2 ^ 62 + 1) VDB_METRIC_COSINE.

(** [empty_db3] after [vdb_add_vector(db, (1,0,0), "a", 77)]. *)
Definition db_a77 : vdb_database :=
  Database (Some (Some (Vector (floats [1; 0; 0]) (Some (c_str "a")) 77)
                  :: replicate 15 None))
           1 16 3 VDB_METRIC_COSINE.

(** [empty_db2] after an insert from a buffer of three floats. *)
Definition db_12 : vdb_database :=
  Database (Some (Some (Vector (floats [1; 2]) None NULL) :: replicate 15 None))
           1 16 2 VDB_METRIC_COSINE.

(** * Vocabulary of the search claims *)

(** The records in use, in index order. *)
Definition records (db : vdb_database) : list vdb_vector :=
  omap (λ slot, slot) (live_slots db).

(** The scored candidates: one entry per record, in index order. *)
Definition candidates (db : vdb_database) (query : list c_float) : list vdb_result :=
  imap (score db query) (records db).

(** The distances from the query to every stored vector (the brute-force
    recomputation). *)
Definition all_distances (db : vdb_database) (query : list c_float) : list c_float :=
  (λ v, vdb_compute_distance query (data v) (dimensions db) (metric db)) <$> records db.

(** Each distance is at most the next one. *)
Definition nondecreasing (ds : list c_float) : Prop :=
  ∀ (i : nat) x y, ds !! i = Some x → ds !! S i = Some y → f_le x y = true.

(** Every record in use holds at least [dimensions] floats. *)
Definition data_inv (db : vdb_database) : Prop :=
  ∀ i v, 0 <= i < count db → record_at db i = Some v →
         dimensions db <= Z.of_nat (length (data v)).

(** The entries of a result set, when all its slots are written. *)
Definition entries (rs : vdb_result_set) : list vdb_result :=
  omap (λ slot, slot) (results rs).

(** Sorting by insertion: an instance of the contract of [qsort], for
    running the examples. *)
Fixpoint insert_by {A} (cmp : A → A → Z) (x : A) (l : list A) : list A :=
  match l with
  | [] => [x]
  | y :: l' => if cmp x y <=? 0 then x :: l else y :: insert_by cmp x l'
  end.

Definition insertion_qsort (A : Type) (cmp : A → A → Z) (l : list A) : list A :=
  foldr (insert_by cmp) [] l.

(** A database whose distances to the query (1e10) are 2, NaN and 0: the
    vectors are (-1), (1e30) and (1); the dot product with (1e30)
    overflows to infinity, as does its magnitude. *)
Definition db_nan : vdb_database :=
  Database (Some ([Some (Vector (floats [-1]) None NULL);
                   Some (Vector (floats [10 ^ 30]) None NULL);
                   Some (Vector (floats [1]) None NULL)] ++ replicate 13 None))
           3 16 1 VDB_METRIC_COSINE.

Definition query_nan : list c_float := floats [10 ^ 10].

(** The query of the scenario of the specification. *)
Definition query_a : list c_float := floats [1; 0; 0].

(** * Vocabulary of the persistence claims *)

(** What [vdb_save] writes for an identifier: its length on four bytes,
    then its characters. *)
Definition id_image (id : option (list byte)) : list byte :=
  match id with
  | Some s =>
      let id_len := wrap32 (Z.of_nat (length (c_string s))) in
      encode_le 4 id_len ++ (if id_len >? 0 then take (Z.to_nat id_len) s else [])
  | None => encode_le 4 0
  end.

Definition record_image (dims : Z) (v : vdb_vector) : list byte :=
  floats_to_bytes (take (Z.to_nat dims) (data v)) ++ id_image (id v).

Definition header_image (db : vdb_database) : list byte :=
  encode_le 4 VDB_MAGIC ++ encode_le 8 (dimensions db) ++ encode_le 8 (count db)
  ++ encode_le 4 (metric db).

(** The file [vdb_save] produces. *)
Definition file_image (db : vdb_database) : list byte :=
  header_image db ++ (records db ≫= record_image (dimensions db)).

(** What [vdb_load] rebuilds from the image of a record: the vector, the
    identifier unless it is NULL or empty, and no attachment. *)
Definition loaded_id (id : option (list byte)) : option (list byte) :=
  match id with
  | Some s => if wrap32 (Z.of_nat (length (c_string s))) >? 0
              then Some (c_string s ++ [NUL]) else None
  | None => None
  end.

Definition loaded_record (dims : Z) (v : vdb_vector) : vdb_vector :=
  Vector (take (Z.to_nat dims) (data v)) (loaded_id (id v)) NULL.

(** Every identifier in use is a C string of less than 2^32 - 1
    characters (its length and its length plus one are [uint32_t]). *)
Definition id_inv (db : vdb_database) : Prop :=
  ∀ i v s, 0 <= i < count db → record_at db i = Some v → id v = Some s →
           NUL ∈ s ∧ Z.of_nat (length (c_string s)) < 2 ^ 32 - 1.

(** The metric is a value of its C type (an [unsigned int]). *)
Definition header_inv (db : vdb_database) : Prop := 0 <= metric db < 2 ^ 32.

(** A database as the operations build them, small enough to be rebuilt:
    the invariants of the store, vectors and identifiers that are objects,
    and an array that can be doubled once more. *)
Definition well_formed (db : vdb_database) : Prop :=
  cap_inv db ∧ live_inv db ∧ data_inv db ∧ id_inv db ∧ dims_fit db ∧ header_inv db ∧
  2 * count db * sizeof_vdb_vector < 2 ^ 64.

(** [bs] is the beginning of [l], and [l] goes on. *)
Definition strict_prefix (bs l : list byte) : Prop :=
  ∃ rest, l = bs ++ rest ∧ rest ≠ [].

(** The world [w] is [w0] with one more stream open, on the file [filename]
    whose contents are now [content]. *)
Definition writing (filename : string) (content : list byte) (w0 w : world) : Prop :=
  live_blocks w = live_blocks w0 ∧ open_files w = S (open_files w0) ∧
  alloc_plan w = alloc_plan w0 ∧ read_only w = read_only w0 ∧
  disk w filename = Some content ∧
  ∀ other, other ≠ filename → disk w other = disk w0 other.

(** What a part of the loop of [vdb_load] guarantees when it returns, entered
    with the database [db], [held] buffers of its own and [n] records to
    add: the stream is closed; on failure every block of the database and
    every buffer is released; on success the database has [n] more records,
    the earlier ones unchanged, and the buffers are released. *)
Definition load_post (held : nat) (db : vdb_database) (n : Z) (w : world)
    (r : option vdb_database) (w' : world) : Prop :=
  open_files w = S (open_files w') ∧ disk w' = disk w ∧
  match r with
  | None => live_blocks w = (live_blocks w' + owned_blocks db + held)%nat
  | Some db' =>
      cap_inv db' ∧ live_inv db' ∧ count db' = count db + n ∧
      dimensions db' = dimensions db ∧ metric db' = metric db ∧
      (live_blocks w' + owned_blocks db + held = live_blocks w + owned_blocks db')%nat ∧
      ∀ i, 0 <= i < count db → record_at db' i = record_at db i
  end.

(** A record that [vdb_save] writes in full and [vdb_load] can read back:
    at least [dims] floats, and an identifier that is a C string of less
    than 2^32 - 1 characters. *)
Definition storable (dims : Z) (v : vdb_vector) : Prop :=
  dims <= Z.of_nat (length (data v)) ∧
  ∀ s, id v = Some s → NUL ∈ s ∧ Z.of_nat (length (c_string s)) < 2 ^ 32 - 1.

(** The databases a program can hold: those returned by [vdb_create] and
    [vdb_load], and those left by [vdb_add_vector] and [vdb_remove_vector]
    when they return, whatever they return. *)
Inductive reachable : vdb_database → Prop :=
  | reach_create dims m w db w' :
      vdb_create dims m w = Ret (Some db) w' → reachable db
  | reach_load filename w db w' :
      vdb_load filename w = Ret (Some db) w' → reachable db
  | reach_add db data id md w e db' w' :
      reachable db →
      vdb_add_vector (Some db) (Some data) id md w = Ret (e, Some db') w' →
      reachable db'
  | reach_remove db i w e db' w' :
      reachable db → 0 <= i →
      vdb_remove_vector (Some db) i w = Ret (e, Some db') w' →
      reachable db'.

(** A database whose only record has the empty string for identifier. *)
Definition db_empty_id : vdb_database :=
  Database (Some (Some (Vector (floats [1]) (Some [NUL]) NULL) :: replicate 15 None))
           1 16 1 VDB_METRIC_COSINE.

(** A file of 32 bytes: a header that announces 2^62 + 1 dimensions and one
    record (cosine), then four bytes of vector and an identifier length
    of 0. *)
Definition file_dims_overflow : list byte :=
  encode_le 4 VDB_MAGIC ++ encode_le 8 (2 ^ 62 + 1) ++ encode_le 8 1 ++ encode_le 4 0
  ++ floats_to_bytes [f_one] ++ encode_le 4 0.

(** A world whose only file is [bytes], under the name [filename]. *)
Definition world_with_file (filename : string) (bytes : list byte) : world :=
  World 0 0 [] (disk_write (λ _, None) filename bytes) (λ _, false).

(** [n] calls of [vdb_add_vector] with the same vector and no identifier. *)
Definition add_many (n : nat) (data : list c_float) : vdb_database → M vdb_database :=
  for_rangeM 0 n
    (λ _ db, r <- vdb_add_vector (Some db) (Some data) None NULL ;;
             ret (default db r.2)).

(** [empty_db3] after sixteen calls [vdb_add_vector(db, (1,0,0), NULL, NULL)]:
    the array is full.  And a world that holds its blocks. *)
Definition db_16 : vdb_database :=
  Database (Some (replicate 16 (Some (Vector query_a None NULL)))) 16 16 3 VDB_METRIC_COSINE.

Definition world_16 : world := World 18 0 [] (λ _, None) (λ _, false).

(** * Vocabulary of the further properties *)

(** The arguments of one call of [vdb_add_vector]. *)
Record add_args : Type := AddArgs {
  arg_data : list c_float;
  arg_id : option (list byte);
  arg_metadata : void_ptr
}.

(** One change of the store: an insertion or a removal. *)
Inductive store_op : Type :=
  | OpAdd (a : add_args)
  | OpRemove (i : Z).

(** The call for [op], whatever it returns. *)
Definition apply_op (op : store_op) (db : vdb_database) : M vdb_database :=
  match op with
  | OpAdd a =>
      r <- vdb_add_vector (Some db) (Some (arg_data a)) (arg_id a) (arg_metadata a) ;;
      ret (default db r.2)
  | OpRemove i =>
      r <- vdb_remove_vector (Some db) i ;;
      ret (default db r.2)
  end.

Fixpoint apply_ops (ops : list store_op) (db : vdb_database) : M vdb_database :=
  match ops with
  | [] => ret db
  | op :: ops' => db' <- apply_op op db ;; apply_ops ops' db'
  end.

(** A whole life: [vdb_create], insertions and removals, [vdb_destroy]. *)
Definition session (dims : Z) (m : vdb_metric) (ops : list store_op) : M unit :=
  db <- vdb_create dims m ;;
  match db with
  | None => ret tt
  | Some db => db <- apply_ops ops db ;; vdb_destroy (Some db)
  end.

(** Arguments [vdb_add_vector] can read: a buffer of at least [dims] floats
    and, for identifier, NULL or a buffer that holds a NUL. *)
Definition readable (dims : Z) (a : add_args) : Prop :=
  dims <= Z.of_nat (length (arg_data a)) ∧ ∀ s, arg_id a = Some s → NUL ∈ s.

(** The calls a caller can make: an insertion from readable buffers, a
    removal at any index (a [size_t]). *)
Definition valid_op (dims : Z) (op : store_op) : Prop :=
  match op with
  | OpAdd a => readable dims a
  | OpRemove i => 0 <= i
  end.

(** Calls for the examples: (1,0,0) with identifier "a" and attachment 77,
    (0,1,0) with neither, the removal of the first record, and a removal
    out of range. *)
Definition some_ops : list store_op :=
  [OpAdd (AddArgs (floats [1; 0; 0]) (Some (c_str "a")) 77);
   OpAdd (AddArgs (floats [0; 1; 0]) None NULL);
   OpRemove 0; OpRemove 5].

(** What the operations keep true of a database besides [cap_inv]: the
    dimensions are not zero, and every slot in use holds a record whose
    vector has as many floats as an insertion copies. *)
Definition rep_inv (db : vdb_database) : Prop :=
  dimensions db ≠ 0 ∧
  ∀ i, 0 <= i < count db →
       ∃ v, record_at db i = Some v ∧ length (data v) = copied_floats db.

(** The NaN that the operations of the model produce (0x7FC00000), and two
    entries for the examples: one at distance NaN, one at distance 1. *)
Definition f_nan : c_float := float_of_bits (255 * 2 ^ 23 + 2 ^ 22).
Definition result_nan : vdb_result := Result 0 f_nan None NULL.
Definition result_one : vdb_result := Result 1 f_one None NULL.

(** ** The file format *)

(** The first four bytes of a file of vdb: 0x56444230, least significant
    byte first ("0BDV"). *)
Definition magic_bytes : list byte :=
  [byte_of_Z 48; byte_of_Z 66; byte_of_Z 68; byte_of_Z 86].

(** The number of characters of the identifier of a record (0 for NULL). *)
Definition id_chars (v : vdb_vector) : Z :=
  match id v with
  | Some s => Z.of_nat (length (c_string s))
  | None => 0
  end.

(** The number of bytes of a record in the file: its floats, the length of
    its identifier on four bytes, the characters of the identifier. *)
Definition record_size (dims : Z) (v : vdb_vector) : Z := 4 * dims + 4 + id_chars v.

Definition records_size (dims : Z) (vs : list vdb_vector) : Z :=
  foldr (λ v n, record_size dims v + n) 0 vs.

(** Every record in use has a NULL attachment. *)
Definition no_metadata (db : vdb_database) : Prop :=
  ∀ i, 0 <= i < count db → ∃ v, record_at db i = Some v ∧ metadata v = NULL.

(** The capacities the growth policy produces: none, or sixteen slots
    doubled some number of times. *)
Definition capacity_shape (db : vdb_database) : Prop :=
  capacity db = 0 ∨ ∃ j : nat, capacity db = 16 * 2 ^ Z.of_nat j.

(** An array that is less than half empty, unless it has its first size:
    what a run of successful insertions into a new database leaves. *)
Definition compact (db : vdb_database) : Prop :=
  (capacity db = 0 ∧ count db = 0) ∨ capacity db = 16 ∨ capacity db < 2 * count db.

(** * Reasoning about the outcome monad *)

Lemma bind_Ret {A B} (m : M A) (k : A → M B) w b w'' :
  bind m k w = Ret b w'' ↔ ∃ a w', m w = Ret a w' ∧ k a w' = Ret b w''.
Proof.
  unfold bind. split.
  - destruct (m w) as [a w'|] eqn:E; [|discriminate]. intros H. by exists a, w'.
  - intros (a & w' & -> & H). exact H.
Qed.

Lemma bind_run {A B} (m : M A) (k : A → M B) w a w' :
  m w = Ret a w' → bind m k w = k a w'.
Proof. unfold bind. by intros ->. Qed.

Lemma ret_Ret {A} (a b : A) w w' : ret a w = Ret b w' ↔ a = b ∧ w = w'.
Proof. unfold ret. split; [by inversion 1 | by intros [-> ->]]. Qed.

(** Splits a hypothesis [(x <- m ;; k) w = Ret b w'] into the two runs. *)
Tactic Notation "inv_bind" hyp(H) "as" ident(a) ident(w) ident(H1) :=
  apply bind_Ret in H as (a & w & H1 & H).

Ltac inv_ret H :=
  apply ret_Ret in H as [? ?]; simplify_eq.

(** Splits the conjunctions of the goal (without unfolding definitions) and
    closes the parts that follow from the hypotheses. *)
Ltac split_all := repeat match goal with |- _ ∧ _ => split end.
Ltac finish :=
  split_all;
  first [ done | congruence | lia | by left | by right
        | repeat case_match; first [ done | congruence | lia | by left | by right ] ].

(** Chains the hypotheses [allocs_succeed w -> ... /\ allocs_succeed w']. *)
Ltac chain_allocs :=
  repeat match goal with
         | H : allocs_succeed ?w → _, Ha : allocs_succeed ?w |- _ =>
             specialize (H Ha); destruct_and? H
         end.
Ltac solve_allocs := intros; chain_allocs; split_all; first [ done | congruence ].

Ltac finish_run := split_all; first [ solve_allocs | finish ].

Lemma malloc_Ret size w ok w' :
  malloc size w = Ret ok w' →
  live_blocks w' = (if ok then S (live_blocks w) else live_blocks w) ∧
  open_files w' = open_files w ∧ disk w' = disk w ∧ read_only w' = read_only w ∧
  (allocs_succeed w → ok = true ∧ allocs_succeed w').
Proof.
  unfold malloc, allocs_succeed.
  destruct (alloc_plan w) as [|[] plan] eqn:E; intros [= <- <-]; simpl;
    rewrite ?not_elem_of_cons; repeat split; try done; naive_solver.
Qed.

Lemma malloc_succeeds size w :
  allocs_succeed w →
  ∃ w', malloc size w = Ret true w' ∧ live_blocks w' = S (live_blocks w) ∧
        open_files w' = open_files w ∧ disk w' = disk w ∧ read_only w' = read_only w ∧
        allocs_succeed w'.
Proof.
  intros Hs. destruct (malloc size w) as [ok w'|] eqn:E.
  - apply malloc_Ret in E as (Hl & Ho & Hd & Hr & Hok).
    destruct (Hok Hs) as [-> Hs']. by exists w'.
  - unfold malloc in E. by destruct (alloc_plan w) as [|[] ?].
Qed.

Lemma free_Ret w u w' :
  free w = Ret u w' →
  live_blocks w = S (live_blocks w') ∧ open_files w' = open_files w ∧
  disk w' = disk w ∧ read_only w' = read_only w ∧ alloc_plan w' = alloc_plan w.
Proof.
  unfold free. destruct (live_blocks w) eqn:E; [done|]. by inversion 1.
Qed.

Lemma free_succeeds w n :
  live_blocks w = S n →
  ∃ w', free w = Ret tt w' ∧ live_blocks w' = n ∧ open_files w' = open_files w ∧
        disk w' = disk w ∧ read_only w' = read_only w ∧ alloc_plan w' = alloc_plan w.
Proof. intros E. unfold free. rewrite E. by eexists. Qed.

(** * Facts of binary32 arithmetic used below *)

Lemma to_SF_zero : to_SF f_zero = S754_zero false.
Proof. reflexivity. Qed.

Lemma f_sub_diag a : f_is_finite a = true → f_sub a a = f_zero.
Proof.
  unfold f_is_finite, f_sub. destruct (to_SF a) as [s|s| |s m e]; try done; intros _.
  - by destruct s.
  - unfold SFsub. by rewrite Z.sub_diag.
Qed.

Lemma f_mul_zero : f_mul f_zero f_zero = f_zero.
Proof. reflexivity. Qed.

Lemma f_add_zero : f_add f_zero f_zero = f_zero.
Proof. reflexivity. Qed.

Lemma f_sqrt_zero : f_sqrt f_zero = f_zero.
Proof. reflexivity. Qed.

Lemma f_one_minus_zero : f_sub f_one f_zero = f_one.
Proof. reflexivity. Qed.

Lemma f_is_finite_float_at v i :
  Forall (λ x, f_is_finite x = true) v → f_is_finite (float_at v i) = true.
Proof.
  intros Hv. unfold float_at. destruct (v !! i) as [x|] eqn:E; simpl; [|done].
  by eapply (Forall_lookup_1 _ _ _ _ Hv E).
Qed.

Lemma for_range_fixed {S} (body : nat → S → S) (s : S) n lo :
  (∀ i, body i s = s) → for_range lo n body s = s.
Proof.
  intros Hb. revert lo. induction n as [|n IH]; intros lo; simpl; [done|].
  by rewrite Hb.
Qed.

Lemma vdb_euclidean_distance_diag v dims :
  Forall (λ x, f_is_finite x = true) v → vdb_euclidean_distance v v dims = f_zero.
Proof.
  intros Hv. unfold vdb_euclidean_distance.
  rewrite for_range_fixed; [apply f_sqrt_zero|].
  intros i. cbv zeta. rewrite f_sub_diag by by apply f_is_finite_float_at.
  by rewrite f_mul_zero, f_add_zero.
Qed.

(** * Metric sanity (claim C3) *)

(** C3, refuted as stated: the cosine distance from the zero vector to itself
    is 1, not 0.  [vdb_cosine_similarity] returns 0 as soon as a magnitude
    is zero, and [vdb_compute_distance] returns one minus that. *)
Lemma cosine_distance_zero_vector_is_one :
  vdb_compute_distance zero_vector3 zero_vector3 3 VDB_METRIC_COSINE = f_one ∧
  f_eq (vdb_compute_distance zero_vector3 zero_vector3 3 VDB_METRIC_COSINE) f_zero = false.
Proof. split; vm_compute; reflexivity. Qed.

(** Away from zero magnitude the cosine distance of a vector to itself is
    the rounded [1 - dot / (mag * mag)]: it is 0 for (1,0,0) and (3,1,0) but
    -2^-23 for (1,1,0), whose squared magnitude 2 is not recovered from the
    rounded square root. *)
Lemma cosine_distance_self_examples :
  vdb_compute_distance [f_of_Z 1; f_of_Z 0; f_of_Z 0] [f_of_Z 1; f_of_Z 0; f_of_Z 0]
    3 VDB_METRIC_COSINE = f_zero ∧
  vdb_compute_distance [f_of_Z 3; f_of_Z 1; f_of_Z 0] [f_of_Z 3; f_of_Z 1; f_of_Z 0]
    3 VDB_METRIC_COSINE = f_zero ∧
  float_bits (vdb_compute_distance [f_of_Z 1; f_of_Z 1; f_of_Z 0]
                [f_of_Z 1; f_of_Z 1; f_of_Z 0] 3 VDB_METRIC_COSINE) = 2 ^ 31 + 104 * 2 ^ 23.
Proof. repeat split; vm_compute; reflexivity. Qed.

Lemma vdb_magnitude_dot a dims : vdb_magnitude a dims = f_sqrt (vdb_dot_product a a dims).
Proof. reflexivity. Qed.

Lemma cosine_self_not_finite s :
  f_is_finite s = false →
  f_eq (f_sqrt s) f_zero = false ∧ f_is_nan (cosine_self s) = true.
Proof.
  unfold cosine_self, f_is_finite, f_sub, f_div, f_mul, f_sqrt.
  destruct (to_SF s) as [sg|sg| |sg m e]; try done; intros _.
  destruct sg; split; vm_compute; reflexivity.
Qed.

(** * Creation (claim C10) *)

Lemma vdb_create_succeeds dimensions metric w :
  dimensions ≠ 0 → allocs_succeed w →
  ∃ w', vdb_create dimensions metric w = Ret (Some (Database None 0 0 dimensions metric)) w' ∧
        live_blocks w' = S (live_blocks w).
Proof.
  intros Hd Hs. unfold vdb_create. apply Z.eqb_neq in Hd as ->.
  destruct (malloc_succeeds 40 w Hs) as (w' & Hm & Hl & _).
  exists w'. by rewrite (bind_run _ _ _ _ _ Hm).
Qed.

(** C10: [vdb_create] with zero dimensions returns NULL and allocates
    nothing; with non-zero dimensions, when the allocation of the structure
    succeeds, it returns an empty database (no array, count 0, capacity 0)
    with the dimensions and the metric given. *)
Theorem vdb_create_spec (dimensions : Z) (metric : vdb_metric) (w : world) :
  (dimensions = 0 → vdb_create dimensions metric w = Ret None w) ∧
  (dimensions ≠ 0 → allocs_succeed w →
   ∃ w', vdb_create dimensions metric w = Ret (Some (Database None 0 0 dimensions metric)) w' ∧
         live_blocks w' = S (live_blocks w)).
Proof.
  split.
  - intros ->. reflexivity.
  - apply vdb_create_succeeds.
Qed.

Lemma vdb_create_spec_witness :
  vdb_create 0 VDB_METRIC_COSINE empty_world = Ret None empty_world ∧
  ∃ w', vdb_create 3 VDB_METRIC_COSINE empty_world
          = Ret (Some (Database None 0 0 3 VDB_METRIC_COSINE)) w' ∧
        live_blocks w' = S (live_blocks empty_world).
Proof.
  split.
  - apply (proj1 (vdb_create_spec 0 VDB_METRIC_COSINE empty_world)). reflexivity.
  - apply (proj2 (vdb_create_spec 3 VDB_METRIC_COSINE empty_world)).
    + discriminate.
    + unfold allocs_succeed. simpl. apply not_elem_of_nil.
Defined.

(** When the allocation fails, [vdb_create] returns NULL. *)
Lemma vdb_create_out_of_memory dimensions metric w plan :
  alloc_plan w = false :: plan →
  ∃ w', vdb_create dimensions metric w = Ret None w' ∧ live_blocks w' = live_blocks w.
Proof.
  intros E. unfold vdb_create. destruct (dimensions =? 0); [by exists w|].
  unfold bind, malloc. rewrite E. by eexists.
Qed.

(** * Growth of the array and insertion *)

Lemma realloc_Ret held size w ok w' :
  realloc held size w = Ret ok w' →
  live_blocks w' = (if ok && negb held then S (live_blocks w) else live_blocks w) ∧
  open_files w' = open_files w ∧ disk w' = disk w ∧ read_only w' = read_only w ∧
  (allocs_succeed w → ok = true ∧ allocs_succeed w').
Proof.
  unfold realloc. destruct held.
  - destruct (size =? 0); [done|]. unfold allocs_succeed.
    destruct (alloc_plan w) as [|[] plan] eqn:E; intros [= <- <-]; simpl;
      rewrite ?E, ?not_elem_of_cons; repeat split; try done; naive_solver.
  - intros H. apply malloc_Ret in H as (? & ? & ? & ? & ?).
    rewrite andb_true_r. done.
Qed.

Lemma length_resize_slots {A} n (old : list (option A)) :
  length (resize_slots n old) = n.
Proof. unfold resize_slots. rewrite length_app, length_take, length_replicate. lia. Qed.

Lemma lookup_resize_slots {A} n (old : list (option A)) i :
  (i < n)%nat → (i < length old)%nat → resize_slots n old !! i = old !! i.
Proof.
  intros ? ?. unfold resize_slots.
  rewrite lookup_app_l by (rewrite length_take; lia). by apply lookup_take_lt.
Qed.

Lemma lookup_resize_slots_mjoin {A} n (old : list (option A)) i :
  (i < n)%nat → mjoin (resize_slots n old !! i) = mjoin (old !! i).
Proof.
  intros ?. destruct (decide (i < length old)%nat).
  - by rewrite lookup_resize_slots.
  - unfold resize_slots. rewrite lookup_app_r by (rewrite length_take; lia).
    rewrite (lookup_ge_None_2 old) by lia.
    destruct (replicate _ _ !! _) as [x|] eqn:E; [|done].
    by apply lookup_replicate in E as [-> _].
Qed.

(** What [grow] leaves: either room for the new slot, with the capacity
    of the doubling policy, or (when the size of the new block has wrapped
    around) an array with no slot at index [count]. *)
Lemma grow_Ret db w r w' :
  cap_inv db → grow db w = Ret r w' →
  open_files w' = open_files w ∧ disk w' = disk w ∧ read_only w' = read_only w ∧
  (allocs_succeed w → allocs_succeed w' ∧ r ≠ None) ∧
  match r with
  | None => live_blocks w' = live_blocks w
  | Some db' =>
      live_blocks w' =
        (if (count db >=? capacity db) && negb (is_held (vectors db))
         then S (live_blocks w) else live_blocks w) ∧
      count db' = count db ∧ dimensions db' = dimensions db ∧ metric db' = metric db ∧
      capacity db' =
        (if count db >=? capacity db
         then (if capacity db =? 0 then 16 else 2 * capacity db) else capacity db) ∧
      vectors db' ≠ None ∧
      ((cap_inv db' ∧ count db < capacity db' ∧
        ∀ i, 0 <= i < count db → record_at db' i = record_at db i) ∨
       Z.of_nat (length (slots_of db')) <= count db)
  end.
Proof.
  intros (Hc & Hlen & Hsz & Hnull) H. unfold grow in H.
  destruct (count db >=? capacity db) eqn:Hfull.
  - inv_bind H as ok w1 Hrun. apply realloc_Ret in Hrun as (Hl & Ho & Hd & Hr & Hs).
    assert (wrap64 (capacity db * 2) = 2 * capacity db) as Hw2.
    { unfold wrap64. rewrite Z.mod_small; unfold sizeof_vdb_vector in *; lia. }
    destruct ok; inv_ret H; (split; [congruence|]); (split; [congruence|]);
      (split; [congruence|]); (split; [solve_allocs|]); [|by rewrite Hl].
    simpl. rewrite Hl, andb_true_l, Hw2. repeat split; try done.
    set (newcap := if capacity db =? 0 then 16 else 2 * capacity db).
    assert (0 < newcap <= 2 ^ 64 ∧ count db < newcap) as [Hnc Hlt].
    { subst newcap. destruct (capacity db =? 0) eqn:E; unfold sizeof_vdb_vector in *; lia. }
    unfold cap_inv, slots_of. simpl. rewrite length_resize_slots.
    destruct (decide (newcap * sizeof_vdb_vector < 2 ^ 64)) as [Hfit|Hwrap].
    + left. unfold wrap64. rewrite Z.mod_small by (unfold sizeof_vdb_vector in *; lia).
      unfold sizeof_vdb_vector. rewrite Z.div_mul by done.
      repeat split; try lia; try done.
      intros i Hi. unfold record_at, slots_of. simpl.
      destruct (i <? 0); [done|]. apply lookup_resize_slots_mjoin. lia.
    + right. unfold wrap64, sizeof_vdb_vector in *.
      assert (capacity db ≠ 0) as Hne.
      { intros E0. subst newcap. rewrite E0 in Hwrap. simpl in Hwrap. lia. }
      subst newcap. apply Z.eqb_neq in Hne as Hne'. rewrite Hne' in *.
      assert (count db = capacity db) as -> by lia.
      assert ((2 * capacity db * 24) mod 2 ^ 64 = 2 * capacity db * 24 - 2 ^ 64) as ->.
      { symmetry. apply Z.mod_unique with 1; lia. }
      rewrite Z2Nat.id by (apply Z.div_pos; lia).
      apply Z.lt_le_incl, Z.div_lt_upper_bound; lia.
  - inv_ret H. rewrite Z.geb_leb in Hfull. apply Z.leb_gt in Hfull.
    repeat split; try done.
    + intros Hv. apply Hnull in Hv. lia.
    + left. repeat split; try done; lia.
Qed.

Lemma record_at_insert_ne slots i j v c cap d m :
  0 <= i → 0 <= j → i ≠ j →
  record_at (Database (Some (<[Z.to_nat j := v]> slots)) c cap d m) i
  = record_at (Database (Some slots) c cap d m) i.
Proof.
  intros ? ? ?. unfold record_at, slots_of. simpl. destruct (i <? 0); [done|].
  rewrite list_lookup_insert_ne; [done|lia].
Qed.

Lemma record_at_insert_eq slots j v c cap d m :
  0 <= j < Z.of_nat (length slots) →
  record_at (Database (Some (<[Z.to_nat j := v]> slots)) c cap d m) j = v.
Proof.
  intros ?. unfold record_at, slots_of. simpl.
  destruct (j <? 0) eqn:E; [lia|]. rewrite list_lookup_insert_eq; [done|lia].
Qed.

Lemma cap_inv_insert slots j v c cap d m :
  cap_inv (Database (Some slots) c cap d m) →
  cap_inv (Database (Some (<[j := v]> slots)) c cap d m).
Proof.
  unfold cap_inv, slots_of. simpl. rewrite length_insert. naive_solver.
Qed.

(** What a call of [vdb_add_vector] that returns leaves behind, from a
    database that satisfies the capacity invariant. *)
Lemma vdb_add_vector_Ret db data id md w e odb' w' :
  cap_inv db →
  vdb_add_vector (Some db) (Some data) id md w = Ret (e, odb') w' →
  ∃ db', odb' = Some db' ∧ cap_inv db' ∧
    dimensions db' = dimensions db ∧ metric db' = metric db ∧
    open_files w' = open_files w ∧ disk w' = disk w ∧ read_only w' = read_only w ∧
    (∀ i, 0 <= i < count db → record_at db' i = record_at db i) ∧
    (allocs_succeed w → allocs_succeed w' ∧ e = VDB_OK) ∧
    (vectors db ≠ None → vectors db' ≠ None) ∧
    match e with
    | VDB_OK =>
        count db' = count db + 1 ∧
        capacity db' =
          (if count db >=? capacity db
           then (if capacity db =? 0 then 16 else 2 * capacity db) else capacity db) ∧
        (copied_floats db <= length data)%nat ∧
        (∀ s, id = Some s → is_Some (strlen s)) ∧
        record_at db' (count db)
          = Some (Vector (take (copied_floats db) data) (id_copy id) md) ∧
        live_blocks w'
          = (live_blocks w + 1 + (if is_held id then 1 else 0) + new_array db db')%nat
    | VDB_ERROR_OUT_OF_MEMORY =>
        count db' = count db ∧
        (capacity db' = capacity db ∨
         capacity db' = (if capacity db =? 0 then 16 else 2 * capacity db)) ∧
        live_blocks w' = (live_blocks w + new_array db db')%nat
    | _ => False
    end.
Proof.
  intros Hinv H. unfold vdb_add_vector in H. inv_bind H as grown w1 Hrun.
  apply grow_Ret in Hrun as (Ho & Hd & Hr & Hs & Hg); [|done].
  destruct grown as [db1|].
  2:{ inv_ret H. exists db. unfold new_array. rewrite andb_negb_r. finish_run. }
  destruct Hg as (Hl & Hc1 & Hd1 & Hm1 & Hcap1 & Hv1 & Hroom).
  destruct (vectors db1) as [slots|] eqn:Hvec; [clear Hv1|done].
  destruct (Z.of_nat (length slots) <=? count db1) eqn:Hoob; [done|].
  apply Z.leb_gt in Hoob.
  destruct Hroom as [(Hinv1 & Hlt & Hrec)|Hwrap];
    [|unfold slots_of in Hwrap; rewrite Hvec in Hwrap; simpl in Hwrap; lia].
  assert (new_array db db1 = if (count db >=? capacity db) && negb (is_held (vectors db))
                             then 1%nat else 0%nat) as Hnew.
  { unfold new_array. rewrite Hvec. simpl. destruct (vectors db) eqn:Ev; simpl.
    - by rewrite andb_false_r.
    - destruct Hinv as (? & ? & ? & Hnull). specialize (Hnull Ev).
      rewrite andb_true_r. destruct (count db >=? capacity db) eqn:E; [done|].
      rewrite Z.geb_leb in E. apply Z.leb_gt in E. lia. }
  assert (live_blocks w1 = (live_blocks w + new_array db db1)%nat) as Hl1.
  { rewrite Hl, Hnew. destruct (_ && _); lia. }
  clear Hl Hnew.
  destruct db1 as [v1 c1 cap1 d1 m1]. simpl in *. subst v1 c1 d1 m1.
  assert (0 <= count db) as Hc0 by (destruct Hinv as ((? & ?) & _); lia).
  assert (∀ v i, 0 <= i < count db →
            record_at (Database (Some (<[Z.to_nat (count db) := v]> slots)) (count db) cap1
                         (dimensions db) (metric db)) i = record_at db i) as Hrec'.
  { intros v i Hi. rewrite record_at_insert_ne by lia. by apply Hrec. }
  assert (wrap64 (count db + 1) = count db + 1) as Hw1.
  { unfold wrap64. apply Z.mod_small.
    destruct Hinv1 as (? & ? & ? & ?); simpl in *; unfold sizeof_vdb_vector in *. lia. }
  inv_bind H as ok w2 Hrun. apply malloc_Ret in Hrun as (Hl2 & Ho2 & Hd2 & Hr2 & Hs2).
  destruct ok; simpl in H.
  2:{ inv_ret H. eexists. split; [done|]. unfold with_slot. simpl.
      split; [by apply cap_inv_insert|].
      unfold new_array in *. simpl in *. split_all; first [ by apply Hrec' | finish_run ]. }
  fold (copied_floats db) in H.
  destruct (length data <? copied_floats db)%nat eqn:Hlen; [done|].
  apply Nat.ltb_ge in Hlen.
  assert (cap_inv (Database
            (Some (<[Z.to_nat (count db) := Some (Vector (take (copied_floats db) data)
                                                     (id_copy id) md)]> slots))
            (count db + 1) cap1 (dimensions db) (metric db))) as Hinv2.
  { destruct Hinv1 as (? & ? & ? & ?). unfold cap_inv, slots_of in *. simpl in *.
    rewrite length_insert. repeat split; try done; lia. }
  destruct id as [s|]; cbv zeta in H.
  - destruct (strlen s) as [len|] eqn:Hslen; [|done].
    inv_bind H as ok w3 Hrun. apply malloc_Ret in Hrun as (Hl3 & Ho3 & Hd3 & Hr3 & Hs3).
    destruct ok; simpl in H.
    + inv_ret H. rewrite Hw1. eexists. split; [done|].
      unfold id_copy in Hinv2. rewrite Hslen in Hinv2. split; [exact Hinv2|].
      unfold id_copy. rewrite Hslen. rewrite record_at_insert_eq by lia.
      unfold new_array in *. simpl in *.
      split_all; first [ by apply Hrec' | by intros ? [= <-]; rewrite Hslen | finish_run ].
    + inv_bind H as u w4 Hrun. apply free_Ret in Hrun as (Hl4 & Ho4 & Hd4 & Hr4 & Hp4).
      inv_ret H. eexists. split; [done|]. unfold with_slot. simpl.
      split; [by apply cap_inv_insert|].
      unfold new_array in *. simpl in *. split_all; first [ by apply Hrec' | finish_run ].
  - inv_ret H. rewrite Hw1. eexists. split; [done|]. split; [exact Hinv2|].
    rewrite record_at_insert_eq by lia.
    unfold new_array in *. simpl in *. split_all; first [ by apply Hrec' | finish_run ].
Qed.

(** * Ownership *)

Lemma record_at_Some db i v :
  record_at db i = Some v ↔ 0 <= i ∧ slots_of db !! Z.to_nat i = Some (Some v).
Proof.
  unfold record_at. destruct (i <? 0) eqn:E.
  - apply Z.ltb_lt in E. split; [done|lia].
  - apply Z.ltb_ge in E. destruct (slots_of db !! Z.to_nat i) as [[?|]|]; simpl; naive_solver.
Qed.

Lemma read_slot_live db i v w :
  record_at db i = Some v → read_slot db i w = Ret v w.
Proof.
  intros [_ H]%record_at_Some. unfold read_slot, slots_of in *.
  destruct (vectors db); simpl in H; [by rewrite H|done].
Qed.

Lemma read_slot_Ret db i v w w' :
  0 <= i → read_slot db i w = Ret v w' → record_at db i = Some v ∧ w' = w.
Proof.
  intros Hi H. unfold read_slot in H. rewrite record_at_Some. unfold slots_of.
  destruct (vectors db) as [slots|]; [|done]. simpl.
  destruct (slots !! Z.to_nat i) as [[?|]|]; [|done..]. by inv_ret H.
Qed.

Lemma sum_list_lookup_le (l : list nat) i x : l !! i = Some x → (x <= sum_list l)%nat.
Proof.
  revert i. induction l as [|y l IH]; intros [|i]; simpl; try done.
  - intros [= ->]. lia.
  - intros H. apply IH in H. lia.
Qed.

Lemma record_blocks_le_owned db i v :
  0 <= i < count db → record_at db i = Some v →
  (2 + record_blocks (Some v) <= owned_blocks db)%nat.
Proof.
  intros Hi Hv. pose proof Hv as [_ H]%record_at_Some. unfold owned_blocks.
  assert (is_held (vectors db) = true) as ->.
  { unfold slots_of in H. by destruct (vectors db). }
  assert (((λ i, record_blocks (record_at db (Z.of_nat i))) <$> seq 0 (Z.to_nat (count db)))
            !! Z.to_nat i = Some (record_blocks (Some v))) as Hl.
  { rewrite list_lookup_fmap, lookup_seq_lt by lia. simpl.
    by rewrite Z2Nat.id, Hv by lia. }
  apply sum_list_lookup_le in Hl. lia.
Qed.

Lemma free_if_succeeds held w n :
  live_blocks w = n → (held = true → (1 <= n)%nat) →
  ∃ w', free_if held w = Ret tt w' ∧
        live_blocks w' = (n - (if held then 1 else 0))%nat ∧
        open_files w' = open_files w ∧ disk w' = disk w ∧ read_only w' = read_only w ∧
        alloc_plan w' = alloc_plan w.
Proof.
  intros Hn Hh. destruct held; simpl.
  - destruct n as [|n]; [specialize (Hh eq_refl); lia|].
    destruct (free_succeeds w n Hn) as (w' & ? & ? & ? & ? & ? & ?).
    exists w'. simpl. split_all; try done; lia.
  - exists w. split_all; try done; lia.
Qed.

Lemma free_if_Ret held w u w' :
  free_if held w = Ret u w' →
  live_blocks w = (live_blocks w' + (if held then 1 else 0))%nat ∧
  open_files w' = open_files w ∧ disk w' = disk w ∧ read_only w' = read_only w ∧
  alloc_plan w' = alloc_plan w.
Proof.
  destruct held; simpl.
  - intros (? & ? & ? & ? & ?)%free_Ret. split_all; try done; lia.
  - intros H. inv_ret H. split_all; try done; lia.
Qed.

(** * Removal (claim C5) *)

Lemma lookup_memmove_slots {A} (a : list A) (dst src n : nat) j :
  (dst + n <= length a)%nat → (src + n <= length a)%nat →
  memmove_slots a dst src n !! j =
    if decide (j < dst)%nat then a !! j
    else if decide (j < dst + n)%nat then a !! (src + (j - dst))%nat
    else a !! j.
Proof.
  intros Hd Hs. unfold memmove_slots.
  destruct (decide (j < dst)%nat).
  - rewrite lookup_app_l by (rewrite length_take; lia). by rewrite lookup_take_lt.
  - rewrite lookup_app_r by (rewrite length_take; lia).
    rewrite length_take, Nat.min_l by lia.
    destruct (decide (j < dst + n)%nat).
    + rewrite lookup_app_l by (rewrite length_take, length_drop; lia).
      rewrite lookup_take_lt by lia. by rewrite lookup_drop.
    + rewrite lookup_app_r by (rewrite length_take, length_drop; lia).
      rewrite length_take, length_drop, Nat.min_l by lia.
      rewrite lookup_drop. f_equal. lia.
Qed.

Lemma length_memmove_slots {A} (a : list A) (dst src n : nat) :
  (dst + n <= length a)%nat → (src + n <= length a)%nat →
  length (memmove_slots a dst src n) = length a.
Proof.
  intros ? ?. unfold memmove_slots.
  rewrite !length_app, !length_take, !length_drop. lia.
Qed.

Lemma vdb_remove_vector_run db i v w :
  cap_inv db → (owned_blocks db <= live_blocks w)%nat →
  0 <= i < count db → record_at db i = Some v →
  ∃ db' w',
    vdb_remove_vector (Some db) i w = Ret (VDB_OK, Some db') w' ∧
    count db' = count db - 1 ∧ capacity db' = capacity db ∧
    dimensions db' = dimensions db ∧ metric db' = metric db ∧ cap_inv db' ∧
    (∀ j, 0 <= j < count db - 1 →
       record_at db' j = record_at db (if j <? i then j else j + 1)) ∧
    live_blocks w = (live_blocks w' + record_blocks (Some v))%nat ∧
    open_files w' = open_files w ∧ disk w' = disk w ∧ read_only w' = read_only w ∧
    alloc_plan w' = alloc_plan w.
Proof.
  intros Hinv Hown Hi Hv.
  pose proof (record_blocks_le_owned db i v Hi Hv) as Hblocks.
  pose proof Hinv as (Hc & Hlen & Hsz & Hnull).
  pose proof Hv as [_ Hslot]%record_at_Some.
  unfold vdb_remove_vector.
  assert ((i >=? count db) = false) as -> by (rewrite Z.geb_leb; apply Z.leb_gt; lia).
  rewrite (bind_run _ _ _ _ _ (read_slot_live db i v w Hv)).
  destruct (free_succeeds w (pred (live_blocks w))) as (w1 & Hf1 & Hl1 & Ho1 & Hd1 & Hr1 & Hp1);
    [simpl in Hblocks; lia|].
  rewrite (bind_run _ _ _ _ _ Hf1).
  destruct (free_if_succeeds (is_held (id v)) w1 _ Hl1)
    as (w2 & Hf2 & Hl2 & Ho2 & Hd2 & Hr2 & Hp2).
  { intros E. simpl in Hblocks. rewrite E in Hblocks. lia. }
  rewrite (bind_run _ _ _ _ _ Hf2).
  assert (wrap64 (count db - 1) = count db - 1) as ->.
  { unfold wrap64. apply Z.mod_small. unfold sizeof_vdb_vector in *. lia. }
  fold (slots_of db).
  set (slots := <[Z.to_nat i := None]> (slots_of db)).
  assert (length slots = length (slots_of db)) as Hlen' by apply length_insert.
  destruct (i <? count db - 1) eqn:Hlast.
  - apply Z.ltb_lt in Hlast.
    assert (wrap64 ((count db - i - 1) * sizeof_vdb_vector) / sizeof_vdb_vector
            = count db - i - 1) as ->.
    { unfold wrap64. rewrite Z.mod_small by (unfold sizeof_vdb_vector in *; lia).
      unfold sizeof_vdb_vector. by rewrite Z.div_mul. }
    assert ((length slots <? Z.to_nat i + 1 + Z.to_nat (count db - i - 1))%nat = false) as ->
      by (apply Nat.ltb_ge; lia).
    rewrite (bind_run _ _ _ _ _ (eq_refl : ret _ w2 = Ret _ w2)).
    eexists _, w2. split; [reflexivity|]. simpl.
    assert (∀ j, (j < length slots)%nat →
              memmove_slots slots (Z.to_nat i) (Z.to_nat i + 1) (Z.to_nat (count db - i - 1)) !! j
              = if decide (j < Z.to_nat i)%nat then slots_of db !! j
                else if decide (j < Z.to_nat (count db - 1))%nat then slots_of db !! S j
                else slots !! j) as Hmm.
    { intros j Hj. rewrite lookup_memmove_slots by lia.
      destruct (decide (j < Z.to_nat i)%nat).
      - subst slots. rewrite list_lookup_insert_ne by lia. done.
      - destruct (decide (j < Z.to_nat i + Z.to_nat (count db - i - 1))%nat).
        + rewrite decide_True by lia. subst slots.
          rewrite list_lookup_insert_ne by lia. f_equal. lia.
        + by rewrite decide_False by lia. }
    split_all; try done; try congruence.
    + unfold cap_inv, slots_of in *. simpl.
      rewrite length_memmove_slots by lia. rewrite Hlen'. split_all; try done; lia.
    + intros j Hj. unfold record_at at 1. unfold slots_of at 1. simpl.
      assert ((j <? 0) = false) as -> by (apply Z.ltb_ge; lia).
      rewrite Hmm by lia. unfold record_at.
      destruct (j <? i) eqn:Hji.
      * apply Z.ltb_lt in Hji. rewrite decide_True by lia.
        by assert ((j <? 0) = false) as -> by (apply Z.ltb_ge; lia).
      * apply Z.ltb_ge in Hji. rewrite decide_False by lia. rewrite decide_True by lia.
        assert ((j + 1 <? 0) = false) as -> by (apply Z.ltb_ge; lia).
        do 2 f_equal. lia.
    + simpl in *. destruct (is_held (id v)); lia.
  - apply Z.ltb_ge in Hlast.
    rewrite (bind_run _ _ _ _ _ (eq_refl : ret _ w2 = Ret _ w2)).
    eexists _, w2. split; [reflexivity|]. simpl.
    split_all; try done; try congruence.
    + unfold cap_inv, slots_of in *. simpl. rewrite Hlen'. split_all; try done; lia.
    + intros j Hj. assert ((j <? i) = true) as -> by (apply Z.ltb_lt; lia).
      unfold record_at. unfold slots_of at 1. simpl.
      destruct (j <? 0); [done|]. subst slots. by rewrite list_lookup_insert_ne by lia.
    + simpl in *. destruct (is_held (id v)); lia.
Qed.

Lemma vdb_get_vector_live db i v w :
  0 <= i < count db → record_at db i = Some v →
  vdb_get_vector (Some db) i w = Ret (VDB_OK, Some v) w.
Proof.
  intros Hi Hv. unfold vdb_get_vector.
  assert ((i >=? count db) = false) as -> by (rewrite Z.geb_leb; apply Z.leb_gt; lia).
  by rewrite (bind_run _ _ _ _ _ (read_slot_live db i v w Hv)).
Qed.

(** C5: removing the record at an index [i] below [count] succeeds; the
    records below [i] stay, every record above moves one index down (so that
    [vdb_get_vector] at [j >= i] now yields what was at [j + 1]) and [count]
    decreases by one.  With [i >= count] the call fails with
    [VDB_ERROR_INVALID_INDEX] and changes nothing. *)
Theorem vdb_remove_vector_spec (db : vdb_database) (i : Z) (w : world) :
  cap_inv db → live_inv db → (owned_blocks db <= live_blocks w)%nat → 0 <= i →
  (i < count db →
     ∃ db' w',
       vdb_remove_vector (Some db) i w = Ret (VDB_OK, Some db') w' ∧
       count db' = count db - 1 ∧
       (∀ j, 0 <= j < i → record_at db' j = record_at db j) ∧
       (∀ j, i <= j < count db - 1 →
          record_at db' j = record_at db (j + 1) ∧
          vdb_get_vector (Some db') j w' = Ret (VDB_OK, record_at db (j + 1)) w')) ∧
  (count db <= i →
     vdb_remove_vector (Some db) i w = Ret (VDB_ERROR_INVALID_INDEX, Some db) w).
Proof.
  intros Hinv Hlive Hown Hi. split.
  - intros Hlt. destruct (Hlive i) as [v Hv]; [lia|].
    destruct (vdb_remove_vector_run db i v w Hinv Hown ltac:(lia) Hv)
      as (db' & w' & Hrun & Hc & _ & _ & _ & _ & Hrec & _).
    exists db', w'. split_all; try done.
    + intros j Hj. rewrite Hrec by lia.
      by assert ((j <? i) = true) as -> by (apply Z.ltb_lt; lia).
    + intros j Hj.
      assert (record_at db' j = record_at db (j + 1)) as Hj'.
      { rewrite Hrec by lia. by assert ((j <? i) = false) as -> by (apply Z.ltb_ge; lia). }
      split; [done|]. destruct (Hlive (j + 1)) as [v' Hv']; [lia|].
      rewrite Hv'. apply vdb_get_vector_live; [lia|]. by rewrite Hj'.
  - intros Hge. unfold vdb_remove_vector.
    by assert ((i >=? count db) = true) as -> by (rewrite Z.geb_leb; apply Z.leb_le; lia).
Qed.


(** * Insertion (claims C4 and C8) *)

Lemma strlen_c_string s :
  NUL ∈ s →
  strlen s = Some (Z.of_nat (length (c_string s))) ∧
  take (S (length (c_string s))) s = c_string s ++ [NUL] ∧
  (length (c_string s) < length s)%nat.
Proof.
  induction s as [|c s IH]; [by intros ?%elem_of_nil|].
  intros Hin. simpl. destruct (Ascii.eqb c NUL) eqn:E.
  - apply Ascii.eqb_eq in E as ->. simpl. split_all; [done..|lia].
  - apply Ascii.eqb_neq in E. apply elem_of_cons in Hin as [Hin|Hin]; [done|].
    destruct (IH Hin) as (-> & Ht & Hl). simpl. rewrite Ht.
    split_all; [f_equal; lia|done|lia].
Qed.

Lemma strlen_Some s len : strlen s = Some len → NUL ∈ s.
Proof.
  revert len. induction s as [|c s IH]; intros len; simpl; [done|].
  destruct (Ascii.eqb c NUL) eqn:E.
  - apply Ascii.eqb_eq in E as ->. intros _. by left.
  - destruct (strlen s) as [n|] eqn:Hs; [|done]. intros _. right. by eapply IH.
Qed.

Lemma id_copy_c_string s :
  is_c_string s → id_copy (Some s) = Some (c_string s ++ [NUL]).
Proof.
  intros [Hin Hlen]. destruct (strlen_c_string s Hin) as (Hs & Ht & Hl).
  unfold id_copy. rewrite Hs. f_equal. rewrite <- Ht. f_equal.
  unfold wrap64. rewrite Z.mod_small by lia. lia.
Qed.

Lemma c_string_app_NUL body : NUL ∉ body → c_string (body ++ [NUL]) = body.
Proof.
  induction body as [|c body IH]; simpl; intros Hn.
  - done.
  - apply not_elem_of_cons in Hn as [Hc Hn].
    destruct (Ascii.eqb c NUL) eqn:E; [by apply Ascii.eqb_eq in E|].
    by rewrite IH.
Qed.

Lemma c_string_no_NUL s : NUL ∉ c_string s.
Proof.
  induction s as [|c s IH]; simpl; [apply not_elem_of_nil|].
  destruct (Ascii.eqb c NUL) eqn:E; [apply not_elem_of_nil|].
  apply Ascii.eqb_neq in E. apply not_elem_of_cons. split; [congruence|done].
Qed.

Lemma copied_floats_fit db : dims_fit db → copied_floats db = Z.to_nat (dimensions db).
Proof.
  intros [? ?]. unfold copied_floats, wrap64, sizeof_float in *.
  rewrite Z.mod_small by lia. by rewrite Z.div_mul.
Qed.

(** Only three codes come out of [vdb_add_vector], and a failure leaves
    [count] as it was. *)
Lemma vdb_add_vector_codes db data id md w e odb' w' :
  vdb_add_vector db data id md w = Ret (e, odb') w' →
  (e = VDB_OK ∨ e = VDB_ERROR_NULL_POINTER ∨ e = VDB_ERROR_OUT_OF_MEMORY) ∧
  (e ≠ VDB_OK → vdb_count odb' = vdb_count db).
Proof.
  unfold vdb_add_vector, grow, with_slot. intros H.
  repeat first
    [ progress simplify_eq/=
    | match type of H with
      | bind _ _ _ = Ret _ _ => let a := fresh "a" in let w := fresh "w" in
                                let Hr := fresh "Hr" in inv_bind H as a w Hr
      | ret _ _ = Ret _ _ => inv_ret H
      | fault _ = Ret _ _ => discriminate H
      end
    | match goal with
      | Hr : bind _ _ _ = Ret _ _ |- _ =>
          let a := fresh "a" in let w := fresh "w" in
          let Hr' := fresh "Hr" in inv_bind Hr as a w Hr'
      | Hr : ret _ _ = Ret _ _ |- _ => inv_ret Hr
      | Hr : fault _ = Ret _ _ |- _ => discriminate Hr
      end
    | case_match ];
    split; first [ by auto | by intros [] | done ].
Qed.

Lemma realloc_succeeds held size w :
  allocs_succeed w → (held = true → size ≠ 0) →
  ∃ w', realloc held size w = Ret true w' ∧ allocs_succeed w'.
Proof.
  intros Hs Hsz. destruct (realloc held size w) as [ok w'|] eqn:E.
  - apply realloc_Ret in E as (_ & _ & _ & _ & Hok). destruct (Hok Hs) as [-> ?]. by exists w'.
  - unfold realloc in E. destruct held.
    + specialize (Hsz eq_refl). apply Z.eqb_neq in Hsz. rewrite Hsz in E.
      by destruct (alloc_plan w) as [|[] ?].
    + destruct (malloc_succeeds size w Hs) as (? & E' & _). congruence.
Qed.

Lemma grow_succeeds db w :
  cap_inv db → can_grow db → allocs_succeed w →
  ∃ db1 w1, grow db w = Ret (Some db1) w1 ∧ allocs_succeed w1 ∧
            cap_inv db1 ∧ count db1 = count db ∧ count db < capacity db1.
Proof.
  intros Hinv Hgrow Hs.
  assert (∃ r w1, grow db w = Ret r w1) as (r & w1 & Hrun).
  { unfold grow. destruct (count db >=? capacity db) eqn:Hfull; [|by eexists _, _].
    rewrite Z.geb_leb in Hfull. apply Z.leb_le in Hfull.
    destruct Hgrow as [?|Hgrow]; [lia|].
    destruct (realloc_succeeds (is_held (vectors db))
                (wrap64 ((if capacity db =? 0 then 16 else wrap64 (capacity db * 2))
                         * sizeof_vdb_vector)) w Hs) as (w1 & Hr & _).
    - intros _. unfold wrap64, sizeof_vdb_vector in *.
      destruct Hinv as (? & ? & ? & ?).
      destruct (capacity db =? 0) eqn:E; [done|]. apply Z.eqb_neq in E.
      rewrite (Z.mod_small (capacity db * 2)) by lia.
      rewrite Z.mod_small by lia. lia.
    - rewrite (bind_run _ _ _ _ _ Hr). by eexists _, _. }
  pose proof (grow_Ret db w r w1 Hinv Hrun) as (_ & _ & _ & Hs' & Hg).
  destruct (Hs' Hs) as [Hs1 Hr]. destruct r as [db1|]; [|done].
  destruct Hg as (_ & Hc & _ & _ & Hcap & _ & [(Hinv1 & Hlt & _)|Hwrap]).
  - exists db1, w1. split_all; done.
  - exfalso. unfold grow in Hrun. unfold sizeof_vdb_vector in *.
    destruct Hinv as (? & ? & ? & ?).
    destruct (count db >=? capacity db) eqn:Hfull.
    + rewrite Z.geb_leb in Hfull. apply Z.leb_le in Hfull.
      destruct Hgrow as [?|Hgrow]; [lia|]. unfold sizeof_vdb_vector in *.
      inv_bind Hrun as ok w2 Hr2. destruct ok; inv_ret Hrun.
      unfold slots_of in Hwrap. simpl in Hwrap. rewrite length_resize_slots in Hwrap.
      unfold wrap64, sizeof_vdb_vector in Hwrap.
      destruct (capacity db =? 0) eqn:E.
      * apply Z.eqb_eq in E. change (Z.of_nat (Z.to_nat 16) <= count db) in Hwrap. lia.
      * rewrite (Z.mod_small (capacity db * 2)) in Hwrap by lia.
        rewrite Z.mod_small, Z.div_mul in Hwrap by lia. lia.
    + inv_ret Hrun. rewrite Z.geb_leb in Hfull. apply Z.leb_gt in Hfull.
      unfold sizeof_vdb_vector in *. lia.
Qed.

Lemma vdb_add_vector_succeeds db data id md w :
  cap_inv db → can_grow db → allocs_succeed w →
  (copied_floats db <= length data)%nat → (∀ s, id = Some s → NUL ∈ s) →
  ∃ db' w', vdb_add_vector (Some db) (Some data) id md w = Ret (VDB_OK, Some db') w'.
Proof.
  intros Hinv Hgrow Hs Hdata Hid.
  assert (∃ e odb' w', vdb_add_vector (Some db) (Some data) id md w = Ret (e, odb') w')
    as (e & odb' & w' & Hrun).
  { unfold vdb_add_vector.
    destruct (grow_succeeds db w Hinv Hgrow Hs) as (db1 & w1 & Hg & Hs1 & Hinv1 & Hc1 & Hlt).
    rewrite (bind_run _ _ _ _ _ Hg).
    destruct Hinv1 as (? & Hlen & ? & Hnull). unfold slots_of in Hlen.
    destruct (vectors db1) as [slots|]; [|specialize (Hnull eq_refl); lia].
    simpl in Hlen.
    assert ((Z.of_nat (length slots) <=? count db1) = false) as -> by (apply Z.leb_gt; lia).
    destruct (malloc_succeeds (wrap64 (dimensions db1 * sizeof_float)) w1 Hs1)
      as (w2 & Hm & _ & _ & _ & _ & Hs2).
    rewrite (bind_run _ _ _ _ _ Hm). simpl.
    assert (dimensions db1 = dimensions db) as Hd.
    { pose proof (grow_Ret db w _ w1 Hinv Hg) as (_ & _ & _ & _ & Hgr). by destruct_and? Hgr. }
    rewrite Hd. fold (copied_floats db).
    assert ((length data <? copied_floats db)%nat = false) as -> by (apply Nat.ltb_ge; lia).
    destruct id as [s|]; [|by eexists _, _, _].
    destruct (strlen_c_string s (Hid s eq_refl)) as (-> & _).
    destruct (malloc_succeeds (wrap64 (Z.of_nat (length (c_string s)) + 1)) w2 Hs2)
      as (w3 & Hm3 & _).
    rewrite (bind_run _ _ _ _ _ Hm3). simpl. by eexists _, _, _. }
  destruct (vdb_add_vector_Ret db data id md w e odb' w' Hinv Hrun)
    as (db' & -> & _ & _ & _ & _ & _ & _ & _ & Hok & _).
  destruct (Hok Hs) as [_ ->]. by exists db', w'.
Qed.

(** A buffer of at least [dimensions] floats is an object, so its size in
    bytes is a [size_t]: then [dimensions] floats are copied. *)
Lemma copied_floats_object db (data : list c_float) :
  0 <= dimensions db <= Z.of_nat (length data) →
  Z.of_nat (length data) * sizeof_float < 2 ^ 64 →
  copied_floats db = Z.to_nat (dimensions db).
Proof.
  intros Hd Hobj. unfold copied_floats, wrap64, sizeof_float in *.
  rewrite Z.mod_small by lia. by rewrite Z.div_mul.
Qed.

Lemma vdb_add_vector_new_record db data id md w db' w' :
  cap_inv db → (∀ s, id = Some s → Z.of_nat (length s) < 2 ^ 64) →
  vdb_add_vector (Some db) (Some data) id md w = Ret (VDB_OK, Some db') w' →
  (copied_floats db <= length data)%nat ∧
  count db' = count db + 1 ∧
  record_at db' (count db)
    = Some (Vector (take (copied_floats db) data)
                   ((λ s, c_string s ++ [NUL]) <$> id) md).
Proof.
  intros Hinv Hid Hrun.
  destruct (vdb_add_vector_Ret db data id md w VDB_OK (Some db') w' Hinv Hrun)
    as (db2 & [= <-] & _ & _ & _ & _ & _ & _ & _ & _ & _ & Hc & _ & Hlen & Hs & Hnew & _).
  assert (id_copy id = (λ s, c_string s ++ [NUL]) <$> id) as Hcopy.
  { destruct id as [s|]; [|done]. simpl. apply id_copy_c_string. split.
    - destruct (Hs s eq_refl) as [len Hlen']. by eapply strlen_Some.
    - by apply Hid. }
  rewrite Hcopy in Hnew. by split_all.
Qed.

(** A buffer that holds fewer floats than the call copies is read past its
    end (when the call gets as far as the copy). *)
Lemma vdb_add_vector_short db data id md w :
  cap_inv db → can_grow db → allocs_succeed w →
  (length data < copied_floats db)%nat →
  vdb_add_vector (Some db) (Some data) id md w = Fault.
Proof.
  intros Hinv Hgrow Hs Hshort. unfold vdb_add_vector.
  destruct (grow_succeeds db w Hinv Hgrow Hs) as (db1 & w1 & Hg & Hs1 & Hinv1 & Hc1 & Hlt).
  rewrite (bind_run _ _ _ _ _ Hg).
  destruct Hinv1 as (? & Hlen & ? & Hnull). unfold slots_of in Hlen.
  destruct (vectors db1) as [slots|]; [|specialize (Hnull eq_refl); lia].
  simpl in Hlen.
  assert ((Z.of_nat (length slots) <=? count db1) = false) as -> by (apply Z.leb_gt; lia).
  destruct (malloc_succeeds (wrap64 (dimensions db1 * sizeof_float)) w1 Hs1)
    as (w2 & Hm & _ & _ & _ & _ & Hs2).
  rewrite (bind_run _ _ _ _ _ Hm). simpl.
  assert (dimensions db1 = dimensions db) as Hd.
  { pose proof (grow_Ret db w _ w1 Hinv Hg) as (_ & _ & _ & _ & Hgr). by destruct_and? Hgr. }
  rewrite Hd. fold (copied_floats db).
  by assert ((length data <? copied_floats db)%nat = true) as -> by (apply Nat.ltb_lt; lia).
Qed.

(** C8: a successful insert appends a copy: the new record sits at index
    [count] and holds the floats copied from the caller's buffer (the first
    [dimensions] of them, hence the whole vector when the buffer holds
    exactly [dimensions] floats), a copy of the caller's string (NULL when
    none is given) and the attachment pointer as given; the copies are in
    blocks allocated by the call; [count] grows by one; the records already
    stored keep their index and contents. *)
Theorem vdb_add_vector_appends (db : vdb_database) (data : list c_float)
    (id : option (list byte)) (md : void_ptr) (w : world) (db' : vdb_database) (w' : world) :
  cap_inv db → (∀ s, id = Some s → Z.of_nat (length s) < 2 ^ 64) →
  vdb_add_vector (Some db) (Some data) id md w = Ret (VDB_OK, Some db') w' →
  count db' = count db + 1 ∧
  record_at db' (count db)
    = Some (Vector (take (copied_floats db) data)
                   ((λ s, c_string s ++ [NUL]) <$> id) md) ∧
  (copied_floats db <= length data)%nat ∧
  (0 <= dimensions db <= Z.of_nat (length data) →
   Z.of_nat (length data) * sizeof_float < 2 ^ 64 →
   copied_floats db = Z.to_nat (dimensions db) ∧
   (Z.of_nat (length data) = dimensions db → take (copied_floats db) data = data)) ∧
  (∀ i, 0 <= i < count db → record_at db' i = record_at db i) ∧
  dimensions db' = dimensions db ∧ metric db' = metric db ∧
  live_blocks w'
    = (live_blocks w + 1 + (if is_held id then 1 else 0) + new_array db db')%nat.
Proof.
  intros Hinv Hid Hrun.
  destruct (vdb_add_vector_new_record db data id md w db' w' Hinv Hid Hrun)
    as (Hlen & Hc & Hnew).
  destruct (vdb_add_vector_Ret db data id md w VDB_OK (Some db') w' Hinv Hrun)
    as (db2 & [= <-] & _ & Hd & Hm & _ & _ & _ & Hrec & _ & _ & _ & _ & _ & _ & _ & Hl).
  split_all; try done.
  intros Hdims Hobj. pose proof (copied_floats_object db data Hdims Hobj) as Hn.
  split; [done|]. intros Heq. apply take_ge. lia.
Qed.

Lemma cap_inv_empty d m : cap_inv (Database None 0 0 d m).
Proof. unfold cap_inv, slots_of, sizeof_vdb_vector. simpl. split_all; done. Qed.

Lemma allocs_succeed_nil l o d r : allocs_succeed (World l o [] d r).
Proof. apply not_elem_of_nil. Qed.

Lemma cap_inv_db_abc : cap_inv db_abc.
Proof. unfold cap_inv, slots_of, sizeof_vdb_vector. simpl. split_all; first [done|lia]. Qed.

Lemma vdb_add_vector_appends_witness :
  vdb_add_vector (Some db_abc) (Some (floats [0; 0; 1])) (Some (c_str "d")) 77 world_abc
    = Ret (VDB_OK, Some db_abcd) world_abcd ∧
  count db_abcd = count db_abc + 1 ∧
  record_at db_abcd (count db_abc)
    = Some (Vector (take (copied_floats db_abc) (floats [0; 0; 1]))
                   ((λ s, c_string s ++ [NUL]) <$> Some (c_str "d")) 77) ∧
  (copied_floats db_abc <= length (floats [0; 0; 1]%Z))%nat ∧
  (0 <= dimensions db_abc <= Z.of_nat (length (floats [0; 0; 1])) →
   Z.of_nat (length (floats [0; 0; 1])) * sizeof_float < 2 ^ 64 →
   copied_floats db_abc = Z.to_nat (dimensions db_abc) ∧
   (Z.of_nat (length (floats [0; 0; 1])) = dimensions db_abc →
    take (copied_floats db_abc) (floats [0; 0; 1]) = floats [0; 0; 1])) ∧
  (∀ i, 0 <= i < count db_abc → record_at db_abcd i = record_at db_abc i) ∧
  dimensions db_abcd = dimensions db_abc ∧ metric db_abcd = metric db_abc ∧
  live_blocks world_abcd
    = (live_blocks world_abc + 1 + (if is_held (Some (c_str "d")) then 1 else 0)
       + new_array db_abc db_abcd)%nat.
Proof.
  assert (vdb_add_vector (Some db_abc) (Some (floats [0; 0; 1])) (Some (c_str "d")) 77
            world_abc
          = Ret (VDB_OK, Some db_abcd) world_abcd) as E
    by (vm_compute; reflexivity).
  split; [exact E|].
  apply (vdb_add_vector_appends db_abc (floats [0; 0; 1]) (Some (c_str "d")) 77
           world_abc db_abcd world_abcd).
  - apply cap_inv_db_abc.
  - intros s [= <-]. simpl. lia.
  - exact E.
Defined.

(** C4, refuted as stated: a buffer of three floats is accepted by a
    database of dimension 2; the call returns [VDB_OK] and [count] becomes 1. *)
Lemma vdb_add_vector_accepts_other_length :
  Z.of_nat (length (floats [1; 2; 3])) ≠ dimensions empty_db2 ∧
  vdb_add_vector (Some empty_db2) (Some (floats [1; 2; 3])) None NULL empty_world
    = Ret (VDB_OK, Some db_12) (World 2 0 [] (λ _, None) (λ _, false)) ∧
  count db_12 = count empty_db2 + 1.
Proof. split_all; [done|vm_compute; reflexivity|done]. Qed.

(** C4, amended: [vdb_add_vector] receives a bare pointer and makes no
    check of length.  It never returns [VDB_ERROR_INVALID_DIMENSIONS], and
    when it fails (NULL argument or allocation failure) [count] is
    unchanged.  It copies [n = (dimensions * sizeof(float) mod 2^64) /
    sizeof(float)] floats, which is [dimensions] when [dimensions *
    sizeof(float)] fits a [size_t].  On a database whose array is as
    [cap_inv] says and can take one more slot ([can_grow]), when the
    allocations succeed: from a buffer of [n] floats or more, and an
    identifier that is a C string if there is one, the call returns
    [VDB_OK], stores the first [n] floats and increases [count] by one; a
    buffer of fewer than [n] floats is read past its end. *)
Theorem vdb_add_vector_no_dimension_check (db : option vdb_database)
    (data : option (list c_float)) (id : option (list byte)) (md : void_ptr) (w : world) :
  (∀ e odb' w', vdb_add_vector db data id md w = Ret (e, odb') w' →
     e ≠ VDB_ERROR_INVALID_DIMENSIONS ∧ (e ≠ VDB_OK → vdb_count odb' = vdb_count db)) ∧
  (∀ db0 v, db = Some db0 → data = Some v →
     cap_inv db0 → can_grow db0 → allocs_succeed w →
     (dims_fit db0 → copied_floats db0 = Z.to_nat (dimensions db0)) ∧
     ((copied_floats db0 <= length v)%nat → (∀ s, id = Some s → is_c_string s) →
      ∃ db' w', vdb_add_vector db data id md w = Ret (VDB_OK, Some db') w' ∧
                count db' = count db0 + 1 ∧
                record_at db' (count db0)
                  = Some (Vector (take (copied_floats db0) v)
                                 ((λ s, c_string s ++ [NUL]) <$> id) md)) ∧
     ((length v < copied_floats db0)%nat → vdb_add_vector db data id md w = Fault)).
Proof.
  split.
  - intros e odb' w' Hrun. apply vdb_add_vector_codes in Hrun as [Hcodes Hcount].
    split; [|done]. by destruct Hcodes as [->|[->| ->]].
  - intros db0 v -> -> Hinv Hgrow Hs. split_all.
    + apply copied_floats_fit.
    + intros Hlen Hid.
      destruct (vdb_add_vector_succeeds db0 v id md w Hinv Hgrow Hs Hlen) as (db' & w' & Hrun).
      { intros s Hs'. by destruct (Hid s Hs'). }
      exists db', w'. split; [done|].
      destruct (vdb_add_vector_new_record db0 v id md w db' w' Hinv) as (_ & ? & ?);
        [|done..].
      intros s Hs'. by destruct (Hid s Hs').
    + intros Hshort. by apply vdb_add_vector_short.
Qed.

Lemma vdb_add_vector_no_dimension_check_witness :
  ((∀ e odb' w',
      vdb_add_vector (Some empty_db2) (Some (floats [1; 2; 3])) None NULL empty_world
        = Ret (e, odb') w' →
      e ≠ VDB_ERROR_INVALID_DIMENSIONS ∧
      (e ≠ VDB_OK → vdb_count odb' = vdb_count (Some empty_db2))) ∧
   copied_floats empty_db2 = Z.to_nat (dimensions empty_db2) ∧
   ∃ db' w',
     vdb_add_vector (Some empty_db2) (Some (floats [1; 2; 3])) None NULL empty_world
       = Ret (VDB_OK, Some db') w' ∧
     count db' = count empty_db2 + 1 ∧
     record_at db' (count empty_db2)
       = Some (Vector (take (copied_floats empty_db2) (floats [1; 2; 3]))
                      ((λ s, c_string s ++ [NUL]) <$> None) NULL)) ∧
  vdb_add_vector (Some empty_db3) (Some (floats [1; 2])) None NULL empty_world = Fault ∧
  ∃ db' w',
    vdb_add_vector (Some empty_db_overflow) (Some (floats [1; 2; 3])) None NULL empty_world
      = Ret (VDB_OK, Some db') w' ∧
    count db' = count empty_db_overflow + 1 ∧
    record_at db' (count empty_db_overflow)
      = Some (Vector (take (copied_floats empty_db_overflow) (floats [1; 2; 3]))
                     ((λ s, c_string s ++ [NUL]) <$> None) NULL).
Proof.
  split; [|split].
  - pose proof (vdb_add_vector_no_dimension_check (Some empty_db2) (Some (floats [1; 2; 3]))
                  None NULL empty_world) as [Hcodes Hcopy].
    split; [exact Hcodes|].
    destruct (Hcopy empty_db2 (floats [1; 2; 3]) eq_refl eq_refl) as (Hn & Hlong & _).
    + apply cap_inv_empty.
    + right. unfold sizeof_vdb_vector. simpl. lia.
    + apply allocs_succeed_nil.
    + split.
      * apply Hn. unfold dims_fit, sizeof_float. simpl. lia.
      * apply Hlong; [vm_compute; lia|]. intros s [=].
  - apply (proj2 (vdb_add_vector_no_dimension_check (Some empty_db3) (Some (floats [1; 2]))
                    None NULL empty_world) empty_db3 (floats [1; 2]) eq_refl eq_refl).
    + apply cap_inv_empty.
    + right. unfold sizeof_vdb_vector. simpl. lia.
    + apply allocs_succeed_nil.
    + vm_compute. lia.
  - apply (proj2 (vdb_add_vector_no_dimension_check (Some empty_db_overflow)
                    (Some (floats [1; 2; 3])) None NULL empty_world)
             empty_db_overflow (floats [1; 2; 3]) eq_refl eq_refl).
    + apply cap_inv_empty.
    + right. unfold sizeof_vdb_vector. simpl. lia.
    + apply allocs_succeed_nil.
    + vm_compute. lia.
    + intros s [=].
Defined.

Lemma live_inv_3 slots cap d m v0 v1 v2 rest :
  slots = Some v0 :: Some v1 :: Some v2 :: rest →
  live_inv (Database (Some slots) 3 cap d m).
Proof.
  intros -> i Hi. simpl in Hi.
  assert (i = 0 ∨ i = 1 ∨ i = 2) as [->|[->| ->]] by lia; by eexists.
Qed.

Lemma vdb_remove_vector_spec_witness :
  (∃ db' w',
     vdb_remove_vector (Some db_abc) 0 world_abc = Ret (VDB_OK, Some db') w' ∧
     count db' = count db_abc - 1 ∧
     (∀ j, 0 <= j < 0 → record_at db' j = record_at db_abc j) ∧
     (∀ j, 0 <= j < count db_abc - 1 →
        record_at db' j = record_at db_abc (j + 1) ∧
        vdb_get_vector (Some db') j w' = Ret (VDB_OK, record_at db_abc (j + 1)) w')) ∧
  vdb_remove_vector (Some db_abc) 5 world_abc
    = Ret (VDB_ERROR_INVALID_INDEX, Some db_abc) world_abc.
Proof.
  assert (owned_blocks db_abc <= live_blocks world_abc)%nat as Hown
    by (vm_compute; reflexivity).
  split.
  - apply (proj1 (vdb_remove_vector_spec db_abc 0 world_abc cap_inv_db_abc
                    (live_inv_3 _ 16 3 VDB_METRIC_COSINE _ _ _ _ eq_refl) Hown
                    ltac:(lia))).
    simpl. lia.
  - apply (proj2 (vdb_remove_vector_spec db_abc 5 world_abc cap_inv_db_abc
                    (live_inv_3 _ 16 3 VDB_METRIC_COSINE _ _ _ _ eq_refl) Hown
                    ltac:(lia))).
    simpl. lia.
Defined.

(** * Search (claims C1 and C6) *)

Lemma all_Some_omap {A} (l : list (option A)) :
  Forall is_Some l → l = Some <$> omap (λ s, s) l.
Proof. induction 1 as [|x l [a ->] _ IH]; simpl; [done|]. by f_equal. Qed.

Lemma live_slots_records db :
  cap_inv db → live_inv db → live_slots db = Some <$> records db.
Proof.
  intros Hinv Hlive. apply all_Some_omap. apply Forall_lookup. intros i x Hx.
  unfold live_slots in Hx. apply lookup_take_Some in Hx as [Hx Hi].
  destruct (Hlive (Z.of_nat i)) as [v Hv]; [lia|].
  apply record_at_Some in Hv as [_ Hv]. rewrite Nat2Z.id in Hv. by simplify_eq.
Qed.

Lemma length_records db :
  cap_inv db → live_inv db → length (records db) = Z.to_nat (count db).
Proof.
  intros Hinv Hlive.
  assert (length (live_slots db) = Z.to_nat (count db)) as <-.
  { unfold live_slots. rewrite length_take. destruct Hinv as (? & ? & _). lia. }
  by rewrite (live_slots_records db Hinv Hlive), length_fmap.
Qed.

Lemma lookup_records db i v :
  cap_inv db → live_inv db →
  records db !! i = Some v ↔ (i < Z.to_nat (count db))%nat ∧ record_at db (Z.of_nat i) = Some v.
Proof.
  intros Hinv Hlive.
  assert (records db !! i = Some v ↔ live_slots db !! i = Some (Some v)) as ->.
  { rewrite (live_slots_records db Hinv Hlive), list_lookup_fmap.
    destruct (records db !! i); simpl; naive_solver. }
  unfold live_slots. rewrite lookup_take_Some, record_at_Some, Nat2Z.id. naive_solver lia.
Qed.

Lemma lookup_candidates db query i :
  candidates db query !! i = score db query i <$> records db !! i.
Proof. apply list_lookup_imap. Qed.

Lemma length_candidates db query : length (candidates db query) = length (records db).
Proof. apply length_imap. Qed.

Lemma score_record_run db query i v arr w :
  record_at db (Z.of_nat i) = Some v → (i < length arr)%nat →
  dimensions db <= Z.of_nat (length query) →
  dimensions db <= Z.of_nat (length (data v)) →
  score_record db query i arr w = Ret (<[i := Some (score db query i v)]> arr) w.
Proof.
  intros Hv Hi Hq Hd. unfold score_record.
  assert ((length arr <=? i)%nat = false) as -> by (apply Nat.leb_gt; lia).
  rewrite (bind_run _ _ _ _ _ (read_slot_live db _ v w Hv)).
  assert ((Z.of_nat (length query) <? dimensions db) = false) as -> by (apply Z.ltb_ge; lia).
  assert ((Z.of_nat (length (data v)) <? dimensions db) = false) as ->
    by (apply Z.ltb_ge; lia).
  by rewrite andb_false_r.
Qed.

(** The scoring loop fills the slots [lo .. lo + n - 1] with the candidates
    of these indices. *)
Lemma search_loop db query w n :
  cap_inv db → live_inv db → data_inv db →
  dimensions db <= Z.of_nat (length query) →
  ∀ lo arr, (lo + n = Z.to_nat (count db))%nat → (lo + n <= length arr)%nat →
    for_rangeM lo n (score_record db query) arr w
    = Ret (take lo arr ++ (Some <$> take n (drop lo (candidates db query)))
             ++ drop (lo + n) arr) w.
Proof.
  intros Hinv Hlive Hdata Hq. induction n as [|n IH]; intros lo arr Hn Harr; simpl.
  - unfold ret. by rewrite Nat.add_0_r, take_drop.
  - destruct (Hlive (Z.of_nat lo)) as [v Hv]; [lia|].
    assert (records db !! lo = Some v) as Hrec by (apply lookup_records; [done..|split; [lia|done]]).
    assert (candidates db query !! lo = Some (score db query lo v)) as Hcand
      by (by rewrite lookup_candidates, Hrec).
    assert (0 <= Z.of_nat lo < count db) as Hlo by lia.
    assert (lo < length arr)%nat as Hlt by lia.
    rewrite (bind_run _ _ _ _ _ (score_record_run db query lo v arr w Hv Hlt Hq
                                   (Hdata _ v Hlo Hv))).
    rewrite IH by (rewrite ?length_insert; lia).
    f_equal. rewrite (drop_S _ _ _ Hcand). simpl.
    rewrite (take_S_r _ _ (Some (score db query lo v)))
      by (apply list_lookup_insert_eq; lia).
    rewrite take_insert_ge by lia.
    rewrite drop_insert_lt by lia.
    rewrite <- (assoc_L (++)). simpl.
    by replace (lo + S n)%nat with (S (lo + n)) by lia.
Qed.

Lemma search_degenerate qsort db query k w :
  (k = 0 → vdb_search qsort db query k w = Ret None w) ∧
  (∀ db0, db = Some db0 → count db0 = 0 → vdb_search qsort db query k w = Ret None w).
Proof.
  split.
  - intros ->. unfold vdb_search. by destruct db, query.
  - intros db0 -> Hc. unfold vdb_search. destruct query; [|done].
    destruct (k =? 0); [done|]. by rewrite Hc.
Qed.

(** ** The order of binary32 values *)

Lemma SFcompare_flip x y : SFcompare y x = CompOpp <$> SFcompare x y.
Proof.
  destruct x as [[]|[]| |[] mx ex], y as [[]|[]| |[] my ey]; simpl; try done;
    change (PosDef.Pos.compare_cont Eq) with Pos.compare;
    rewrite (Z.compare_antisym ex ey), (Pos.compare_antisym mx my);
    by destruct (ex ?= ey), (mx ?= my)%positive.
Qed.

Lemma SFcompare_is_Some x y :
  x ≠ S754_nan → y ≠ S754_nan → is_Some (SFcompare x y).
Proof. destruct x as [[]|[]| |[] mx ex], y as [[]|[]| |[] my ey]; simpl; try done; by eexists. Qed.

Lemma SFleb_trans x y z : SFleb x y = true → SFleb y z = true → SFleb x z = true.
Proof.
  unfold SFleb.
  destruct x as [[]|[]| |[] mx ex], y as [[]|[]| |[] my ey], z as [[]|[]| |[] mz ez];
    simpl; try done;
    change (PosDef.Pos.compare_cont Eq) with Pos.compare;
    destruct (Z.compare_spec ex ey), (Z.compare_spec ey ez), (Z.compare_spec ex ez);
    try done; try lia; subst;
    destruct (Pos.compare_spec mx my), (Pos.compare_spec my mz), (Pos.compare_spec mx mz);
    simpl; try done; try lia.
Qed.

Lemma f_le_trans a b c : f_le a b = true → f_le b c = true → f_le a c = true.
Proof. apply SFleb_trans. Qed.

Lemma to_SF_not_nan a : f_is_nan a = false → to_SF a ≠ S754_nan.
Proof. unfold f_is_nan. by destruct (to_SF a). Qed.

Lemma f_lt_asym a b : f_lt a b = true → f_lt b a = false.
Proof.
  unfold f_lt, SFltb. rewrite (SFcompare_flip (to_SF a) (to_SF b)).
  by destruct (SFcompare (to_SF a) (to_SF b)) as [[]|].
Qed.

Lemma f_lt_le a b : f_lt a b = true → f_le a b = true.
Proof. unfold f_lt, f_le, SFltb, SFleb. by destruct (SFcompare _ _) as [[]|]. Qed.

Lemma f_le_not_gt a b : f_le a b = true → f_lt b a = false.
Proof.
  unfold f_lt, f_le, SFltb, SFleb. rewrite (SFcompare_flip (to_SF a) (to_SF b)).
  by destruct (SFcompare (to_SF a) (to_SF b)) as [[]|].
Qed.

Lemma f_not_gt_le a b :
  f_is_nan a = false → f_is_nan b = false → f_lt b a = false → f_le a b = true.
Proof.
  intros Ha%to_SF_not_nan Hb%to_SF_not_nan. unfold f_lt, f_le, SFltb, SFleb.
  rewrite (SFcompare_flip (to_SF a) (to_SF b)).
  destruct (SFcompare_is_Some _ _ Ha Hb) as [c ->]. by destruct c.
Qed.

Lemma f_le_nan_l a b : f_is_nan a = true → f_le a b = false.
Proof. unfold f_is_nan, f_le, SFleb. by destruct (to_SF a). Qed.

Lemma f_le_nan_r a b : f_is_nan b = true → f_le a b = false.
Proof.
  unfold f_is_nan, f_le, SFleb. destruct (to_SF b); try done. by destruct (to_SF a).
Qed.

(** On entries whose distances are not NaN, [vdb_result_compare] is the
    order of the distances. *)
Lemma vdb_result_compare_le x y :
  f_is_nan (distance x) = false → f_is_nan (distance y) = false →
  vdb_result_compare x y <= 0 ↔ f_le (distance x) (distance y) = true.
Proof.
  intros Hx Hy. unfold vdb_result_compare, f_gt.
  destruct (f_lt (distance x) (distance y)) eqn:Hlt.
  - split; [intros _; by apply f_lt_le|lia].
  - destruct (f_lt (distance y) (distance x)) eqn:Hgt.
    + split; [lia|]. intros Hle%f_le_not_gt. congruence.
    + split; [intros _; by apply f_not_gt_le|lia].
Qed.

Lemma vdb_result_compare_consistent (l : list vdb_result) :
  Forall (λ r, f_is_nan (distance r) = false) l → consistent_on vdb_result_compare l.
Proof.
  intros Hl. rewrite Forall_forall in Hl. split.
  - intros x y _ _. unfold vdb_result_compare, f_gt.
    destruct (f_lt (distance x) (distance y)) eqn:Hxy,
             (f_lt (distance y) (distance x)) eqn:Hyx; try (split; [split|]; lia).
    apply f_lt_asym in Hxy. congruence.
  - intros x y z Hx Hy Hz.
    rewrite !vdb_result_compare_le by auto. apply f_le_trans.
Qed.

Section SearchCorrect.

Variable qsort : ∀ A : Type, (A → A → Z) → list A → list A.

(** The contract of [qsort].  Whatever the comparison function, the
    array is rearranged, not changed; when the comparison function is
    consistent on the elements, the array comes out in its order. *)
Hypothesis qsort_permutes :
  ∀ A (cmp : A → A → Z) (l : list A), qsort A cmp l ≡ₚ l.
Hypothesis qsort_sorts :
  ∀ A (cmp : A → A → Z) (l : list A), consistent_on cmp l → ordered_by cmp (qsort A cmp l).

(** The run of [vdb_search] on a non-empty database with [k > 0], when
    the allocations succeed: the first [min k count] candidates in the order
    [qsort] gives them. *)
Lemma vdb_search_run db query k w :
  cap_inv db → live_inv db → data_inv db →
  dimensions db <= Z.of_nat (length query) →
  count db * sizeof_vdb_result < 2 ^ 64 → allocs_succeed w →
  0 < k → 0 < count db →
  ∃ w',
    vdb_search qsort (Some db) (Some query) k w
    = Ret (Some (ResultSet
                   (Some <$> take (Z.to_nat (Z.min k (count db)))
                                  (qsort _ vdb_result_compare (candidates db query)))
                   (Z.min k (count db)))) w' ∧
    live_blocks w' = (live_blocks w + 2)%nat ∧ open_files w' = open_files w ∧
    disk w' = disk w ∧ allocs_succeed w'.
Proof using qsort_permutes.
  intros Hinv Hlive Hdata Hq Hsize Hs Hk Hc. unfold vdb_search.
  assert ((k =? 0) = false) as -> by (apply Z.eqb_neq; lia).
  assert ((count db =? 0) = false) as -> by (apply Z.eqb_neq; lia).
  assert ((if k >? count db then count db else k) = Z.min k (count db)) as ->.
  { destruct (k >? count db) eqn:E.
    - apply Z.gtb_lt in E. lia.
    - rewrite Z.gtb_ltb in E. apply Z.ltb_ge in E. lia. }
  set (k' := Z.min k (count db)).
  assert (wrap64 (count db * sizeof_vdb_result) / sizeof_vdb_result = count db) as Hn.
  { unfold wrap64. rewrite Z.mod_small by (unfold sizeof_vdb_result in *; lia).
    unfold sizeof_vdb_result. by rewrite Z.div_mul. }
  assert (wrap64 (k' * sizeof_vdb_result) / sizeof_vdb_result = k') as Hn'.
  { unfold wrap64. rewrite Z.mod_small by (unfold sizeof_vdb_result in *; lia).
    unfold sizeof_vdb_result. by rewrite Z.div_mul. }
  destruct (malloc_succeeds (wrap64 (count db * sizeof_vdb_result)) w Hs)
    as (w1 & Hm1 & Hl1 & Ho1 & Hd1 & Hr1 & Hs1).
  rewrite (bind_run _ _ _ _ _ Hm1). simpl. rewrite Hn.
  pose proof (length_records db Hinv Hlive) as Hlen.
  rewrite (bind_run _ _ _ _ _
             (search_loop db query w1 (Z.to_nat (count db)) Hinv Hlive Hdata Hq 0%nat
                (replicate (Z.to_nat (count db)) None) eq_refl
                ltac:(rewrite length_replicate; lia))).
  rewrite take_0, drop_0, app_nil_l.
  rewrite (take_ge (candidates db query)) by (rewrite length_candidates; lia).
  rewrite (drop_ge (replicate _ _)) by (rewrite length_replicate; lia).
  rewrite app_nil_r.
  assert (qsort_array qsort (Some <$> candidates db query) (Z.to_nat (count db))
            vdb_result_compare w1
          = Ret (Some <$> qsort _ vdb_result_compare (candidates db query)) w1) as Hsort.
  { unfold qsort_array. rewrite length_fmap, length_candidates, Hlen.
    rewrite Nat.ltb_irrefl.
    rewrite take_ge by (rewrite length_fmap, length_candidates; lia).
    rewrite mapM_fmap_Some by done.
    rewrite drop_ge by (rewrite length_fmap, length_candidates; lia).
    by rewrite app_nil_r. }
  rewrite (bind_run _ _ _ _ _ Hsort).
  destruct (malloc_succeeds 16 w1 Hs1) as (w2 & Hm2 & Hl2 & Ho2 & Hd2 & Hr2 & Hs2).
  rewrite (bind_run _ _ _ _ _ Hm2). simpl.
  destruct (malloc_succeeds (wrap64 (k' * sizeof_vdb_result)) w2 Hs2)
    as (w3 & Hm3 & Hl3 & Ho3 & Hd3 & Hr3 & Hs3).
  rewrite (bind_run _ _ _ _ _ Hm3). simpl. rewrite Hn'.
  assert (length (qsort _ vdb_result_compare (candidates db query)) = Z.to_nat (count db))
    as Hlen'.
  { by rewrite (Permutation_length (qsort_permutes _ _ _)), length_candidates. }
  assert ((length (Some <$> qsort _ vdb_result_compare (candidates db query))
           <? Z.to_nat k')%nat = false) as ->
    by (apply Nat.ltb_ge; rewrite length_fmap, Hlen'; lia).
  destruct (free_succeeds w3 (S (S (live_blocks w)))) as (w4 & Hf & Hl4 & Ho4 & Hd4 & Hr4 & Hp4);
    [lia|].
  rewrite (bind_run _ _ _ _ _ Hf).
  exists w4. rewrite <- fmap_take. split_all; try done; try congruence; try lia.
Qed.

Lemma entries_written l k : entries (ResultSet (Some <$> l) k) = l.
Proof. unfold entries. simpl. induction l; simpl; [done|]. by f_equal. Qed.

Lemma distance_candidates db query :
  distance <$> candidates db query = all_distances db query.
Proof.
  unfold candidates, all_distances. apply list_eq. intros i.
  rewrite !list_lookup_fmap, list_lookup_imap. by destruct (records db !! i).
Qed.

(** C6: [vdb_search] returns NULL on an empty database and for [k = 0]
    (without allocating); on a non-empty database, with [k] greater than
    [count] and allocations that succeed, the result set holds exactly
    [count] entries. *)
Theorem vdb_search_degenerate (db : vdb_database) (query : list c_float) (k : Z)
    (w : world) :
  (count db = 0 → vdb_search qsort (Some db) (Some query) k w = Ret None w) ∧
  vdb_search qsort (Some db) (Some query) 0 w = Ret None w ∧
  (cap_inv db → live_inv db → data_inv db →
   dimensions db <= Z.of_nat (length query) →
   count db * sizeof_vdb_result < 2 ^ 64 → allocs_succeed w →
   0 < count db → count db < k →
   ∃ rs w', vdb_search qsort (Some db) (Some query) k w = Ret (Some rs) w' ∧
            result_count rs = count db ∧
            results rs = Some <$> entries rs ∧
            Z.of_nat (length (entries rs)) = count db).
Proof.
  split_all.
  - intros Hc. by apply (proj2 (search_degenerate qsort (Some db) (Some query) k w) db).
  - by apply (proj1 (search_degenerate qsort (Some db) (Some query) 0 w)).
  - intros Hinv Hlive Hdata Hq Hsize Hs Hc Hk.
    destruct (vdb_search_run db query k w Hinv Hlive Hdata Hq Hsize Hs ltac:(lia) Hc)
      as (w' & Hrun & _).
    rewrite Z.min_r in Hrun by lia.
    eexists _, w'. split; [exact Hrun|]. rewrite entries_written. simpl.
    split_all; [done..|].
    rewrite length_take, (Permutation_length (qsort_permutes _ _ _)).
    rewrite length_candidates, (length_records db Hinv Hlive). lia.
Qed.

(** C1, amended: when no distance from the query to a stored vector is NaN
    (and the allocations succeed), [vdb_search] with [k >= 1] on a non-empty
    database returns [min k count] entries, each the score of the record at
    its index; their distances are non-decreasing, and they are the smallest
    of all the distances: together with the distances left out they are a
    rearrangement of the brute-force list, and none exceeds one left out. *)
Theorem vdb_search_correct (db : vdb_database) (query : list c_float) (k : Z)
    (w : world) :
  cap_inv db → live_inv db → data_inv db →
  dimensions db <= Z.of_nat (length query) →
  count db * sizeof_vdb_result < 2 ^ 64 → allocs_succeed w →
  0 < k → 0 < count db →
  Forall (λ d, f_is_nan d = false) (all_distances db query) →
  ∃ rs w',
    vdb_search qsort (Some db) (Some query) k w = Ret (Some rs) w' ∧
    results rs = Some <$> entries rs ∧
    result_count rs = Z.min k (count db) ∧
    Z.of_nat (length (entries rs)) = Z.min k (count db) ∧
    (∀ r, r ∈ entries rs →
       ∃ v, record_at db (index r) = Some v ∧ 0 <= index r < count db ∧
            r = score db query (Z.to_nat (index r)) v) ∧
    nondecreasing (distance <$> entries rs) ∧
    ∃ rest, (distance <$> entries rs) ++ rest ≡ₚ all_distances db query ∧
            ∀ d d', d ∈ distance <$> entries rs → d' ∈ rest → f_le d d' = true.
Proof.
  intros Hinv Hlive Hdata Hq Hsize Hs Hk Hc Hnan.
  destruct (vdb_search_run db query k w Hinv Hlive Hdata Hq Hsize Hs Hk Hc)
    as (w' & Hrun & _).
  set (sorted := qsort _ vdb_result_compare (candidates db query)) in *.
  set (k' := Z.to_nat (Z.min k (count db))) in *.
  assert (sorted ≡ₚ candidates db query) as Hperm by apply qsort_permutes.
  assert (Forall (λ r, f_is_nan (distance r) = false) (candidates db query)) as Hnan'.
  { rewrite <- distance_candidates in Hnan. by apply Forall_fmap in Hnan. }
  assert (Forall (λ r, f_is_nan (distance r) = false) sorted) as Hnans
    by (by rewrite Hperm).
  assert (ordered_by vdb_result_compare sorted) as Hord
    by (apply qsort_sorts; by apply vdb_result_compare_consistent).
  assert (length sorted = Z.to_nat (count db)) as Hlen.
  { by rewrite Hperm, length_candidates, (length_records db Hinv Hlive). }
  assert (∀ i j x y, (i < j)%nat → sorted !! i = Some x → sorted !! j = Some y →
            f_le (distance x) (distance y) = true) as Hle.
  { intros i j x y Hij Hx Hy. apply vdb_result_compare_le.
    - rewrite Forall_lookup in Hnans. by eapply Hnans.
    - rewrite Forall_lookup in Hnans. by eapply Hnans.
    - by eapply Hord. }
  eexists _, w'. split; [exact Hrun|]. rewrite entries_written. simpl.
  split_all; try done.
  - rewrite length_take. lia.
  - intros r Hr. apply elem_of_take in Hr as (i & Hr & _).
    assert (r ∈ candidates db query) as Hin.
    { rewrite <- Hperm. by eapply list_elem_of_lookup_2. }
    apply elem_of_lookup_imap in Hin as (j & v & -> & Hj).
    apply lookup_records in Hj as [Hj Hv]; [|done..].
    exists v. simpl. rewrite Nat2Z.id. split_all; try done; lia.
  - intros i x y Hx Hy. rewrite list_lookup_fmap in Hx, Hy.
    destruct (take k' sorted !! i) as [rx|] eqn:Ex; [|done].
    destruct (take k' sorted !! S i) as [ry|] eqn:Ey; [|done].
    simpl in Hx, Hy. simplify_eq.
    apply lookup_take_Some in Ex as [Ex _]. apply lookup_take_Some in Ey as [Ey _].
    by apply (Hle i (S i)); [lia|..].
  - exists (distance <$> drop k' sorted). split.
    + rewrite <- fmap_app, take_drop, <- distance_candidates. by rewrite Hperm.
    + intros d d' Hd Hd'.
      apply list_elem_of_fmap in Hd as (rx & -> & Hrx).
      apply list_elem_of_fmap in Hd' as (ry & -> & Hry).
      apply list_elem_of_lookup in Hrx as (i & Hi).
      apply list_elem_of_lookup in Hry as (j & Hj).
      apply lookup_take_Some in Hi as [Hi Hik]. rewrite lookup_drop in Hj.
      apply (Hle i (k' + j)%nat); [lia|done..].
Qed.

End SearchCorrect.

(** ** Sorting by insertion meets the contract of [qsort] *)

Lemma insert_by_perm {A} (cmp : A → A → Z) x l : insert_by cmp x l ≡ₚ x :: l.
Proof.
  induction l as [|y l IH]; simpl; [done|].
  destruct (cmp x y <=? 0); [done|]. rewrite IH. apply Permutation_swap.
Qed.

Lemma insertion_qsort_permutes A (cmp : A → A → Z) (l : list A) :
  insertion_qsort A cmp l ≡ₚ l.
Proof.
  unfold insertion_qsort. induction l as [|x l IH]; simpl; [done|].
  by rewrite insert_by_perm, IH.
Qed.

Lemma ordered_by_cons {A} (cmp : A → A → Z) x l :
  ordered_by cmp (x :: l) ↔ Forall (λ y, cmp x y <= 0) l ∧ ordered_by cmp l.
Proof.
  split.
  - intros Hord. split.
    + apply Forall_lookup. intros i y Hy. by apply (Hord 0%nat (S i) x y); [lia|..].
    + intros i j a b Hij Ha Hb. by apply (Hord (S i) (S j) a b); [lia|..].
  - intros [Hall Hord] i j a b Hij Ha Hb. destruct j as [|j]; [lia|].
    destruct i as [|i]; simpl in *.
    + simplify_eq. rewrite Forall_lookup in Hall. by eapply Hall.
    + by apply (Hord i j a b); [lia|..].
Qed.

Lemma insert_by_ordered {A} (cmp : A → A → Z) (L : list A) x l :
  consistent_on cmp L → x ∈ L → l ⊆ L →
  ordered_by cmp l → ordered_by cmp (insert_by cmp x l).
Proof.
  intros [Hsign Htrans] Hx. induction l as [|y l IH]; intros Hl Hord; simpl.
  - apply ordered_by_cons. split; [constructor|]. by intros i j a b _ [=].
  - assert (y ∈ L) as Hy by (apply Hl; by left).
    assert (l ⊆ L) as Hl' by (intros z Hz; apply Hl; by right).
    apply ordered_by_cons in Hord as [Hall Hord].
    destruct (cmp x y <=? 0) eqn:E.
    + apply Z.leb_le in E. apply ordered_by_cons. split.
      * constructor; [done|]. rewrite Forall_forall in Hall |- *.
        intros z Hz. apply (Htrans x y z); auto.
      * by apply ordered_by_cons.
    + apply Z.leb_gt in E. apply ordered_by_cons. split.
      * rewrite (insert_by_perm cmp x l). constructor; [|done].
        destruct (Hsign y x Hy Hx) as [Hlt _]. lia.
      * by apply IH.
Qed.

Lemma insertion_qsort_sorts A (cmp : A → A → Z) (l : list A) :
  consistent_on cmp l → ordered_by cmp (insertion_qsort A cmp l).
Proof.
  intros Hcons. unfold insertion_qsort.
  assert (∀ l', l' ⊆ l → ordered_by cmp (foldr (insert_by cmp) [] l')) as H.
  { induction l' as [|x l' IH]; intros Hl'; simpl.
    - by intros i j a b _ [=].
    - apply (insert_by_ordered cmp l); [done|apply Hl'; by left| |].
      + intros z Hz. fold (insertion_qsort A cmp l') in Hz.
        rewrite insertion_qsort_permutes in Hz. apply Hl'. by right.
      + apply IH. intros z Hz. apply Hl'. by right. }
  by apply H.
Qed.

(** ** The search claims on the scenario of the specification *)

Lemma live_inv_db_abc : live_inv db_abc.
Proof. by eapply live_inv_3. Qed.

Lemma data_inv_db_abc : data_inv db_abc.
Proof.
  intros i v Hi. simpl in Hi.
  assert (i = 0 ∨ i = 1 ∨ i = 2) as [->|[->| ->]] by lia;
    intros [= <-]; vm_compute; discriminate.
Qed.

Lemma vdb_search_degenerate_witness :
  vdb_search insertion_qsort (Some empty_db3) (Some query_a) 2 empty_world
    = Ret None empty_world ∧
  vdb_search insertion_qsort (Some db_abc) (Some query_a) 0 world_abc = Ret None world_abc ∧
  ∃ rs w', vdb_search insertion_qsort (Some db_abc) (Some query_a) 5 world_abc
             = Ret (Some rs) w' ∧
           result_count rs = count db_abc ∧
           results rs = Some <$> entries rs ∧
           Z.of_nat (length (entries rs)) = count db_abc.
Proof.
  split_all.
  - apply (proj1 (vdb_search_degenerate insertion_qsort insertion_qsort_permutes
                    empty_db3 query_a 2 empty_world)).
    reflexivity.
  - apply (proj1 (proj2 (vdb_search_degenerate insertion_qsort insertion_qsort_permutes
                           db_abc query_a 0 world_abc))).
  - apply (proj2 (proj2 (vdb_search_degenerate insertion_qsort insertion_qsort_permutes
                           db_abc query_a 5 world_abc))).
    + apply cap_inv_db_abc.
    + apply live_inv_db_abc.
    + apply data_inv_db_abc.
    + vm_compute. discriminate.
    + unfold sizeof_vdb_result. simpl. lia.
    + apply allocs_succeed_nil.
    + simpl. lia.
    + simpl. lia.
Defined.

Lemma vdb_search_correct_witness :
  ∃ rs w',
    vdb_search insertion_qsort (Some db_abc) (Some query_a) 2 world_abc = Ret (Some rs) w' ∧
    results rs = Some <$> entries rs ∧
    result_count rs = Z.min 2 (count db_abc) ∧
    Z.of_nat (length (entries rs)) = Z.min 2 (count db_abc) ∧
    (∀ r, r ∈ entries rs →
       ∃ v, record_at db_abc (index r) = Some v ∧ 0 <= index r < count db_abc ∧
            r = score db_abc query_a (Z.to_nat (index r)) v) ∧
    nondecreasing (distance <$> entries rs) ∧
    ∃ rest, (distance <$> entries rs) ++ rest ≡ₚ all_distances db_abc query_a ∧
            ∀ d d', d ∈ distance <$> entries rs → d' ∈ rest → f_le d d' = true.
Proof.
  apply (vdb_search_correct insertion_qsort insertion_qsort_permutes insertion_qsort_sorts
           db_abc query_a 2 world_abc).
  - apply cap_inv_db_abc.
  - apply live_inv_db_abc.
  - apply data_inv_db_abc.
  - vm_compute. discriminate.
  - unfold sizeof_vdb_result. simpl. lia.
  - apply allocs_succeed_nil.
  - lia.
  - simpl. lia.
  - repeat constructor; vm_compute; reflexivity.
Defined.

(** The scenario of the specification: the two nearest neighbours of
    (1,0,0) are "a" at distance 0 and "c" at distance 0x3E95F61A (0.2929). *)
Lemma vdb_search_scenario :
  ∃ w', vdb_search insertion_qsort (Some db_abc) (Some query_a) 2 world_abc
        = Ret (Some (ResultSet
                       [Some (Result 0 f_zero (Some (c_str "a")) NULL);
                        Some (Result 2 (float_of_bits 1050015258) (Some (c_str "c")) NULL)]
                       2)) w'.
Proof. eexists. vm_compute. reflexivity. Qed.

(** C1, refuted as stated: with the vectors (-1), (1e30), (1) and the query
    (1e10), all finite, the cosine distances are 2, NaN and 0.  NaN compares
    neither below nor above a number, so the comparison function is not an
    order and the array stays as it is: the result for [k = 3] is not
    non-decreasing, and the result for [k = 1] is the record at distance 2
    although one is at distance 0. *)
Lemma vdb_search_nan_unsorted :
  float_bits <$> all_distances db_nan query_nan = [2 ^ 30; 255 * 2 ^ 23 + 2 ^ 22; 0] ∧
  (∃ rs w',
     vdb_search insertion_qsort (Some db_nan) (Some query_nan) 3 world_abc
       = Ret (Some rs) w' ∧
     float_bits <$> (distance <$> entries rs) = [2 ^ 30; 255 * 2 ^ 23 + 2 ^ 22; 0] ∧
     ¬ nondecreasing (distance <$> entries rs)) ∧
  (∃ rs w',
     vdb_search insertion_qsort (Some db_nan) (Some query_nan) 1 world_abc
       = Ret (Some rs) w' ∧
     float_bits <$> (distance <$> entries rs) = [2 ^ 30]).
Proof.
  split_all.
  - vm_compute. reflexivity.
  - eexists _, _. split; [vm_compute; reflexivity|]. split; [vm_compute; reflexivity|].
    intros Hn. specialize (Hn 0%nat _ _ eq_refl eq_refl). vm_compute in Hn. discriminate.
  - eexists _, _. split; [vm_compute; reflexivity|]. vm_compute. reflexivity.
Qed.

(** * Persistence (claims C2 and C7) *)

(** ** Object representations *)

Lemma Z_of_byte_of_Z z : Z_of_byte (byte_of_Z z) = z mod 256.
Proof.
  unfold Z_of_byte, byte_of_Z.
  rewrite N_ascii_embedding.
  - rewrite Z2N.id; [done|]. apply Z.mod_pos_bound. lia.
  - assert (0 <= z mod 256 < 256) as H by (apply Z.mod_pos_bound; lia).
    apply N2Z.inj_lt. rewrite Z2N.id; simpl; lia.
Qed.

Lemma Z_of_byte_range b : 0 <= Z_of_byte b < 256.
Proof.
  unfold Z_of_byte. pose proof (N_ascii_bounded b). lia.
Qed.

Lemma byte_of_Z_of_byte b : byte_of_Z (Z_of_byte b) = b.
Proof.
  unfold byte_of_Z. rewrite Z.mod_small by apply Z_of_byte_range.
  unfold Z_of_byte. by rewrite N2Z.id, ascii_N_embedding.
Qed.

Lemma length_encode_le n z : length (encode_le n z) = n.
Proof. revert z. induction n as [|n IH]; intros z; simpl; [done|]. by rewrite IH. Qed.

Lemma decode_encode_le n z :
  0 <= z < 256 ^ Z.of_nat n → decode_le (encode_le n z) = z.
Proof.
  revert z. induction n as [|n IH]; intros z Hz.
  - simpl in *. lia.
  - rewrite Nat2Z.inj_succ, Z.pow_succ_r in Hz by lia.
    simpl. rewrite Z_of_byte_of_Z, IH.
    + pose proof (Z.div_mod z 256). lia.
    + split; [apply Z.div_pos; lia|]. apply Z.div_lt_upper_bound; lia.
Qed.

Lemma decode_le_range bs : 0 <= decode_le bs < 256 ^ Z.of_nat (length bs).
Proof.
  induction bs as [|b bs IH].
  - simpl. lia.
  - cbn [decode_le length]. rewrite Nat2Z.inj_succ, Z.pow_succ_r by lia.
    pose proof (Z_of_byte_range b). lia.
Qed.

Lemma float_of_bytes_float_bytes f rest : float_of_bytes (float_bytes f ++ rest) = f.
Proof. by destruct f. Qed.

Lemma length_floats_to_bytes fs : length (floats_to_bytes fs) = (4 * length fs)%nat.
Proof.
  unfold floats_to_bytes. induction fs as [|f fs IH]; [done|].
  cbn [mbind list_bind]. rewrite length_app, IH. simpl. lia.
Qed.

Lemma floats_of_to_bytes fs rest :
  floats_of_bytes (length fs) (floats_to_bytes fs ++ rest) = fs.
Proof.
  unfold floats_to_bytes. induction fs as [|f fs IH]; [done|].
  destruct f as [b0 b1 b2 b3]. cbn. f_equal. apply IH.
Qed.

(** ** Reading *)

Lemma fread_all cap size nmemb bytes rest w :
  0 < size → 0 <= nmemb → size * nmemb < 2 ^ 64 →
  Z.of_nat (length bytes) = size * nmemb → size * nmemb <= cap →
  fread cap size nmemb (bytes ++ rest) w = Ret (Some bytes, rest) w.
Proof.
  intros Hs Hn Hfit Hlen Hcap. unfold fread, wrap64. rewrite length_app.
  rewrite (Z.mod_small (size * nmemb)) by nia.
  rewrite Z.min_l by lia.
  assert ((cap <? size * nmemb) = false) as -> by (apply Z.ltb_ge; lia).
  rewrite Z.ltb_irrefl.
  assert ((size * nmemb =? 0) && negb (nmemb =? 0) = false) as ->.
  { destruct (nmemb =? 0) eqn:E; [by rewrite andb_false_r|].
    apply Z.eqb_neq in E. rewrite andb_true_r. apply Z.eqb_neq. nia. }
  rewrite <- Hlen, Nat2Z.id.
  by rewrite take_app_length, drop_app_length.
Qed.

Lemma fread_short cap size nmemb stream w :
  size * nmemb < 2 ^ 64 →
  Z.of_nat (length stream) < size * nmemb → Z.of_nat (length stream) <= cap →
  ∃ rest, fread cap size nmemb stream w = Ret (None, rest) w.
Proof.
  intros Hfit Hlen Hcap. unfold fread, wrap64.
  rewrite (Z.mod_small (size * nmemb)) by lia.
  rewrite Z.min_r by lia.
  assert ((cap <? Z.of_nat (length stream)) = false) as -> by (apply Z.ltb_ge; lia).
  assert ((Z.of_nat (length stream) <? size * nmemb) = true) as -> by (apply Z.ltb_lt; lia).
  by eexists.
Qed.

Lemma fread_Ret cap size nmemb stream w r w' :
  fread cap size nmemb stream w = Ret r w' →
  w' = w ∧
  match r with
  | (Some bytes, rest) =>
      stream = bytes ++ rest ∧ Z.of_nat (length bytes) = wrap64 (size * nmemb) ∧
      wrap64 (size * nmemb) <= cap
  | (None, _) => True
  end.
Proof.
  unfold fread. intros H.
  assert (0 <= wrap64 (size * nmemb)) as Hw0 by (apply Z.mod_pos_bound; lia).
  destruct (cap <? Z.min (wrap64 (size * nmemb)) (Z.of_nat (length stream))) eqn:Hcap;
    [done|].
  apply Z.ltb_ge in Hcap.
  destruct (Z.min (wrap64 (size * nmemb)) (Z.of_nat (length stream))
            <? wrap64 (size * nmemb)) eqn:Hshort.
  - inv_ret H. by split.
  - apply Z.ltb_ge in Hshort.
    destruct ((wrap64 (size * nmemb) =? 0) && negb (nmemb =? 0)); inv_ret H; [by split|].
    split; [done|]. rewrite take_drop, length_take. split_all; [done|lia|lia].
Qed.

(** ** Saving *)

Lemma disk_write_eq d filename bytes : disk_write d filename bytes filename = Some bytes.
Proof. unfold disk_write. by rewrite String.eqb_refl. Qed.

Lemma disk_write_ne d filename bytes other :
  other ≠ filename → disk_write d filename bytes other = d other.
Proof. intros Hne. unfold disk_write. by apply String.eqb_neq in Hne as ->. Qed.

Lemma fopen_wb_run filename w :
  read_only w filename = false →
  ∃ w', fopen_wb filename w = Ret true w' ∧ writing filename [] w w'.
Proof.
  intros Hro. unfold fopen_wb. rewrite Hro. eexists. split; [done|].
  unfold writing. simpl. split_all; try done.
  - apply disk_write_eq.
  - intros other Hne. by apply disk_write_ne.
Qed.

Lemma fwrite_run filename bytes content w0 w :
  writing filename content w0 w →
  ∃ w', fwrite filename bytes w = Ret tt w' ∧ writing filename (content ++ bytes) w0 w'.
Proof.
  intros (Hl & Ho & Hp & Hr & Hd & Hother). unfold fwrite. rewrite Hd.
  eexists. split; [done|]. unfold writing. simpl. split_all; try done.
  - apply disk_write_eq.
  - intros other Hne. rewrite disk_write_ne by done. by apply Hother.
Qed.

Lemma fclose_writing filename content w0 w :
  writing filename content w0 w →
  ∃ w', fclose w = Ret tt w' ∧ same_resources w0 w' ∧ alloc_plan w' = alloc_plan w0 ∧
        read_only w' = read_only w0 ∧ disk w' filename = Some content ∧
        ∀ other, other ≠ filename → disk w' other = disk w0 other.
Proof.
  intros (Hl & Ho & Hp & Hr & Hd & Hother). unfold fclose. rewrite Ho.
  eexists. split; [done|]. unfold same_resources. simpl. split_all; done.
Qed.

Lemma save_record_run db filename i v content w0 w :
  record_at db (Z.of_nat i) = Some v →
  dimensions db <= Z.of_nat (length (data v)) →
  (∀ s, id v = Some s → NUL ∈ s) →
  writing filename content w0 w →
  ∃ w', save_record db filename i tt w = Ret tt w' ∧
        writing filename (content ++ record_image (dimensions db) v) w0 w'.
Proof.
  intros Hv Hlen Hid Hw. unfold save_record, record_image, id_image.
  rewrite (bind_run _ _ _ _ _ (read_slot_live db _ v w Hv)).
  assert ((Z.of_nat (length (data v)) <? dimensions db) = false) as ->
    by (apply Z.ltb_ge; lia).
  destruct (fwrite_run filename (floats_to_bytes (take (Z.to_nat (dimensions db)) (data v)))
              content w0 w Hw) as (w1 & Hf1 & Hw1).
  rewrite (bind_run _ _ _ _ _ Hf1).
  destruct (id v) as [s|].
  - destruct (strlen_c_string s (Hid s eq_refl)) as (-> & _).
    set (id_len := wrap32 (Z.of_nat (length (c_string s)))).
    destruct (fwrite_run filename (encode_le 4 id_len) _ w0 w1 Hw1) as (w2 & Hf2 & Hw2).
    rewrite (bind_run _ _ _ _ _ Hf2).
    destruct (id_len >? 0).
    + destruct (fwrite_run filename (take (Z.to_nat id_len) s) _ w0 w2 Hw2)
        as (w3 & Hf3 & Hw3).
      exists w3. split; [done|]. by rewrite !(assoc_L (++)) in *.
    + exists w2. split; [done|]. by rewrite app_nil_r, !(assoc_L (++)) in *.
  - destruct (fwrite_run filename (encode_le 4 0) _ w0 w1 Hw1) as (w2 & Hf2 & Hw2).
    exists w2. split; [done|]. by rewrite !(assoc_L (++)) in *.
Qed.

Lemma save_loop db filename w0 n :
  cap_inv db → live_inv db → data_inv db → id_inv db →
  ∀ lo content w, (lo + n = Z.to_nat (count db))%nat →
    writing filename content w0 w →
    ∃ w', for_rangeM lo n (save_record db filename) tt w = Ret tt w' ∧
          writing filename
            (content ++ (take n (drop lo (records db)) ≫= record_image (dimensions db)))
            w0 w'.
Proof.
  intros Hinv Hlive Hdata Hid. induction n as [|n IH]; intros lo content w Hn Hw; simpl.
  - exists w. split; [done|]. by rewrite app_nil_r.
  - destruct (Hlive (Z.of_nat lo)) as [v Hv]; [lia|].
    assert (records db !! lo = Some v) as Hrec
      by (apply lookup_records; [done..|split; [lia|done]]).
    assert (0 <= Z.of_nat lo < count db) as Hlo by lia.
    destruct (save_record_run db filename lo v content w0 w Hv (Hdata _ v Hlo Hv))
      as (w1 & Hs1 & Hw1); [|done|].
    { intros s Hs. by destruct (Hid _ v s Hlo Hv Hs). }
    rewrite (bind_run _ _ _ _ _ Hs1).
    destruct (IH (S lo) _ w1 ltac:(lia) Hw1) as (w2 & Hs2 & Hw2).
    exists w2. split; [done|].
    rewrite (drop_S _ _ _ Hrec). cbn [take mbind list_bind].
    by rewrite <- (assoc_L (++)) in Hw2.
Qed.

Lemma vdb_save_run db filename w :
  cap_inv db → live_inv db → data_inv db → id_inv db →
  read_only w filename = false →
  ∃ w', vdb_save (Some db) (Some filename) w = Ret VDB_OK w' ∧
        same_resources w w' ∧ alloc_plan w' = alloc_plan w ∧
        read_only w' = read_only w ∧ disk w' filename = Some (file_image db) ∧
        ∀ other, other ≠ filename → disk w' other = disk w other.
Proof.
  intros Hinv Hlive Hdata Hid Hro. unfold vdb_save.
  destruct (fopen_wb_run filename w Hro) as (w1 & Hopen & Hw1).
  rewrite (bind_run _ _ _ _ _ Hopen). simpl.
  destruct (fwrite_run filename (encode_le 4 VDB_MAGIC) _ w w1 Hw1) as (w2 & Hf2 & Hw2).
  rewrite (bind_run _ _ _ _ _ Hf2).
  destruct (fwrite_run filename (encode_le 8 (dimensions db)) _ w w2 Hw2) as (w3 & Hf3 & Hw3).
  rewrite (bind_run _ _ _ _ _ Hf3).
  destruct (fwrite_run filename (encode_le 8 (count db)) _ w w3 Hw3) as (w4 & Hf4 & Hw4).
  rewrite (bind_run _ _ _ _ _ Hf4).
  destruct (fwrite_run filename (encode_le 4 (metric db)) _ w w4 Hw4) as (w5 & Hf5 & Hw5).
  rewrite (bind_run _ _ _ _ _ Hf5).
  destruct (save_loop db filename w (Z.to_nat (count db)) Hinv Hlive Hdata Hid 0%nat _ w5
              eq_refl Hw5) as (w6 & Hl6 & Hw6).
  rewrite (bind_run _ _ _ _ _ Hl6).
  destruct (fclose_writing filename _ w w6 Hw6) as (w7 & Hc7 & Hres & Hp & Hr & Hd & Hother).
  rewrite (bind_run _ _ _ _ _ Hc7).
  exists w7. split; [done|]. split_all; try done.
  rewrite Hd. f_equal. unfold file_image, header_image.
  rewrite drop_0, take_ge by (rewrite (length_records db Hinv Hlive); lia).
  rewrite app_nil_l. by rewrite <- !(assoc_L (++)).
Qed.

(** ** Ownership through insertion and tear-down *)

Lemma sum_list_snoc (l : list nat) x : sum_list (l ++ [x]) = (sum_list l + x)%nat.
Proof. induction l as [|y l IH]; simpl; [lia|]. rewrite IH. lia. Qed.

Lemma sum_record_blocks_ext db db' n :
  (∀ i, 0 <= i < Z.of_nat n → record_at db' i = record_at db i) →
  sum_list ((λ i, record_blocks (record_at db' (Z.of_nat i))) <$> seq 0 n)
  = sum_list ((λ i, record_blocks (record_at db (Z.of_nat i))) <$> seq 0 n).
Proof.
  intros Hrec. f_equal. apply list_fmap_ext. intros j i Hi.
  apply lookup_seq in Hi as [-> Hi]. simpl. rewrite Hrec by lia. done.
Qed.

Lemma vdb_add_vector_owned db data id md w e db' w' :
  cap_inv db →
  vdb_add_vector (Some db) (Some data) id md w = Ret (e, Some db') w' →
  (live_blocks w' + owned_blocks db = live_blocks w + owned_blocks db')%nat ∧
  (live_inv db → live_inv db').
Proof.
  intros Hinv Hrun.
  destruct (vdb_add_vector_Ret db data id md w e (Some db') w' Hinv Hrun)
    as (db2 & [= <-] & Hinv' & _ & _ & _ & _ & _ & Hrec & _ & Hvec & He).
  assert (0 <= count db) as Hc0 by (destruct Hinv as ((? & ?) & _); lia).
  assert ((if is_held (vectors db') then 1 else 0)
          = (if is_held (vectors db) then 1 else 0) + new_array db db')%nat as Harr.
  { unfold new_array. destruct (vectors db) eqn:E1, (vectors db') eqn:E2; simpl; try done.
    exfalso. by apply Hvec. }
  unfold owned_blocks. rewrite Harr.
  destruct e; try done.
  - destruct He as (Hc & _ & _ & Hs & Hnew & Hl). split.
    + replace (Z.to_nat (count db')) with (S (Z.to_nat (count db))) by lia.
      rewrite seq_S, fmap_app. cbn [fmap list_fmap]. rewrite sum_list_snoc.
      rewrite (sum_record_blocks_ext db db') by (intros i Hi; apply Hrec; lia).
      simpl. rewrite Z2Nat.id, Hnew by lia. simpl.
      assert (is_held (id_copy id) = is_held id) as ->.
      { destruct id as [s|]; [|done]. destruct (Hs s eq_refl) as [len Hlen].
        unfold id_copy. by rewrite Hlen. }
      rewrite Hl. destruct (is_held id); lia.
    + intros Hlive i Hi. destruct (decide (i = count db)) as [->|Hne].
      * by rewrite Hnew.
      * rewrite Hrec by lia. apply Hlive. lia.
  - destruct He as (Hc & _ & Hl). split.
    + rewrite Hc. rewrite (sum_record_blocks_ext db db') by (intros i Hi; apply Hrec; lia).
      lia.
    + intros Hlive i Hi. rewrite Hrec by lia. apply Hlive. lia.
Qed.

Lemma free_record_Ret db i w u w' :
  free_record db i tt w = Ret u w' →
  live_blocks w = (live_blocks w' + record_blocks (record_at db (Z.of_nat i)))%nat ∧
  open_files w' = open_files w ∧ disk w' = disk w ∧ read_only w' = read_only w ∧
  alloc_plan w' = alloc_plan w.
Proof.
  unfold free_record. intros H. inv_bind H as v w1 Hr.
  apply read_slot_Ret in Hr as [Hv ->]; [|lia].
  inv_bind H as u1 w2 Hf. apply free_Ret in Hf as (Hl & Ho & Hd & Hro & Hp).
  apply free_if_Ret in H as (Hl' & Ho' & Hd' & Hro' & Hp').
  rewrite Hv. simpl. split_all; try congruence. destruct (is_held (id v)); lia.
Qed.

Lemma destroy_loop_Ret db n :
  ∀ lo w u w', for_rangeM lo n (free_record db) tt w = Ret u w' →
    live_blocks w
    = (live_blocks w'
       + sum_list ((λ i, record_blocks (record_at db (Z.of_nat i))) <$> seq lo n))%nat ∧
    open_files w' = open_files w ∧ disk w' = disk w ∧ read_only w' = read_only w ∧
    alloc_plan w' = alloc_plan w.
Proof.
  induction n as [|n IH]; intros lo w u w' H; simpl in *.
  - inv_ret H. split_all; try done; lia.
  - inv_bind H as u1 w1 Hr. destruct u1.
    apply free_record_Ret in Hr as (Hl & Ho & Hd & Hro & Hp).
    apply IH in H as (Hl' & Ho' & Hd' & Hro' & Hp').
    split_all; try congruence. rewrite Hl, Hl'. unfold fmap. lia.
Qed.

Lemma vdb_destroy_Ret db w u w' :
  vdb_destroy (Some db) w = Ret u w' →
  live_blocks w = (live_blocks w' + owned_blocks db)%nat ∧
  open_files w' = open_files w ∧ disk w' = disk w ∧ read_only w' = read_only w ∧
  alloc_plan w' = alloc_plan w.
Proof.
  unfold vdb_destroy. intros H. inv_bind H as u1 w1 Hloop.
  apply destroy_loop_Ret in Hloop as (Hl & Ho & Hd & Hro & Hp).
  inv_bind H as u2 w2 Hf. apply free_if_Ret in Hf as (Hl2 & Ho2 & Hd2 & Hro2 & Hp2).
  apply free_Ret in H as (Hl3 & Ho3 & Hd3 & Hro3 & Hp3).
  unfold owned_blocks. split_all; try congruence.
  destruct (is_held (vectors db)); lia.
Qed.

Lemma destroy_loop_run db n :
  ∀ lo w, (∀ i, (lo <= i < lo + n)%nat → is_Some (record_at db (Z.of_nat i))) →
    (sum_list ((λ i, record_blocks (record_at db (Z.of_nat i))) <$> seq lo n)
     <= live_blocks w)%nat →
    ∃ w', for_rangeM lo n (free_record db) tt w = Ret tt w'.
Proof.
  induction n as [|n IH]; intros lo w Hlive Hsum; simpl in *.
  - by exists w.
  - destruct (Hlive lo) as [v Hv]; [lia|]. rewrite Hv in Hsum. simpl in Hsum.
    assert (∃ w1, free_record db lo tt w = Ret tt w1) as (w1 & Hr).
    { unfold free_record. rewrite (bind_run _ _ _ _ _ (read_slot_live db _ v w Hv)).
      destruct (free_succeeds w (pred (live_blocks w))) as (w1 & Hf1 & Hl1 & _);
        [destruct (is_held (id v)); lia|].
      rewrite (bind_run _ _ _ _ _ Hf1).
      destruct (free_if_succeeds (is_held (id v)) w1 _ Hl1) as (w2 & Hf2 & _).
      { intros E. rewrite E in Hsum. lia. }
      by exists w2. }
    rewrite (bind_run _ _ _ _ _ Hr).
    apply free_record_Ret in Hr as (Hl & _). rewrite Hv in Hl. simpl in Hl.
    apply IH.
    + intros i Hi. apply Hlive. lia.
    + unfold fmap in *. destruct (is_held (id v)); lia.
Qed.

Lemma vdb_destroy_run db w :
  cap_inv db → live_inv db → (owned_blocks db <= live_blocks w)%nat →
  ∃ w', vdb_destroy (Some db) w = Ret tt w' ∧
        live_blocks w = (live_blocks w' + owned_blocks db)%nat ∧
        open_files w' = open_files w ∧ disk w' = disk w ∧ read_only w' = read_only w ∧
        alloc_plan w' = alloc_plan w.
Proof.
  intros Hinv Hlive Hown.
  assert (∃ w', vdb_destroy (Some db) w = Ret tt w') as (w' & Hrun).
  { unfold vdb_destroy. unfold owned_blocks in Hown.
    assert (0 <= count db) as Hc0 by (destruct Hinv as ((? & ?) & _); lia).
    destruct (destroy_loop_run db (Z.to_nat (count db)) 0%nat w) as (w1 & Hloop).
    { intros i Hi. apply Hlive. lia. }
    { lia. }
    rewrite (bind_run _ _ _ _ _ Hloop).
    apply destroy_loop_Ret in Hloop as (Hl & _).
    destruct (free_if_succeeds (is_held (vectors db)) w1 _ eq_refl) as (w2 & Hf2 & Hl2 & _).
    { intros E. rewrite E in Hown. lia. }
    rewrite (bind_run _ _ _ _ _ Hf2).
    destruct (free_succeeds w2 (pred (live_blocks w2))) as (w3 & Hf3 & _).
    { destruct (is_held (vectors db)); lia. }
    by exists w3. }
  exists w'. split; [done|]. by apply vdb_destroy_Ret in Hrun.
Qed.

(** ** Loading: what a call that returns guarantees *)

Lemma fclose_Ret w u w' :
  fclose w = Ret u w' →
  open_files w = S (open_files w') ∧ live_blocks w' = live_blocks w ∧
  disk w' = disk w ∧ read_only w' = read_only w ∧ alloc_plan w' = alloc_plan w.
Proof. unfold fclose. destruct (open_files w) eqn:E; [done|]. by intros [= <- <-]. Qed.

Lemma load_abort_Ret data_held id_held db w r w' :
  load_abort data_held id_held db w = Ret r w' →
  load_post ((if data_held then 1 else 0) + (if id_held then 1 else 0)) db 0 w r w' ∧
  r = None.
Proof.
  unfold load_abort. intros H.
  inv_bind H as u1 w1 H1. apply free_if_Ret in H1 as (Hl1 & Ho1 & Hd1 & _).
  inv_bind H as u2 w2 H2. apply free_if_Ret in H2 as (Hl2 & Ho2 & Hd2 & _).
  inv_bind H as u3 w3 H3. apply vdb_destroy_Ret in H3 as (Hl3 & Ho3 & Hd3 & _).
  inv_bind H as u4 w4 H4. apply fclose_Ret in H4 as (Ho4 & Hl4 & Hd4 & _).
  inv_ret H. split; [|done]. unfold load_post. split_all; try congruence. lia.
Qed.

Lemma load_add_Ret next db data id stream n w r w' :
  cap_inv db → live_inv db →
  (∀ db1 stream1 w1 r1 w1', cap_inv db1 → live_inv db1 →
     next db1 stream1 w1 = Ret r1 w1' → load_post 0 db1 n w1 r1 w1') →
  load_add next db data id stream w = Ret r w' →
  load_post (1 + (if is_held id then 1 else 0)) db (1 + n) w r w'.
Proof.
  intros Hinv Hlive Hnext H. unfold load_add in H.
  inv_bind H as ra w1 Hadd. destruct ra as [e odb1].
  destruct (vdb_add_vector_Ret db data id NULL w e odb1 w1 Hinv Hadd)
    as (db1 & -> & Hinv1 & Hd1 & Hm1 & Ho1 & Hdisk1 & _ & Hrec & _ & _ & He).
  destruct (vdb_add_vector_owned db data id NULL w e db1 w1 Hinv Hadd) as [Hown Hlive1].
  specialize (Hlive1 Hlive).
  inv_bind H as u2 w2 H2. apply free_Ret in H2 as (Hl2 & Ho2 & Hdisk2 & _).
  inv_bind H as u3 w3 H3. apply free_if_Ret in H3 as (Hl3 & Ho3 & Hdisk3 & _).
  destruct e; try done.
  - destruct He as (Hc & _).
    apply Hnext in H as (Ho & Hdisk & Hr); [|done..].
    unfold load_post. split_all; try congruence.
    destruct r as [db'|].
    + destruct Hr as (? & ? & ? & ? & ? & ? & Hrec').
      split_all; try done; try congruence; try lia.
      intros i Hi. rewrite Hrec' by lia. by apply Hrec.
    + lia.
  - destruct He as (Hc & _).
    inv_bind H as u4 w4 H4. apply vdb_destroy_Ret in H4 as (Hl4 & Ho4 & Hdisk4 & _).
    inv_bind H as u5 w5 H5. apply fclose_Ret in H5 as (Ho5 & Hl5 & Hdisk5 & _).
    inv_ret H. unfold load_post. split_all; try congruence. lia.
Qed.

Lemma load_records_Ret n :
  ∀ dims db stream w r w',
    cap_inv db → live_inv db →
    load_records n dims db stream w = Ret r w' →
    load_post 0 db (Z.of_nat n) w r w'.
Proof.
  induction n as [|n IH]; intros dims db stream w r w' Hinv Hlive H.
  - simpl in H. inv_bind H as u w1 Hc. apply fclose_Ret in Hc as (Ho & Hl & Hd & _).
    inv_ret H. unfold load_post. split_all; try done; try lia.
  - cbn [load_records] in H. cbv zeta in H.
    assert (∀ held w0 r0 w0', load_post held db (1 + Z.of_nat n) w0 r0 w0' →
              load_post held db (Z.of_nat (S n)) w0 r0 w0') as Hpost.
    { intros held w0 r0 w0' Hp. by replace (Z.of_nat (S n)) with (1 + Z.of_nat n) by lia. }
    assert (∀ held w0 r0 w0', load_post held db 0 w0 r0 w0' ∧ r0 = None →
              load_post held db (Z.of_nat (S n)) w0 r0 w0') as Habort.
    { intros held w0 r0 w0' [(? & ? & ?) ->]. by split_all. }
    assert (∀ held wa wb ra wb', load_post held db (Z.of_nat (S n)) wb ra wb' →
              open_files wb = open_files wa → disk wb = disk wa →
              live_blocks wb = (live_blocks wa + held)%nat →
              load_post 0 db (Z.of_nat (S n)) wa ra wb') as Hshift.
    { intros held wa wb ra wb' (Ho & Hd & Hr) Hoab Hdab Hlab.
      unfold load_post. split_all; try congruence.
      destruct ra as [db'|]; [|lia].
      destruct Hr as (? & ? & ? & ? & ? & ? & ?). split_all; try done. lia. }
    inv_bind H as ok w1 Hm. apply malloc_Ret in Hm as (Hl1 & Ho1 & Hd1 & _).
    destruct ok; simpl in H.
    2:{ apply load_abort_Ret, Habort in H. eapply Hshift; [exact H|done..|]. simpl. lia. }
    inv_bind H as r1 w2 Hf. apply fread_Ret in Hf as [-> Hr1].
    destruct r1 as [[bytes|] stream1].
    2:{ apply load_abort_Ret, Habort in H. eapply Hshift; [exact H|done..|]. simpl. lia. }
    inv_bind H as r2 w3 Hf. apply fread_Ret in Hf as [-> Hr2].
    destruct r2 as [[len_bytes|] stream2].
    2:{ apply load_abort_Ret, Habort in H. eapply Hshift; [exact H|done..|]. simpl. lia. }
    destruct (decode_le len_bytes >? 0).
    + inv_bind H as ok w4 Hm. apply malloc_Ret in Hm as (Hl4 & Ho4 & Hd4 & _).
      destruct ok; simpl in H.
      2:{ apply load_abort_Ret, Habort in H.
          eapply Hshift; [exact H|congruence..|]. simpl. lia. }
      inv_bind H as r3 w5 Hf. apply fread_Ret in Hf as [-> Hr3].
      destruct r3 as [[id_bytes|] stream3].
      2:{ apply load_abort_Ret, Habort in H.
          eapply Hshift; [exact H|congruence..|]. simpl. lia. }
      destruct (wrap32 (decode_le len_bytes + 1) <=? decode_le len_bytes); [done|].
      apply (load_add_Ret _ _ _ _ _ (Z.of_nat n)) in H; [|done..|].
      * apply Hpost in H. eapply Hshift; [exact H|congruence..|]. simpl. lia.
      * intros db1 s1 wa ra wa' ? ?. by apply IH.
    + apply (load_add_Ret _ _ _ _ _ (Z.of_nat n)) in H; [|done..|].
      * apply Hpost in H. eapply Hshift; [exact H|congruence..|]. simpl. lia.
      * intros db1 s1 wa ra wa' ? ?. by apply IH.
Qed.

Lemma fopen_rb_Ret filename w r w' :
  fopen_rb filename w = Ret r w' →
  r = disk w filename ∧ live_blocks w' = live_blocks w ∧ disk w' = disk w ∧
  alloc_plan w' = alloc_plan w ∧ read_only w' = read_only w ∧
  open_files w' = (if is_held r then S (open_files w) else open_files w).
Proof.
  unfold fopen_rb. destruct (disk w filename) eqn:E; intros [= <- <-]; by rewrite ?E.
Qed.

Lemma vdb_create_Ret dims m w r w' :
  vdb_create dims m w = Ret r w' →
  open_files w' = open_files w ∧ disk w' = disk w ∧
  match r with
  | Some db => db = Database None 0 0 dims m ∧ live_blocks w' = S (live_blocks w)
  | None => live_blocks w' = live_blocks w
  end.
Proof.
  unfold vdb_create. destruct (dims =? 0).
  - intros H. by inv_ret H.
  - intros H. inv_bind H as ok w1 Hm. apply malloc_Ret in Hm as (Hl & Ho & Hd & _).
    destruct ok; inv_ret H; by split_all.
Qed.

Lemma live_inv_empty d m : live_inv (Database None 0 0 d m).
Proof. intros i Hi. simpl in Hi. lia. Qed.

(** What [vdb_load] guarantees whenever it returns: the stream is closed;
    either NULL is returned and every block allocated on the way has been
    freed, or the database returned is whole, with the dimensions, metric and
    count of the header of the file (which starts with the magic tag) and a
    record in each of its [count] slots. *)
Lemma vdb_load_Ret filename w r w' :
  vdb_load filename w = Ret r w' →
  open_files w' = open_files w ∧ disk w' = disk w ∧
  match r with
  | None => live_blocks w' = live_blocks w
  | Some db =>
      cap_inv db ∧ live_inv db ∧
      live_blocks w' = (live_blocks w + owned_blocks db)%nat ∧
      ∃ f magic d c m rest,
        filename = Some f ∧ disk w f = Some (magic ++ d ++ c ++ m ++ rest) ∧
        length magic = 4%nat ∧ length d = 8%nat ∧ length c = 8%nat ∧ length m = 4%nat ∧
        decode_le magic = VDB_MAGIC ∧
        dimensions db = decode_le d ∧ count db = decode_le c ∧ metric db = decode_le m
  end.
Proof.
  unfold vdb_load. destruct filename as [f|]; [|intros H; by inv_ret H].
  intros H. inv_bind H as stream w1 Hopen.
  apply fopen_rb_Ret in Hopen as (-> & Hl1 & Hd1 & _ & _ & Ho1).
  destruct (disk w f) as [bytes|] eqn:Hbytes; simpl in *; [|by inv_ret H].
  assert (∀ wa wb, fclose wa = Ret tt wb → wa = w1 →
            open_files wb = open_files w ∧ disk wb = disk w
            ∧ live_blocks wb = live_blocks w) as Hclose.
  { intros wa wb (? & ? & ? & _)%fclose_Ret ->. split_all; congruence. }
  inv_bind H as r1 w2 Hf. apply fread_Ret in Hf as [-> Hr1].
  destruct r1 as [[magic|] s1].
  2:{ inv_bind H as u w3 Hc. destruct u. inv_ret H. by apply Hclose in Hc. }
  destruct Hr1 as (-> & Hlm & _).
  destruct (decode_le magic =? VDB_MAGIC) eqn:Hmagic; simpl in H.
  2:{ inv_bind H as u w3 Hc. destruct u. inv_ret H. by apply Hclose in Hc. }
  apply Z.eqb_eq in Hmagic.
  inv_bind H as r2 w3 Hf. apply fread_Ret in Hf as [-> Hr2].
  destruct r2 as [[d|] s2].
  2:{ inv_bind H as u w3 Hc. destruct u. inv_ret H. by apply Hclose in Hc. }
  destruct Hr2 as (-> & Hld & _).
  inv_bind H as r3 w3 Hf. apply fread_Ret in Hf as [-> Hr3].
  destruct r3 as [[c|] s3].
  2:{ inv_bind H as u w3 Hc. destruct u. inv_ret H. by apply Hclose in Hc. }
  destruct Hr3 as (-> & Hlc & _).
  inv_bind H as r4 w3 Hf. apply fread_Ret in Hf as [-> Hr4].
  destruct r4 as [[m|] s4].
  2:{ inv_bind H as u w3 Hc. destruct u. inv_ret H. by apply Hclose in Hc. }
  destruct Hr4 as (-> & Hlmt & _).
  change (wrap64 (4 * 1)) with 4 in Hlm, Hlmt. change (wrap64 (8 * 1)) with 8 in Hld, Hlc.
  inv_bind H as odb w3 Hcreate.
  apply vdb_create_Ret in Hcreate as (Ho3 & Hd3 & Hdb).
  destruct odb as [db0|].
  2:{ inv_bind H as u w4 Hc. destruct u. inv_ret H.
      apply fclose_Ret in Hc as (? & ? & ? & _). split_all; congruence. }
  destruct Hdb as [-> Hl3].
  apply load_records_Ret in H as (Ho & Hd & Hr);
    [|apply cap_inv_empty|apply live_inv_empty].
  split_all; try congruence.
  destruct r as [db|].
  - destruct Hr as (Hinv & Hlive & Hc & Hdim & Hmet & Hl & _).
    change (owned_blocks (Database None 0 0 (decode_le d) (decode_le m))) with 1%nat in Hl.
    simpl in Hc, Hdim, Hmet. split_all; try done; try lia.
    exists f, magic, d, c, m, s4. split_all; try done; try lia.
    pose proof (decode_le_range c). lia.
  - change (owned_blocks (Database None 0 0 (decode_le d) (decode_le m))) with 1%nat in Hr.
    lia.
Qed.

(** The magic tag is checked before anything else: a file that does not
    start with it is rejected without a single allocation. *)
Lemma vdb_load_bad_magic filename bytes w :
  disk w filename = Some bytes →
  (length bytes < 4)%nat ∨ decode_le (take 4 bytes) ≠ VDB_MAGIC →
  ∃ w', vdb_load (Some filename) w = Ret None w' ∧ same_resources w w' ∧
        alloc_plan w' = alloc_plan w ∧ disk w' = disk w.
Proof.
  intros Hbytes Hbad. unfold vdb_load, bind at 1, fopen_rb. rewrite Hbytes.
  unfold bind at 1, fread.
  change (wrap64 (4 * 1)) with 4. change ((4 =? 0) && negb (1 =? 0)) with false.
  destruct (decide (length bytes < 4)%nat) as [Hshort|Hlong].
  - rewrite Z.min_r by lia.
    assert ((4 <? Z.of_nat (length bytes)) = false) as -> by (apply Z.ltb_ge; lia).
    assert ((Z.of_nat (length bytes) <? 4) = true) as -> by (apply Z.ltb_lt; lia).
    unfold ret, bind, fclose. simpl. eexists. split; [done|]. by split_all.
  - destruct Hbad as [?|Hbad]; [done|]. rewrite Z.min_l by lia.
    rewrite Z.ltb_irrefl. unfold ret.
    change (Z.to_nat 4) with 4%nat.
    apply Z.eqb_neq in Hbad. rewrite Hbad. unfold ret, bind, fclose. simpl.
    eexists. split; [done|]. by split_all.
Qed.

(** ** Loading what was saved *)

Lemma take_c_string s : take (length (c_string s)) s = c_string s.
Proof.
  induction s as [|c s IH]; simpl; [done|].
  destruct (Ascii.eqb c NUL); simpl; [done|]. by rewrite IH.
Qed.

Lemma fclose_run w n : open_files w = S n → ∃ w', fclose w = Ret tt w'.
Proof. intros E. unfold fclose. rewrite E. by eexists. Qed.

Lemma load_abort_run (data_held id_held : bool) db w :
  cap_inv db → live_inv db →
  (owned_blocks db + (if data_held then 1 else 0) + (if id_held then 1 else 0)
   <= live_blocks w)%nat →
  (1 <= open_files w)%nat →
  ∃ w', load_abort data_held id_held db w = Ret None w'.
Proof.
  intros Hinv Hlive Hl Ho. unfold load_abort.
  destruct (free_if_succeeds data_held w _ eq_refl) as (w1 & Hf1 & Hl1 & Ho1 & _).
  { intros ->. lia. }
  rewrite (bind_run _ _ _ _ _ Hf1).
  destruct (free_if_succeeds id_held w1 _ eq_refl) as (w2 & Hf2 & Hl2 & Ho2 & _).
  { intros ->. destruct data_held; lia. }
  rewrite (bind_run _ _ _ _ _ Hf2).
  destruct (vdb_destroy_run db w2 Hinv Hlive) as (w3 & Hd3 & Hl3 & Ho3 & _).
  { destruct data_held, id_held; lia. }
  rewrite (bind_run _ _ _ _ _ Hd3).
  destruct (fclose_run w3 (pred (open_files w3))) as (w4 & Hc4); [lia|].
  rewrite (bind_run _ _ _ _ _ Hc4). by eexists.
Qed.

Lemma load_abort_after (data_held id_held : bool) db w0 w :
  cap_inv db → live_inv db → (owned_blocks db <= live_blocks w0)%nat →
  live_blocks w
  = (live_blocks w0 + (if data_held then 1 else 0) + (if id_held then 1 else 0))%nat →
  (1 <= open_files w)%nat →
  ∃ w', load_abort data_held id_held db w = Ret None w'.
Proof. intros ? ? ? Hl ?. apply load_abort_run; try done. rewrite Hl. lia. Qed.

Lemma id_copy_loaded_id id :
  (∀ s, id = Some s → NUL ∈ s ∧ Z.of_nat (length (c_string s)) < 2 ^ 32 - 1) →
  id_copy (loaded_id id) = loaded_id id.
Proof.
  intros Hid. destruct id as [s|]; [|done]. destruct (Hid s eq_refl) as [Hnul Hlen].
  unfold loaded_id. destruct (wrap32 _ >? 0); [|done].
  rewrite id_copy_c_string.
  - by rewrite c_string_app_NUL by apply c_string_no_NUL.
  - split.
    + apply elem_of_app. right. by left.
    + rewrite length_app. simpl. lia.
Qed.

Lemma load_add_run n dims db data id stream w :
  cap_inv db → live_inv db → dims_fit db → can_grow db → allocs_succeed w →
  (copied_floats db <= length data)%nat →
  (∀ s, id = Some s → NUL ∈ s) →
  (2 <= live_blocks w)%nat →
  ∃ db1 w1,
    load_add (load_records n dims) db data id stream w = load_records n dims db1 stream w1 ∧
    cap_inv db1 ∧ live_inv db1 ∧ dimensions db1 = dimensions db ∧ metric db1 = metric db ∧
    count db1 = count db + 1 ∧
    (∀ i, 0 <= i < count db → record_at db1 i = record_at db i) ∧
    record_at db1 (count db) = Some (Vector (take (copied_floats db) data) (id_copy id) NULL) ∧
    allocs_succeed w1 ∧ open_files w1 = open_files w ∧ disk w1 = disk w ∧
    (live_blocks w1 + owned_blocks db + 1 + (if is_held id then 1 else 0)
     = live_blocks w + owned_blocks db1)%nat.
Proof.
  intros Hinv Hlive Hdims Hgrow Hs Hlen Hid Hl.
  destruct (vdb_add_vector_succeeds db data id NULL w Hinv Hgrow Hs Hlen Hid)
    as (db1 & w1 & Hadd).
  destruct (vdb_add_vector_Ret db data id NULL w VDB_OK (Some db1) w1 Hinv Hadd)
    as (db2 & [= <-] & Hinv1 & Hd1 & Hm1 & Ho1 & Hdisk1 & _ & Hrec & Hs1 & _
        & Hc & _ & _ & _ & Hnew & Hl1).
  destruct (Hs1 Hs) as [Hs1' _].
  destruct (vdb_add_vector_owned db data id NULL w VDB_OK db1 w1 Hinv Hadd) as [Hown Hlive1].
  unfold load_add. rewrite (bind_run _ _ _ _ _ Hadd).
  destruct (free_succeeds w1 (pred (live_blocks w1))) as (w2 & Hf2 & Hl2 & Ho2 & Hd2 & _ & Hp2);
    [lia|].
  rewrite (bind_run _ _ _ _ _ Hf2).
  destruct (free_if_succeeds (is_held id) w2 _ Hl2) as (w3 & Hf3 & Hl3 & Ho3 & Hd3 & _ & Hp3).
  { intros E. rewrite E in Hl1. lia. }
  rewrite (bind_run _ _ _ _ _ Hf3).
  exists db1, w3. split; [done|]. split_all; try done; try congruence.
  - by apply Hlive1.
  - destruct (is_held id); lia.
Qed.

(** One turn of the loop of [vdb_load] on the image of a record: the
    record is rebuilt and added, and the loop goes on after the image. *)
Lemma load_step_full n dims db v stream' w :
  cap_inv db → live_inv db → dimensions db = dims → dims_fit db → can_grow db →
  storable dims v → allocs_succeed w → (owned_blocks db <= live_blocks w)%nat →
  ∃ db1 w1,
    load_records (S n) dims db (record_image dims v ++ stream') w
      = load_records n dims db1 stream' w1 ∧
    cap_inv db1 ∧ live_inv db1 ∧ dimensions db1 = dims ∧ metric db1 = metric db ∧
    count db1 = count db + 1 ∧
    (∀ i, 0 <= i < count db → record_at db1 i = record_at db i) ∧
    record_at db1 (count db) = Some (loaded_record dims v) ∧
    allocs_succeed w1 ∧ open_files w1 = open_files w ∧ disk w1 = disk w ∧
    (live_blocks w1 + owned_blocks db = live_blocks w + owned_blocks db1)%nat.
Proof.
  intros Hinv Hlive Hd Hfit Hgrow [Hdata Hid] Hs Hown.
  pose proof Hfit as [Hd0 Hd4]. rewrite Hd in Hd0, Hd4.
  assert (wrap64 (dims * sizeof_float) = dims * 4) as Hsize.
  { unfold wrap64, sizeof_float in *. apply Z.mod_small. lia. }
  assert (copied_floats db = Z.to_nat dims) as Hcopied
    by (rewrite copied_floats_fit, Hd; done).
  set (fs := take (Z.to_nat dims) (data v)).
  assert (length fs = Z.to_nat dims) as Hfs by (subst fs; rewrite length_take; lia).
  cbn [load_records]. cbv zeta. rewrite Hsize.
  replace (dims * 4 / sizeof_float) with dims
    by (unfold sizeof_float; symmetry; apply Z.div_mul; lia).
  destruct (malloc_succeeds (dims * 4) w Hs) as (w1 & Hm1 & Hl1 & Ho1 & Hd1 & _ & Hs1).
  rewrite (bind_run _ _ _ _ _ Hm1). cbn [negb].
  unfold record_image. fold fs. rewrite <- (assoc_L (++)).
  rewrite (bind_run _ _ _ _ _
             (fread_all (dims * 4) sizeof_float dims (floats_to_bytes fs) _ w1
                ltac:(unfold sizeof_float; lia) ltac:(lia) ltac:(unfold sizeof_float in *; lia)
                ltac:(rewrite length_floats_to_bytes, Hfs; unfold sizeof_float; lia)
                ltac:(unfold sizeof_float; lia))).
  assert (floats_of_bytes (Z.to_nat dims) (floats_to_bytes fs) = fs) as ->.
  { rewrite <- Hfs, <- (app_nil_r (floats_to_bytes fs)). apply floats_of_to_bytes. }
  assert (∀ id_len rest,
            0 <= id_len < 2 ^ 32 →
            fread 4 4 1 (encode_le 4 id_len ++ rest) w1 = Ret (Some (encode_le 4 id_len), rest) w1
            ∧ decode_le (encode_le 4 id_len) = id_len) as Hlenfield.
  { intros id_len rest Hr. split.
    - apply fread_all; [lia..|rewrite length_encode_le; lia|lia].
    - apply decode_encode_le. simpl. lia. }
  assert ((copied_floats db <= length fs)%nat) as Hcf by lia.
  assert (take (copied_floats db) fs = fs) as Htake by (apply take_ge; lia).
  assert (∀ id' w2,
            allocs_succeed w2 → open_files w2 = open_files w → disk w2 = disk w →
            live_blocks w2 = (live_blocks w + 1 + (if is_held id' then 1 else 0))%nat →
            id' = loaded_id (id v) →
            ∃ db1 w3,
              load_add (load_records n dims) db fs id' stream' w2
                = load_records n dims db1 stream' w3 ∧
              cap_inv db1 ∧ live_inv db1 ∧ dimensions db1 = dims ∧ metric db1 = metric db ∧
              count db1 = count db + 1 ∧
              (∀ i, 0 <= i < count db → record_at db1 i = record_at db i) ∧
              record_at db1 (count db) = Some (loaded_record dims v) ∧
              allocs_succeed w3 ∧ open_files w3 = open_files w ∧ disk w3 = disk w ∧
              (live_blocks w3 + owned_blocks db = live_blocks w + owned_blocks db1)%nat)
    as Hadd.
  { intros id' w2 Hs2 Ho2 Hd2 Hl2 ->.
    destruct (load_add_run n dims db fs (loaded_id (id v)) stream' w2 Hinv Hlive Hfit Hgrow
                Hs2 Hcf) as (db1 & w3 & Hrun & ? & ? & ? & ? & ? & ? & Hnew & ? & ? & ? & Hl3).
    - intros s Hs'. unfold loaded_id in Hs'. destruct (id v) as [s0|]; [|done].
      destruct (wrap32 _ >? 0); [|done]. injection Hs' as <-.
      apply elem_of_app. right. by left.
    - unfold owned_blocks in Hown. lia.
    - exists db1, w3. rewrite Htake, id_copy_loaded_id in Hnew by done.
      split_all; try done; try congruence. lia. }
  unfold id_image. destruct (id v) as [s|] eqn:Hidv.
  - destruct (Hid s eq_refl) as [Hnul Hlen].
    assert (wrap32 (Z.of_nat (length (c_string s))) = Z.of_nat (length (c_string s))) as Hw
      by (unfold wrap32; apply Z.mod_small; lia).
    rewrite Hw. rewrite <- (assoc_L (++)).
    destruct (Hlenfield (Z.of_nat (length (c_string s)))
                ((if Z.of_nat (length (c_string s)) >? 0
                  then take (Z.to_nat (Z.of_nat (length (c_string s)))) s else []) ++ stream'))
      as [Hread Hdec]; [lia|].
    rewrite (bind_run _ _ _ _ _ Hread), Hdec.
    destruct (Z.of_nat (length (c_string s)) >? 0) eqn:Hpos.
    + assert (wrap32 (Z.of_nat (length (c_string s)) + 1)
              = Z.of_nat (length (c_string s)) + 1) as Hw1
        by (unfold wrap32; apply Z.mod_small; lia).
      rewrite Hw1.
      destruct (malloc_succeeds (Z.of_nat (length (c_string s)) + 1) w1 Hs1)
        as (w2 & Hm2 & Hl2 & Ho2 & Hd2 & _ & Hs2).
      rewrite (bind_run _ _ _ _ _ Hm2). cbn [negb].
      rewrite Nat2Z.id, take_c_string.
      rewrite (bind_run _ _ _ _ _
                 (fread_all (Z.of_nat (length (c_string s)) + 1) 1
                    (Z.of_nat (length (c_string s))) (c_string s) stream' w2
                    ltac:(lia) ltac:(lia) ltac:(lia) ltac:(lia) ltac:(lia))).
      assert ((Z.of_nat (length (c_string s)) + 1 <=? Z.of_nat (length (c_string s))) = false)
        as -> by (apply Z.leb_gt; lia).
      apply Hadd; try congruence.
      * simpl. lia.
      * unfold loaded_id. by rewrite Hw, Hpos.
    + rewrite app_nil_l. apply Hadd; try congruence.
      * simpl. lia.
      * unfold loaded_id. by rewrite Hw, Hpos.
  - destruct (Hlenfield 0 stream') as [Hread Hdec]; [lia|].
    rewrite (bind_run _ _ _ _ _ Hread), Hdec. change (0 >? 0) with false. cbv iota.
    apply Hadd; try congruence; [simpl; lia|done].
Qed.

Lemma strict_prefix_app s A B :
  strict_prefix s (A ++ B) →
  strict_prefix s A ∨ ∃ s', s = A ++ s' ∧ strict_prefix s' B.
Proof.
  intros (rest & Heq & Hrest). symmetry in Heq.
  apply app_eq_inv in Heq as [(k & -> & ->)|(k & -> & ->)].
  - right. exists k. split; [done|]. by exists rest.
  - destruct k as [|b k].
    + right. exists []. rewrite !app_nil_r. split; [done|]. by exists B.
    + left. by exists (b :: k).
Qed.

Lemma strict_prefix_length s l : strict_prefix s l → (length s < length l)%nat.
Proof.
  intros (rest & -> & Hrest). rewrite length_app. destruct rest; [done|]. simpl. lia.
Qed.

(** One turn of the loop of [vdb_load] on a file that ends inside the image
    of a record: the load is abandoned. *)
Lemma load_step_short n dims db v stream w :
  cap_inv db → live_inv db → dimensions db = dims → dims_fit db →
  storable dims v → allocs_succeed w → (owned_blocks db <= live_blocks w)%nat →
  (1 <= open_files w)%nat →
  strict_prefix stream (record_image dims v) →
  ∃ w', load_records (S n) dims db stream w = Ret None w'.
Proof.
  intros Hinv Hlive Hd Hfit [Hdata Hid] Hs Hown Hopen Hpre.
  pose proof Hfit as [Hd0 Hd4]. rewrite Hd in Hd0, Hd4.
  assert (wrap64 (dims * sizeof_float) = dims * 4) as Hsize.
  { unfold wrap64, sizeof_float in *. apply Z.mod_small. lia. }
  set (fs := take (Z.to_nat dims) (data v)).
  assert (length fs = Z.to_nat dims) as Hfs by (subst fs; rewrite length_take; lia).
  cbn [load_records]. cbv zeta. rewrite Hsize.
  replace (dims * 4 / sizeof_float) with dims
    by (unfold sizeof_float; symmetry; apply Z.div_mul; lia).
  destruct (malloc_succeeds (dims * 4) w Hs) as (w1 & Hm1 & Hl1 & Ho1 & Hd1 & _ & Hs1).
  rewrite (bind_run _ _ _ _ _ Hm1). cbn [negb].
  unfold record_image in Hpre. fold fs in Hpre.
  apply strict_prefix_app in Hpre as [Hpre|(s1 & -> & Hpre)].
  { apply strict_prefix_length in Hpre. rewrite length_floats_to_bytes, Hfs in Hpre.
    destruct (fread_short (dims * 4) sizeof_float dims stream w1) as (rest & Hread);
      [unfold sizeof_float in *; lia..|].
    rewrite (bind_run _ _ _ _ _ Hread).
    apply (load_abort_after _ _ db w); try done; simpl; lia. }
  rewrite (bind_run _ _ _ _ _
             (fread_all (dims * 4) sizeof_float dims (floats_to_bytes fs) _ w1
                ltac:(unfold sizeof_float; lia) ltac:(lia) ltac:(unfold sizeof_float in *; lia)
                ltac:(rewrite length_floats_to_bytes, Hfs; unfold sizeof_float; lia)
                ltac:(unfold sizeof_float; lia))).
  unfold id_image in Hpre.
  assert (∀ id_len I, strict_prefix s1 (encode_le 4 id_len ++ I) →
            0 <= id_len < 2 ^ 32 →
            (∃ rest, fread 4 4 1 s1 w1 = Ret (None, rest) w1) ∨
            ∃ s2, fread 4 4 1 s1 w1 = Ret (Some (encode_le 4 id_len), s2) w1 ∧
                  decode_le (encode_le 4 id_len) = id_len ∧ strict_prefix s2 I) as Hfield.
  { intros id_len I Hp Hr. apply strict_prefix_app in Hp as [Hp|(s2 & -> & Hp)].
    - left. apply strict_prefix_length in Hp. rewrite length_encode_le in Hp.
      apply fread_short; lia.
    - right. exists s2. split_all; [|by apply decode_encode_le|done].
      apply fread_all; [lia..|rewrite length_encode_le; lia|lia]. }
  assert (∀ rest, fread 4 4 1 s1 w1 = Ret (None, rest) w1 →
            ∃ w', (r <- fread 4 4 1 s1 ;;
                   match r with
                   | (Some len_bytes, stream) =>
                       if decode_le len_bytes >? 0 then
                         ok <- malloc (wrap32 (decode_le len_bytes + 1)) ;;
                         if negb ok then load_abort true false db
                         else
                           r <- fread (wrap32 (decode_le len_bytes + 1)) 1
                                      (decode_le len_bytes) stream ;;
                           match r with
                           | (Some id_bytes, stream) =>
                               if wrap32 (decode_le len_bytes + 1) <=? decode_le len_bytes
                               then fault
                               else load_add (load_records n dims) db
                                      (floats_of_bytes (Z.to_nat dims) (floats_to_bytes fs))
                                      (Some (id_bytes ++ [NUL])) stream
                           | (None, _) => load_abort true true db
                           end
                       else load_add (load_records n dims) db
                              (floats_of_bytes (Z.to_nat dims) (floats_to_bytes fs))
                              None stream
                   | (None, _) => load_abort true false db
                   end) w1 = Ret None w') as Hshort.
  { intros rest Hread. rewrite (bind_run _ _ _ _ _ Hread).
    apply (load_abort_after _ _ db w); try done; simpl; lia. }
  destruct (id v) as [s|] eqn:Hidv.
  - destruct (Hid s eq_refl) as [Hnul Hlen].
    assert (wrap32 (Z.of_nat (length (c_string s))) = Z.of_nat (length (c_string s))) as Hw
      by (unfold wrap32; apply Z.mod_small; lia).
    rewrite Hw in Hpre.
    destruct (Hfield _ _ Hpre ltac:(lia)) as [(rest & Hread)|(s2 & Hread & Hdec & Hp2)];
      [by eapply Hshort|].
    rewrite (bind_run _ _ _ _ _ Hread), Hdec.
    destruct (Z.of_nat (length (c_string s)) >? 0) eqn:Hpos;
      [|by destruct Hp2 as (? & ? & ?); destruct s2].
    rewrite Nat2Z.id, take_c_string in Hp2. apply strict_prefix_length in Hp2.
    assert (wrap32 (Z.of_nat (length (c_string s)) + 1)
            = Z.of_nat (length (c_string s)) + 1) as Hw1
      by (unfold wrap32; apply Z.mod_small; lia).
    rewrite Hw1.
    destruct (malloc_succeeds (Z.of_nat (length (c_string s)) + 1) w1 Hs1)
      as (w2 & Hm2 & Hl2 & Ho2 & Hd2 & _ & Hs2).
    rewrite (bind_run _ _ _ _ _ Hm2). cbn [negb].
    destruct (fread_short (Z.of_nat (length (c_string s)) + 1) 1
                (Z.of_nat (length (c_string s))) s2 w2) as (rest & Hread2); [lia..|].
    rewrite (bind_run _ _ _ _ _ Hread2).
    apply (load_abort_after _ _ db w); try done; simpl; lia.
  - destruct (Hfield 0 [] ltac:(by rewrite app_nil_r) ltac:(lia))
      as [(rest & Hread)|(s2 & _ & _ & Hp2)]; [by eapply Hshort|].
    by destruct Hp2 as (? & ? & ?); destruct s2.
Qed.

Lemma can_grow_bound db n :
  cap_inv db → 2 * (count db + n) * sizeof_vdb_vector < 2 ^ 64 → 0 <= n → can_grow db.
Proof.
  intros ((? & ?) & _) Hb Hn. unfold can_grow, sizeof_vdb_vector in *.
  destruct (decide (count db < capacity db)); [by left|right]. nia.
Qed.

(** The loop of [vdb_load] on the images of the records [todo]: it adds them
    all when the images are there, and gives up when the file ends before. *)
Lemma load_records_image dims todo :
  Forall (storable dims) todo →
  ∀ db stream w,
    cap_inv db → live_inv db → dimensions db = dims → dims_fit db →
    2 * (count db + Z.of_nat (length todo)) * sizeof_vdb_vector < 2 ^ 64 →
    allocs_succeed w → (owned_blocks db <= live_blocks w)%nat → (1 <= open_files w)%nat →
    (∀ rest, stream = (todo ≫= record_image dims) ++ rest →
       ∃ db' w', load_records (length todo) dims db stream w = Ret (Some db') w' ∧
                 allocs_succeed w' ∧
                 ∀ j v, todo !! j = Some v →
                        record_at db' (count db + Z.of_nat j) = Some (loaded_record dims v)) ∧
    (strict_prefix stream (todo ≫= record_image dims) →
       ∃ w', load_records (length todo) dims db stream w = Ret None w').
Proof.
  induction 1 as [|v todo Hv Htodo IH];
    intros db stream w Hinv Hlive Hd Hfit Hbound Hs Hown Hopen.
  - split.
    + intros rest ->. simpl.
      destruct (fclose_run w (pred (open_files w))) as (w' & Hc); [lia|].
      rewrite (bind_run _ _ _ _ _ Hc). exists db, w'. split_all; try done.
      apply fclose_Ret in Hc as (_ & _ & _ & _ & Hp). unfold allocs_succeed in *. congruence.
    + intros (rest & Heq & Hrest). simpl in Heq. symmetry in Heq.
      by apply app_eq_nil in Heq as [_ ->].
  - assert (can_grow db) as Hgrow by (apply (can_grow_bound db _ Hinv Hbound); lia).
    assert (0 <= count db) as Hc0 by (destruct Hinv as ((? & ?) & _); lia).
    assert (∀ stream', ∃ db1 w1,
              load_records (S (length todo)) dims db (record_image dims v ++ stream') w
              = load_records (length todo) dims db1 stream' w1 ∧
              cap_inv db1 ∧ live_inv db1 ∧
              record_at db1 (count db) = Some (loaded_record dims v) ∧
              count db1 = count db + 1 ∧
              (∀ rest, stream' = (todo ≫= record_image dims) ++ rest →
                 ∃ db' w', load_records (length todo) dims db1 stream' w1 = Ret (Some db') w' ∧
                           allocs_succeed w' ∧
                           ∀ j v, todo !! j = Some v →
                                  record_at db' (count db1 + Z.of_nat j)
                                  = Some (loaded_record dims v)) ∧
              (strict_prefix stream' (todo ≫= record_image dims) →
                 ∃ w', load_records (length todo) dims db1 stream' w1 = Ret None w'))
      as Hstep.
    { intros stream'.
      destruct (load_step_full (length todo) dims db v stream' w Hinv Hlive Hd Hfit Hgrow Hv
                  Hs Hown)
        as (db1 & w1 & Hrun & Hinv1 & Hlive1 & Hd1 & _ & Hc1 & _ & Hnew & Hs1 & Ho1 & _ & Hl1).
      assert (dims_fit db1) as Hfit1 by (unfold dims_fit in *; by rewrite Hd1, <- Hd).
      assert (2 * (count db1 + Z.of_nat (length todo)) * sizeof_vdb_vector < 2 ^ 64)
        as Hbound1 by (rewrite Hc1; simpl length in Hbound; lia).
      assert (owned_blocks db1 <= live_blocks w1)%nat as Hown1 by lia.
      assert (1 <= open_files w1)%nat as Hopen1 by lia.
      exists db1, w1. split_all; try done;
        by apply (IH db1 stream' w1 Hinv1 Hlive1 Hd1 Hfit1 Hbound1 Hs1 Hown1 Hopen1). }
    split.
    + intros rest ->. cbn [mbind list_bind length]. rewrite <- (assoc_L (++)).
      destruct (Hstep ((todo ≫= record_image dims) ++ rest))
        as (db1 & w1 & -> & Hinv1 & Hlive1 & Hnew & Hc1 & Hfull & _).
      destruct (Hfull rest eq_refl) as (db' & w' & Hrun & Hs' & Hrecs).
      exists db', w'. split_all; try done.
      intros [|j] v' Hj; simpl in Hj.
      * injection Hj as <-. rewrite Z.add_0_r.
        destruct (load_records_Ret _ dims db1 _ w1 (Some db') w' Hinv1 Hlive1 Hrun)
          as (_ & _ & _ & _ & _ & _ & _ & _ & Hkeep).
        rewrite Hkeep by lia. done.
      * rewrite <- (Hrecs j v' Hj). f_equal. lia.
    + intros Hpre. cbn [mbind list_bind length] in *.
      apply strict_prefix_app in Hpre as [Hpre|(s' & -> & Hpre)].
      * by apply (load_step_short _ dims db v).
      * destruct (Hstep s') as (db1 & w1 & -> & _ & _ & _ & _ & _ & Hshort). by apply Hshort.
Qed.

Lemma storable_records db :
  cap_inv db → live_inv db → data_inv db → id_inv db →
  Forall (storable (dimensions db)) (records db).
Proof.
  intros Hinv Hlive Hdata Hid. apply Forall_lookup. intros i v Hv.
  apply lookup_records in Hv as [Hi Hv]; [|done..].
  assert (0 <= Z.of_nat i < count db) as Hi' by lia.
  split; [by apply (Hdata _ v Hi')|]. intros s Hs. by apply (Hid _ v s Hi').
Qed.

Lemma fopen_rb_run filename bytes w :
  disk w filename = Some bytes →
  ∃ w1, fopen_rb filename w = Ret (Some bytes) w1 ∧
        live_blocks w1 = live_blocks w ∧ open_files w1 = S (open_files w) ∧
        alloc_plan w1 = alloc_plan w ∧ disk w1 = disk w.
Proof. intros E. unfold fopen_rb. rewrite E. by eexists. Qed.

Lemma read_field (n : nat) (Hn : (0 < n <= 8)%nat) z tail w :
  0 <= z < 256 ^ Z.of_nat n →
  fread (Z.of_nat n) (Z.of_nat n) 1 (encode_le n z ++ tail) w
    = Ret (Some (encode_le n z), tail) w ∧
  decode_le (encode_le n z) = z.
Proof.
  intros Hz. split; [|by apply decode_encode_le].
  apply fread_all; [lia..|rewrite length_encode_le; lia|lia].
Qed.

Lemma read_field_cases (n : nat) (Hn : (0 < n <= 8)%nat) z stream tail w :
  strict_prefix stream (encode_le n z ++ tail) →
  (∃ rest, fread (Z.of_nat n) (Z.of_nat n) 1 stream w = Ret (None, rest) w) ∨
  (∃ s', stream = encode_le n z ++ s' ∧ strict_prefix s' tail).
Proof.
  intros Hp. apply strict_prefix_app in Hp as [Hp|(s' & -> & Hp)].
  - left. apply strict_prefix_length in Hp. rewrite length_encode_le in Hp.
    apply fread_short; lia.
  - right. by exists s'.
Qed.

Lemma header_ranges db :
  well_formed db →
  0 <= VDB_MAGIC < 256 ^ Z.of_nat 4 ∧ 0 <= dimensions db < 256 ^ Z.of_nat 8 ∧
  0 <= count db < 256 ^ Z.of_nat 8 ∧ 0 <= metric db < 256 ^ Z.of_nat 4 ∧
  dimensions db ≠ 0.
Proof.
  intros (((? & ?) & ? & ? & ?) & _ & _ & _ & [? ?] & [? ?] & ?).
  unfold VDB_MAGIC, sizeof_float, sizeof_vdb_vector in *. simpl. lia.
Qed.

(** [vdb_load] on the file of a well-formed database (followed by
    anything) rebuilds it: same header, and in each slot what
    [loaded_record] says. *)
Lemma vdb_load_image db filename rest w :
  well_formed db → disk w filename = Some (file_image db ++ rest) → allocs_succeed w →
  ∃ db' w',
    vdb_load (Some filename) w = Ret (Some db') w' ∧
    dimensions db' = dimensions db ∧ metric db' = metric db ∧ count db' = count db ∧
    (∀ i v, 0 <= i < count db → record_at db i = Some v →
            record_at db' i = Some (loaded_record (dimensions db) v)) ∧
    allocs_succeed w'.
Proof.
  intros Hwf Hdisk Hs.
  pose proof (header_ranges db Hwf) as (Hr1 & Hr2 & Hr3 & Hr4 & Hdne).
  destruct Hwf as (Hinv & Hlive & Hdata & Hid & Hfit & Hhdr & Hbound).
  unfold vdb_load.
  destruct (fopen_rb_run filename _ w Hdisk) as (w1 & Hopen & Hl1 & Ho1 & Hp1 & Hd1).
  rewrite (bind_run _ _ _ _ _ Hopen).
  unfold file_image, header_image. rewrite <- !(assoc_L (++)).
  destruct (read_field 4 ltac:(lia) VDB_MAGIC
              (encode_le 8 (dimensions db) ++ encode_le 8 (count db)
               ++ encode_le 4 (metric db) ++ (records db ≫= record_image (dimensions db))
               ++ rest) w1 Hr1) as [Hread1 Hdec1].
  rewrite (bind_run _ _ _ _ _ Hread1), Hdec1, Z.eqb_refl. cbn [negb].
  destruct (read_field 8 ltac:(lia) (dimensions db)
              (encode_le 8 (count db) ++ encode_le 4 (metric db)
               ++ (records db ≫= record_image (dimensions db)) ++ rest) w1 Hr2)
    as [Hread2 Hdec2].
  rewrite (bind_run _ _ _ _ _ Hread2).
  destruct (read_field 8 ltac:(lia) (count db)
              (encode_le 4 (metric db) ++ (records db ≫= record_image (dimensions db))
               ++ rest) w1 Hr3) as [Hread3 Hdec3].
  rewrite (bind_run _ _ _ _ _ Hread3).
  destruct (read_field 4 ltac:(lia) (metric db)
              ((records db ≫= record_image (dimensions db)) ++ rest) w1 Hr4)
    as [Hread4 Hdec4].
  rewrite (bind_run _ _ _ _ _ Hread4).
  rewrite Hdec2, Hdec3, Hdec4.
  assert (allocs_succeed w1) as Hs1 by (unfold allocs_succeed in *; congruence).
  destruct (vdb_create_succeeds (dimensions db) (metric db) w1 Hdne Hs1)
    as (w2 & Hcreate & Hl2).
  rewrite (bind_run _ _ _ _ _ Hcreate).
  pose proof (vdb_create_Ret _ _ _ _ _ Hcreate) as (Ho2 & Hd2 & _).
  assert (allocs_succeed w2) as Hs2.
  { unfold vdb_create in Hcreate. apply Z.eqb_neq in Hdne. rewrite Hdne in Hcreate.
    inv_bind Hcreate as ok w3 Hm. apply malloc_Ret in Hm as (_ & _ & _ & _ & Hok).
    destruct (Hok Hs1) as [-> Hs3]. by inv_ret Hcreate. }
  rewrite <- (length_records db Hinv Hlive).
  set (db0 := Database None 0 0 (dimensions db) (metric db)).
  destruct (load_records_image (dimensions db) (records db)
              (storable_records db Hinv Hlive Hdata Hid) db0
              ((records db ≫= record_image (dimensions db)) ++ rest) w2
              (cap_inv_empty _ _) (live_inv_empty _ _) eq_refl Hfit) as [Hfull _].
  { simpl. rewrite (length_records db Hinv Hlive).
    destruct Hinv as ((? & ?) & _). lia. }
  { done. }
  { change (owned_blocks db0) with 1%nat. lia. }
  { lia. }
  destruct (Hfull rest eq_refl) as (db' & w' & Hrun & Hs' & Hrecs).
  exists db', w'. split; [done|].
  destruct (load_records_Ret _ _ db0 _ w2 (Some db') w' (cap_inv_empty _ _)
              (live_inv_empty _ _) Hrun) as (_ & _ & _ & _ & Hc & Hdim & Hmet & _).
  simpl in Hc, Hdim, Hmet. rewrite (length_records db Hinv Hlive) in Hc.
  assert (0 <= count db) by (destruct Hinv as ((? & ?) & _); lia).
  split_all; try done; try lia.
  intros i v Hi Hv.
  assert (records db !! Z.to_nat i = Some v) as Hrec.
  { apply lookup_records; [done..|]. split; [lia|]. by rewrite Z2Nat.id by lia. }
  specialize (Hrecs _ _ Hrec). simpl in Hrecs. by rewrite Z2Nat.id in Hrecs by lia.
Qed.

(** [vdb_load] on a file that stops before the end of what [vdb_save] wrote:
    the load fails, and the process holds what it held before. *)
Lemma vdb_load_truncated db filename bytes w :
  well_formed db → strict_prefix bytes (file_image db) →
  disk w filename = Some bytes → allocs_succeed w →
  ∃ w', vdb_load (Some filename) w = Ret None w' ∧ same_resources w w'.
Proof.
  intros Hwf Hpre Hdisk Hs.
  assert (∃ w', vdb_load (Some filename) w = Ret None w') as (w' & Hrun).
  { pose proof (header_ranges db Hwf) as (Hr1 & Hr2 & Hr3 & Hr4 & Hdne).
    destruct Hwf as (Hinv & Hlive & Hdata & Hid & Hfit & Hhdr & Hbound).
    unfold vdb_load.
    destruct (fopen_rb_run filename _ w Hdisk) as (w1 & Hopen & Hl1 & Ho1 & Hp1 & Hd1).
    rewrite (bind_run _ _ _ _ _ Hopen).
    assert (∀ wa, open_files wa = open_files w1 →
              ∃ w', (_ <- fclose ;; ret (None : option vdb_database)) wa = Ret None w')
      as Hclose.
    { intros wa Hoa. destruct (fclose_run wa (open_files w)) as (w2 & Hc); [congruence|].
      rewrite (bind_run _ _ _ _ _ Hc). by eexists. }
    unfold file_image, header_image in Hpre. rewrite <- !(assoc_L (++)) in Hpre.
    destruct (read_field_cases 4 ltac:(lia) _ _ _ w1 Hpre) as [(rest & Hread)|(s1 & -> & Hp1')].
    { rewrite (bind_run _ _ _ _ _ Hread). by apply Hclose. }
    destruct (read_field 4 ltac:(lia) VDB_MAGIC s1 w1 Hr1) as [Hread1 Hdec1].
    rewrite (bind_run _ _ _ _ _ Hread1), Hdec1, Z.eqb_refl. cbn [negb].
    destruct (read_field_cases 8 ltac:(lia) _ _ _ w1 Hp1') as [(rest & Hread)|(s2 & -> & Hp2')].
    { rewrite (bind_run _ _ _ _ _ Hread). by apply Hclose. }
    destruct (read_field 8 ltac:(lia) (dimensions db) s2 w1 Hr2) as [Hread2 Hdec2].
    rewrite (bind_run _ _ _ _ _ Hread2).
    destruct (read_field_cases 8 ltac:(lia) _ _ _ w1 Hp2') as [(rest & Hread)|(s3 & -> & Hp3')].
    { rewrite (bind_run _ _ _ _ _ Hread). by apply Hclose. }
    destruct (read_field 8 ltac:(lia) (count db) s3 w1 Hr3) as [Hread3 Hdec3].
    rewrite (bind_run _ _ _ _ _ Hread3).
    destruct (read_field_cases 4 ltac:(lia) _ _ _ w1 Hp3') as [(rest & Hread)|(s4 & -> & Hp4')].
    { rewrite (bind_run _ _ _ _ _ Hread). by apply Hclose. }
    destruct (read_field 4 ltac:(lia) (metric db) s4 w1 Hr4) as [Hread4 Hdec4].
    rewrite (bind_run _ _ _ _ _ Hread4).
    rewrite Hdec2, Hdec3, Hdec4.
    assert (allocs_succeed w1) as Hs1 by (unfold allocs_succeed in *; congruence).
    destruct (vdb_create_succeeds (dimensions db) (metric db) w1 Hdne Hs1)
      as (w2 & Hcreate & Hl2).
    rewrite (bind_run _ _ _ _ _ Hcreate).
    pose proof (vdb_create_Ret _ _ _ _ _ Hcreate) as (Ho2 & Hd2 & _).
    assert (allocs_succeed w2) as Hs2.
    { unfold vdb_create in Hcreate. apply Z.eqb_neq in Hdne. rewrite Hdne in Hcreate.
      inv_bind Hcreate as ok w3 Hm. apply malloc_Ret in Hm as (_ & _ & _ & _ & Hok).
      destruct (Hok Hs1) as [-> Hs3]. by inv_ret Hcreate. }
    rewrite <- (length_records db Hinv Hlive).
    set (db0 := Database None 0 0 (dimensions db) (metric db)).
    destruct (load_records_image (dimensions db) (records db)
                (storable_records db Hinv Hlive Hdata Hid) db0 s4 w2
                (cap_inv_empty _ _) (live_inv_empty _ _) eq_refl Hfit) as [_ Hshort].
    { simpl. rewrite (length_records db Hinv Hlive).
      destruct Hinv as ((? & ?) & _). lia. }
    { done. }
    { change (owned_blocks db0) with 1%nat. lia. }
    { lia. }
    by apply Hshort. }
  exists w'. split; [done|].
  apply vdb_load_Ret in Hrun as (Ho & _ & Hl). by split.
Qed.

(** ** The persistence claims *)

Lemma identifier_loaded dims v :
  (∀ s, id v = Some s → NUL ∈ s ∧ Z.of_nat (length (c_string s)) < 2 ^ 32 - 1) →
  identifier (loaded_record dims v)
  = match identifier v with
    | Some (c :: cs) => Some (c :: cs)
    | _ => None
    end.
Proof.
  intros Hid. unfold identifier, loaded_record, loaded_id. simpl.
  destruct (id v) as [s|]; [|done]. destruct (Hid s eq_refl) as [_ Hlen]. simpl.
  unfold wrap32. rewrite Z.mod_small by lia.
  pose proof (c_string_no_NUL s) as Hn.
  destruct (c_string s) as [|c cs] eqn:E; [done|].
  assert ((Z.of_nat (length (c :: cs)) >? 0) = true) as -> by done.
  cbn [fmap option_fmap option_map]. f_equal. by apply c_string_app_NUL.
Qed.

(** C2, refuted as stated: a record whose identifier is the empty string
    comes back from [vdb_save] then [vdb_load] with a NULL identifier. *)
Lemma save_load_loses_empty_identifier :
  ∃ w1 db' w2,
    vdb_save (Some db_empty_id) (Some "test.vdb"%string) world_abc = Ret VDB_OK w1 ∧
    vdb_load (Some "test.vdb"%string) w1 = Ret (Some db') w2 ∧
    id <$> record_at db_empty_id 0 = Some (Some [NUL]) ∧
    id <$> record_at db' 0 = Some None.
Proof.
  eexists _, _, _. split_all.
  - vm_compute. reflexivity.
  - vm_compute. reflexivity.
  - reflexivity.
  - reflexivity.
Qed.

(** C2, amended: for a well-formed database, when the file can be written
    and the allocations succeed, loading the file produced by saving yields a
    database with the same dimensions, metric and count, whose record at each
    index has the same vector (the first [dimensions] floats, that is all of
    them when the vector has [dimensions]), no attachment, and the same
    identifier, except that the empty string is loaded as NULL. *)
Theorem save_load_round_trip (db : vdb_database) (filename : string) (w : world) :
  well_formed db → read_only w filename = false → allocs_succeed w →
  ∃ w1 db' w2,
    vdb_save (Some db) (Some filename) w = Ret VDB_OK w1 ∧
    vdb_load (Some filename) w1 = Ret (Some db') w2 ∧
    dimensions db' = dimensions db ∧ metric db' = metric db ∧ count db' = count db ∧
    ∀ i v, 0 <= i < count db → record_at db i = Some v →
      ∃ v', record_at db' i = Some v' ∧
            data v' = take (Z.to_nat (dimensions db)) (data v) ∧
            (Z.of_nat (length (data v)) = dimensions db → data v' = data v) ∧
            metadata v' = NULL ∧
            identifier v' = match identifier v with
                            | Some (c :: cs) => Some (c :: cs)
                            | _ => None
                            end.
Proof.
  intros Hwf Hro Hs.
  pose proof Hwf as (Hinv & Hlive & Hdata & Hid & Hfit & Hhdr & Hbound).
  destruct (vdb_save_run db filename w Hinv Hlive Hdata Hid Hro)
    as (w1 & Hsave & _ & Hp1 & _ & Hd1 & _).
  assert (allocs_succeed w1) as Hs1 by (unfold allocs_succeed in *; congruence).
  destruct (vdb_load_image db filename [] w1 Hwf) as (db' & w2 & Hload & ? & ? & ? & Hrec & _).
  { by rewrite app_nil_r. }
  { done. }
  exists w1, db', w2. split_all; try done.
  intros i v Hi Hv. exists (loaded_record (dimensions db) v).
  split_all; try done.
  - by apply Hrec.
  - intros Hlen. simpl. apply take_ge. lia.
  - apply identifier_loaded. intros s Hs'. by apply (Hid i v s).
Qed.

Lemma NUL_in_c_str s : NUL ∈ c_str s.
Proof. unfold c_str. apply elem_of_app. right. by left. Qed.

Lemma well_formed_db_abc : well_formed db_abc.
Proof.
  unfold well_formed. split_all.
  - apply cap_inv_db_abc.
  - apply live_inv_db_abc.
  - apply data_inv_db_abc.
  - intros i v s Hi. simpl in Hi.
    assert (i = 0 ∨ i = 1 ∨ i = 2) as [->|[->| ->]] by lia;
      intros [= <-] [= <-]; (split; [apply NUL_in_c_str|vm_compute; reflexivity]).
  - vm_compute. split; reflexivity.
  - vm_compute. split; [discriminate|reflexivity].
  - vm_compute. reflexivity.
Qed.

Lemma save_load_round_trip_witness :
  ∃ w1 db' w2,
    vdb_save (Some db_abc) (Some "test.vdb"%string) world_abc = Ret VDB_OK w1 ∧
    vdb_load (Some "test.vdb"%string) w1 = Ret (Some db') w2 ∧
    dimensions db' = dimensions db_abc ∧ metric db' = metric db_abc ∧
    count db' = count db_abc ∧
    ∀ i v, 0 <= i < count db_abc → record_at db_abc i = Some v →
      ∃ v', record_at db' i = Some v' ∧
            data v' = take (Z.to_nat (dimensions db_abc)) (data v) ∧
            (Z.of_nat (length (data v)) = dimensions db_abc → data v' = data v) ∧
            metadata v' = NULL ∧
            identifier v' = match identifier v with
                            | Some (c :: cs) => Some (c :: cs)
                            | _ => None
                            end.
Proof.
  apply (save_load_round_trip db_abc "test.vdb" world_abc).
  - apply well_formed_db_abc.
  - reflexivity.
  - apply allocs_succeed_nil.
Defined.

(** C7: the defect.  The file [file_dims_overflow] (32 bytes) has a valid
    header that announces one vector of [2^62 + 1] floats, then four bytes of
    vector and an identifier length of 0.  The size of the vector in bytes,
    [dimensions * sizeof(float)], is computed as a [size_t] and wraps to 4: the
    buffer has four bytes, [fread] asks for four bytes and reports the vector as
    read in full.  The vector field is truncated, yet the load does not fail:
    it returns a database of one record whose dimensions are [2^62 + 1] and
    whose vector holds a single float. *)
Theorem vdb_load_dimensions_overflow :
  length file_dims_overflow = 32%nat ∧
  wrap64 ((2 ^ 62 + 1) * sizeof_float) = 4 ∧
  match vdb_load (Some "crafted.vdb"%string)
          (world_with_file "crafted.vdb" file_dims_overflow) with
  | Ret (Some db) w' =>
      vdb_dimensions (Some db) = 2 ^ 62 + 1 ∧ vdb_count (Some db) = 1 ∧
      vdb_get_vector (Some db) 0 w' = Ret (VDB_OK, Some (Vector [f_one] None NULL)) w' ∧
      live_blocks w' = 3%nat ∧ open_files w' = 0%nat
  | _ => False
  end.
Proof. vm_compute. split_all; reflexivity. Qed.

(** What holds of [vdb_load] on every file: the magic tag is checked first
    (a file without it is rejected before any allocation), and a call that
    returns gives either NULL, with every block freed and the stream closed,
    or a database with the header of the file and a record in each of the
    slots it announces. *)
Lemma vdb_load_all_or_nothing filename w :
  (∀ f bytes, filename = Some f → disk w f = Some bytes →
     (length bytes < 4)%nat ∨ decode_le (take 4 bytes) ≠ VDB_MAGIC →
     ∃ w', vdb_load filename w = Ret None w' ∧ same_resources w w' ∧
           alloc_plan w' = alloc_plan w) ∧
  (∀ r w', vdb_load filename w = Ret r w' →
     open_files w' = open_files w ∧
     match r with
     | None => live_blocks w' = live_blocks w
     | Some db =>
         cap_inv db ∧ live_inv db ∧
         live_blocks w' = (live_blocks w + owned_blocks db)%nat ∧
         ∃ f magic d c m rest,
           filename = Some f ∧ disk w f = Some (magic ++ d ++ c ++ m ++ rest) ∧
           length magic = 4%nat ∧ length d = 8%nat ∧ length c = 8%nat ∧ length m = 4%nat ∧
           decode_le magic = VDB_MAGIC ∧
           dimensions db = decode_le d ∧ count db = decode_le c ∧ metric db = decode_le m
     end).
Proof.
  split.
  - intros f bytes -> Hdisk Hbad.
    destruct (vdb_load_bad_magic f bytes w Hdisk Hbad) as (w' & ? & ? & ? & _).
    by exists w'.
  - intros r w' Hrun. apply vdb_load_Ret in Hrun as (? & _ & ?). by split.
Qed.

(** * The capacity invariant over the life of a database (claim C9) *)

Lemma vdb_remove_vector_Ret db i w e db' w' :
  cap_inv db → 0 <= i →
  vdb_remove_vector (Some db) i w = Ret (e, Some db') w' →
  cap_inv db' ∧ capacity db' = capacity db ∧
  (e = VDB_OK ∧ count db' = count db - 1 ∨ e = VDB_ERROR_INVALID_INDEX ∧ db' = db).
Proof.
  intros Hinv Hi H. pose proof Hinv as ((Hc0 & Hc) & Hcap & Hsz & Hnull).
  unfold vdb_remove_vector in H.
  destruct (i >=? count db) eqn:Hidx.
  { inv_ret H. split_all; try done. by right. }
  rewrite Z.geb_leb in Hidx. apply Z.leb_gt in Hidx.
  inv_bind H as v w1 Hr. apply read_slot_Ret in Hr as [Hv ->]; [|done].
  inv_bind H as u1 w2 Hf1. inv_bind H as u2 w3 Hf2.
  inv_bind H as slots' w4 Hmove. inv_ret H. simpl.
  assert (wrap64 (count db - 1) = count db - 1) as Hw.
  { unfold wrap64. apply Z.mod_small. unfold sizeof_vdb_vector in *. lia. }
  assert (length slots' = length (slots_of db)) as Hlen.
  { fold (slots_of db) in Hmove.
    destruct (i <? count db - 1).
    - destruct (_ <? _)%nat eqn:Hb in Hmove; [done|]. apply Nat.ltb_ge in Hb.
      inv_ret Hmove. rewrite length_insert in Hb.
      rewrite length_memmove_slots; rewrite length_insert; [done|lia..].
    - inv_ret Hmove. by rewrite length_insert. }
  unfold cap_inv, slots_of. simpl. rewrite Hlen, Hw.
  split_all; try done; try lia. left. by split.
Qed.

Lemma reachable_cap_inv db : reachable db → cap_inv db.
Proof.
  induction 1 as [dims m w db w' Hc|filename w db w' Hl
                  |db data id md w e db' w' _ IH Ha|db i w e db' w' _ IH Hi Hr].
  - apply vdb_create_Ret in Hc as (_ & _ & -> & _). apply cap_inv_empty.
  - by apply vdb_load_Ret in Hl as (_ & _ & ? & _).
  - by destruct (vdb_add_vector_Ret db data id md w e (Some db') w' IH Ha)
      as (db2 & [= <-] & ? & _).
  - by destruct (vdb_remove_vector_Ret db i w e db' w' IH Hi Hr) as (? & _).
Qed.

(** The capacity along a run: 0 on creation, 16 after the first insertion;
    sixteen insertions fill the array, the seventeenth doubles it. *)
Lemma capacity_growth_example :
  capacity empty_db3 = 0 ∧ capacity db_a77 = 16 ∧
  match add_many 16 query_a empty_db3 empty_world with
  | Ret db16 w16 =>
      count db16 = 16 ∧ capacity db16 = 16 ∧
      match vdb_add_vector (Some db16) (Some query_a) None NULL w16 with
      | Ret (VDB_OK, Some db17) _ => count db17 = 17 ∧ capacity db17 = 32
      | _ => False
      end
  | Fault => False
  end.
Proof. vm_compute. split_all; reflexivity. Qed.

(** * Further properties of the vector store *)

Lemma malloc_total size w : ∃ ok w', malloc size w = Ret ok w'.
Proof. unfold malloc. destruct (alloc_plan w) as [|[] ?]; by eexists _, _. Qed.

Lemma realloc_total held size w :
  (held = true → size ≠ 0) → ∃ ok w', realloc held size w = Ret ok w'.
Proof.
  intros Hsz. unfold realloc. destruct held.
  - specialize (Hsz eq_refl). apply Z.eqb_neq in Hsz. rewrite Hsz.
    destruct (alloc_plan w) as [|[] ?]; by eexists _, _.
  - apply malloc_total.
Qed.

(** [grow] returns whatever the allocator answers, and when it makes room
    there is room. *)
Lemma grow_total db w :
  cap_inv db → can_grow db →
  ∃ r w1, grow db w = Ret r w1 ∧
          match r with
          | Some db1 => cap_inv db1 ∧ count db1 = count db ∧ count db < capacity db1 ∧
                        dimensions db1 = dimensions db
          | None => True
          end.
Proof.
  intros Hinv Hgrow.
  assert (∃ r w1, grow db w = Ret r w1) as (r & w1 & Hrun).
  { unfold grow. destruct (count db >=? capacity db) eqn:Hfull; [|by eexists _, _].
    rewrite Z.geb_leb in Hfull. apply Z.leb_le in Hfull.
    destruct Hgrow as [?|Hgrow]; [lia|].
    destruct (realloc_total (is_held (vectors db))
                (wrap64 ((if capacity db =? 0 then 16 else wrap64 (capacity db * 2))
                         * sizeof_vdb_vector)) w) as (ok & w1 & Hr).
    - intros _. unfold wrap64, sizeof_vdb_vector in *.
      destruct Hinv as (? & ? & ? & ?).
      destruct (capacity db =? 0) eqn:E; [done|]. apply Z.eqb_neq in E.
      rewrite (Z.mod_small (capacity db * 2)) by lia.
      rewrite Z.mod_small by lia. lia.
    - rewrite (bind_run _ _ _ _ _ Hr). destruct ok; by eexists _, _. }
  exists r, w1. split; [done|]. destruct r as [db1|]; [|done].
  pose proof (grow_Ret db w _ w1 Hinv Hrun) as (_ & _ & _ & _ & Hg).
  destruct Hg as (_ & Hc & Hd & _ & Hcap & _ & [(Hinv1 & Hlt & _)|Hwrap]).
  - rewrite Hc. done.
  - exfalso. unfold grow in Hrun. unfold sizeof_vdb_vector in *.
    destruct Hinv as (? & ? & ? & ?).
    destruct (count db >=? capacity db) eqn:Hfull.
    + rewrite Z.geb_leb in Hfull. apply Z.leb_le in Hfull.
      destruct Hgrow as [?|Hgrow]; [lia|]. unfold sizeof_vdb_vector in *.
      inv_bind Hrun as ok w2 Hr2. destruct ok; inv_ret Hrun.
      unfold slots_of in Hwrap. simpl in Hwrap. rewrite length_resize_slots in Hwrap.
      unfold wrap64, sizeof_vdb_vector in Hwrap.
      destruct (capacity db =? 0) eqn:E.
      * apply Z.eqb_eq in E. change (Z.of_nat (Z.to_nat 16) <= count db) in Hwrap. lia.
      * rewrite (Z.mod_small (capacity db * 2)) in Hwrap by lia.
        rewrite Z.mod_small, Z.div_mul in Hwrap by lia. lia.
    + inv_ret Hrun. rewrite Z.geb_leb in Hfull. apply Z.leb_gt in Hfull.
      unfold sizeof_vdb_vector in *. lia.
Qed.

(** Whatever the allocator answers, [vdb_add_vector] returns when the
    caller's buffers can be read. *)
Lemma vdb_add_vector_total db data id md w :
  cap_inv db → can_grow db →
  (copied_floats db <= length data)%nat → (∀ s, id = Some s → NUL ∈ s) →
  ∃ e db' w', vdb_add_vector (Some db) (Some data) id md w = Ret (e, Some db') w'.
Proof.
  intros Hinv Hgrow Hdata Hid.
  assert (∃ r w', vdb_add_vector (Some db) (Some data) id md w = Ret r w')
    as ([e odb'] & w' & Hrun).
  { unfold vdb_add_vector.
    destruct (grow_total db w Hinv Hgrow) as (r & w1 & Hg & Hr).
    rewrite (bind_run _ _ _ _ _ Hg).
    destruct r as [db1|]; [|by eexists _, _].
    destruct Hr as (Hinv1 & Hc1 & Hlt & Hd).
    destruct Hinv1 as (? & Hlen & ? & Hnull). unfold slots_of in Hlen.
    destruct (vectors db1) as [slots|]; [|specialize (Hnull eq_refl); lia].
    simpl in Hlen.
    assert ((Z.of_nat (length slots) <=? count db1) = false) as -> by (apply Z.leb_gt; lia).
    destruct (malloc_total (wrap64 (dimensions db1 * sizeof_float)) w1) as (ok & w2 & Hm).
    rewrite (bind_run _ _ _ _ _ Hm). destruct ok; simpl; [|by eexists _, _].
    rewrite Hd. fold (copied_floats db).
    assert ((length data <? copied_floats db)%nat = false) as -> by (apply Nat.ltb_ge; lia).
    destruct id as [s|]; [|by eexists _, _].
    destruct (strlen_c_string s (Hid s eq_refl)) as (-> & _).
    destruct (malloc_total (wrap64 (Z.of_nat (length (c_string s)) + 1)) w2)
      as (ok3 & w3 & Hm3).
    rewrite (bind_run _ _ _ _ _ Hm3). destruct ok3; simpl; [by eexists _, _|].
    apply malloc_Ret in Hm as (Hl2 & _). apply malloc_Ret in Hm3 as (Hl3 & _).
    destruct (free_succeeds w3 (live_blocks w1)) as (w4 & Hf & _); [congruence|].
    rewrite (bind_run _ _ _ _ _ Hf). by eexists _, _. }
  destruct (vdb_add_vector_Ret db data id md w e odb' w' Hinv Hrun) as (db' & -> & _).
  by exists e, db', w'.
Qed.

(** What a removal that returns has done. *)
Lemma vdb_remove_vector_inv db i w e db' w' :
  cap_inv db → 0 <= i < count db →
  vdb_remove_vector (Some db) i w = Ret (e, Some db') w' →
  e = VDB_OK ∧
  ∃ v, record_at db i = Some v ∧
       count db' = count db - 1 ∧ capacity db' = capacity db ∧
       dimensions db' = dimensions db ∧ metric db' = metric db ∧
       is_held (vectors db') = is_held (vectors db) ∧
       (∀ j, 0 <= j < count db - 1 →
          record_at db' j = record_at db (if j <? i then j else j + 1)) ∧
       live_blocks w = (live_blocks w' + record_blocks (Some v))%nat ∧
       open_files w' = open_files w ∧ disk w' = disk w ∧ read_only w' = read_only w ∧
       alloc_plan w' = alloc_plan w.
Proof.
  intros Hinv Hi H. pose proof Hinv as ((Hc0 & Hc) & Hcap & Hsz & Hnull).
  unfold vdb_remove_vector in H.
  assert ((i >=? count db) = false) as Hidx by (rewrite Z.geb_leb; apply Z.leb_gt; lia).
  rewrite Hidx in H.
  inv_bind H as v w1 Hr. apply read_slot_Ret in Hr as [Hv ->]; [|lia].
  inv_bind H as u1 w2 Hf1. inv_bind H as u2 w3 Hf2.
  inv_bind H as slots' w4 Hmove.
  apply free_Ret in Hf1 as (Hl1 & Ho1 & Hd1 & Hr1 & Hp1).
  apply free_if_Ret in Hf2 as (Hl2 & Ho2 & Hd2 & Hr2 & Hp2).
  assert (wrap64 (count db - 1) = count db - 1) as Hw.
  { unfold wrap64. apply Z.mod_small. unfold sizeof_vdb_vector in *. lia. }
  pose proof Hv as [_ Hslot]%record_at_Some.
  assert (is_held (vectors db) = true) as Hheld.
  { unfold slots_of in Hslot. by destruct (vectors db). }
  fold (slots_of db) in Hmove.
  set (slots := <[Z.to_nat i := None]> (slots_of db)) in *.
  assert (length slots = length (slots_of db)) as Hlen' by apply length_insert.
  assert (w4 = w3 ∧
          ∀ j, 0 <= j < count db - 1 →
               mjoin (slots' !! Z.to_nat j)
               = record_at db (if j <? i then j else j + 1)) as [-> Hshift].
  { destruct (i <? count db - 1) eqn:Hlast.
    - apply Z.ltb_lt in Hlast.
      assert (wrap64 ((count db - i - 1) * sizeof_vdb_vector) / sizeof_vdb_vector
              = count db - i - 1) as Hn.
      { unfold wrap64. rewrite Z.mod_small by (unfold sizeof_vdb_vector in *; lia).
        unfold sizeof_vdb_vector. by rewrite Z.div_mul. }
      rewrite Hn in Hmove.
      destruct (_ <? _)%nat eqn:Hb in Hmove; [done|]. inv_ret Hmove. split; [done|].
      intros j Hj. rewrite lookup_memmove_slots by lia. unfold record_at.
      destruct (j <? i) eqn:Hji.
      + apply Z.ltb_lt in Hji. rewrite decide_True by lia.
        assert ((j <? 0) = false) as -> by (apply Z.ltb_ge; lia).
        subst slots. by rewrite list_lookup_insert_ne by lia.
      + apply Z.ltb_ge in Hji. rewrite decide_False by lia. rewrite decide_True by lia.
        assert ((j + 1 <? 0) = false) as -> by (apply Z.ltb_ge; lia).
        subst slots. rewrite list_lookup_insert_ne by lia. do 2 f_equal. lia.
    - apply Z.ltb_ge in Hlast. inv_ret Hmove. split; [done|].
      intros j Hj. assert ((j <? i) = true) as -> by (apply Z.ltb_lt; lia).
      unfold record_at. assert ((j <? 0) = false) as -> by (apply Z.ltb_ge; lia).
      by rewrite list_lookup_insert_ne by lia. }
  inv_ret H. split; [done|]. exists v. simpl. rewrite Hw, Hheld.
  split_all; try done; try congruence.
  - intros j Hj. rewrite <- Hshift by done. unfold record_at at 1, slots_of. simpl.
    by assert ((j <? 0) = false) as -> by (apply Z.ltb_ge; lia).
  - simpl. destruct (is_held (id v)); lia.
Qed.

Lemma sum_list_app_nat (l k : list nat) : sum_list (l ++ k) = (sum_list l + sum_list k)%nat.
Proof. induction l as [|x l IH]; simpl; [done|]. rewrite IH. lia. Qed.

(** The blocks a database owns before and after the removal of a record. *)
Lemma owned_blocks_remove db db' i v :
  0 <= i < count db → record_at db i = Some v → count db' = count db - 1 →
  is_held (vectors db') = is_held (vectors db) →
  (∀ j, 0 <= j < count db - 1 →
     record_at db' j = record_at db (if j <? i then j else j + 1)) →
  owned_blocks db = (owned_blocks db' + record_blocks (Some v))%nat.
Proof.
  intros Hi Hv Hc Hheld Hshift. unfold owned_blocks. rewrite Hheld, Hc.
  set (f := λ k : nat, record_blocks (record_at db (Z.of_nat k))).
  set (g := λ k : nat, record_blocks (record_at db' (Z.of_nat k))).
  set (a := Z.to_nat i). set (b := (Z.to_nat (count db) - a - 1)%nat).
  replace (Z.to_nat (count db)) with (a + S b)%nat by lia.
  replace (Z.to_nat (count db - 1)) with (a + b)%nat by lia.
  rewrite !seq_app, !fmap_app, !sum_list_app_nat.
  change (0 + a)%nat with a. cbn [seq]. rewrite fmap_cons. cbn [sum_list].
  assert (f <$> seq 0 a = g <$> seq 0 a) as ->.
  { apply list_fmap_ext. intros k j Hj. apply lookup_seq in Hj as [-> Hj]. simpl.
    unfold f, g. rewrite Hshift by lia.
    by assert ((Z.of_nat k <? i) = true) as -> by (apply Z.ltb_lt; lia). }
  assert (f <$> seq (S a) b = g <$> seq a b) as ->.
  { rewrite <- fmap_S_seq, <- list_fmap_compose.
    apply list_fmap_ext. intros k j Hj. apply lookup_seq in Hj as [-> Hj]. simpl.
    unfold f, g. rewrite Hshift by lia.
    assert ((Z.of_nat (a + k) <? i) = false) as -> by (apply Z.ltb_ge; lia).
    do 2 f_equal. lia. }
  assert (f a = record_blocks (Some v)) as ->.
  { unfold f, a. by rewrite Z2Nat.id, Hv by lia. }
  unfold Datatypes.id. generalize (record_blocks (Some v)). intros n.
  destruct (is_held (vectors db)); lia.
Qed.

(** X1: insertion and lookup compose.  After an insert that returns
    [VDB_OK], [vdb_get_vector] at the old [count] yields the record just
    stored (the floats copied from the buffer, which are the first
    [dimensions] whenever the buffer is an object of at least [dimensions]
    floats, and the first [(dimensions * 4 mod 2^64) / 4] in general; the
    copy of the identifier; the attachment pointer) and [vdb_count] is one
    more; the index after it is out of range; every index that could be
    read before yields what it yielded. *)
Theorem vdb_add_then_get (db : vdb_database) (data : list c_float)
    (id : option (list byte)) (md : void_ptr) (w : world) (db' : vdb_database) (w' : world) :
  cap_inv db → (∀ s, id = Some s → Z.of_nat (length s) < 2 ^ 64) →
  vdb_add_vector (Some db) (Some data) id md w = Ret (VDB_OK, Some db') w' →
  vdb_get_vector (Some db') (count db) w'
    = Ret (VDB_OK, Some (Vector (take (copied_floats db) data)
                                ((λ s, c_string s ++ [NUL]) <$> id) md)) w' ∧
  (0 <= dimensions db <= Z.of_nat (length data) →
   Z.of_nat (length data) * sizeof_float < 2 ^ 64 →
   copied_floats db = Z.to_nat (dimensions db)) ∧
  vdb_count (Some db') = vdb_count (Some db) + 1 ∧
  vdb_get_vector (Some db') (vdb_count (Some db')) w' = Ret (VDB_ERROR_INVALID_INDEX, None) w' ∧
  ∀ i v, 0 <= i →
    vdb_get_vector (Some db) i w = Ret (VDB_OK, Some v) w →
    vdb_get_vector (Some db') i w' = Ret (VDB_OK, Some v) w'.
Proof.
  intros Hinv Hid Hrun.
  destruct (vdb_add_vector_new_record db data id md w db' w' Hinv Hid Hrun)
    as (Hlen & Hc & Hnew).
  destruct (vdb_add_vector_Ret db data id md w VDB_OK (Some db') w' Hinv Hrun)
    as (db2 & [= <-] & _ & _ & _ & _ & _ & _ & Hrec & _).
  assert (0 <= count db) as Hc0 by (destruct Hinv as ((? & ?) & _); lia).
  split_all.
  - apply vdb_get_vector_live; [lia|done].
  - apply copied_floats_object.
  - done.
  - simpl. unfold vdb_get_vector.
    by assert ((count db' >=? count db') = true) as -> by (rewrite Z.geb_leb; apply Z.leb_le; lia).
  - intros i v Hi Hget. unfold vdb_get_vector in Hget.
    destruct (i >=? count db) eqn:Hidx; [by inv_ret Hget|].
    rewrite Z.geb_leb in Hidx. apply Z.leb_gt in Hidx.
    inv_bind Hget as v0 w0 Hr. apply read_slot_Ret in Hr as [Hv ->]; [|done].
    inv_ret Hget. apply vdb_get_vector_live; [lia|]. by rewrite Hrec by lia.
Qed.

Lemma vdb_add_then_get_witness :
  vdb_get_vector (Some db_abcd) (count db_abc) world_abcd
    = Ret (VDB_OK, Some (Vector (take (copied_floats db_abc) (floats [0; 0; 1]))
                                ((λ s, c_string s ++ [NUL]) <$> Some (c_str "d")) 77))
          world_abcd ∧
  (0 <= dimensions db_abc <= Z.of_nat (length (floats [0; 0; 1])) →
   Z.of_nat (length (floats [0; 0; 1])) * sizeof_float < 2 ^ 64 →
   copied_floats db_abc = Z.to_nat (dimensions db_abc)) ∧
  vdb_count (Some db_abcd) = vdb_count (Some db_abc) + 1 ∧
  vdb_get_vector (Some db_abcd) (vdb_count (Some db_abcd)) world_abcd
    = Ret (VDB_ERROR_INVALID_INDEX, None) world_abcd ∧
  ∀ i v, 0 <= i →
    vdb_get_vector (Some db_abc) i world_abc = Ret (VDB_OK, Some v) world_abc →
    vdb_get_vector (Some db_abcd) i world_abcd = Ret (VDB_OK, Some v) world_abcd.
Proof.
  apply (vdb_add_then_get db_abc (floats [0; 0; 1]) (Some (c_str "d")) 77
           world_abc db_abcd world_abcd).
  - apply cap_inv_db_abc.
  - intros s [= <-]. simpl. lia.
  - vm_compute. reflexivity.
Defined.

(** X2: an insert that fails for lack of memory is undone.  When
    [vdb_add_vector] returns [VDB_ERROR_OUT_OF_MEMORY], [count], the
    dimensions, the metric and every stored record are as before, no file is
    touched, and no block is lost: the heap holds what it held, plus the
    array of slots if this call was the one to allocate it. *)
Theorem vdb_add_vector_out_of_memory (db : vdb_database) (data : list c_float)
    (id : option (list byte)) (md : void_ptr) (w : world) (db' : vdb_database) (w' : world) :
  cap_inv db →
  vdb_add_vector (Some db) (Some data) id md w = Ret (VDB_ERROR_OUT_OF_MEMORY, Some db') w' →
  count db' = count db ∧ dimensions db' = dimensions db ∧ metric db' = metric db ∧
  (∀ i, 0 <= i < count db → record_at db' i = record_at db i) ∧
  live_blocks w' = (live_blocks w + new_array db db')%nat ∧
  (live_blocks w' + owned_blocks db = live_blocks w + owned_blocks db')%nat ∧
  open_files w' = open_files w ∧ disk w' = disk w ∧
  ¬ allocs_succeed w.
Proof.
  intros Hinv Hrun.
  destruct (vdb_add_vector_owned db data id md w _ db' w' Hinv Hrun) as [Hown _].
  destruct (vdb_add_vector_Ret db data id md w _ (Some db') w' Hinv Hrun)
    as (db2 & [= <-] & _ & Hd & Hm & Ho & Hdisk & _ & Hrec & Hok & _ & Hc & _ & Hl).
  split_all; try done. intros Hs. by destruct (Hok Hs).
Qed.

Lemma vdb_add_vector_out_of_memory_witness :
  vdb_add_vector (Some db_a77) (Some query_a) (Some (c_str "b")) NULL
      (World 3 0 [true; false] (λ _, None) (λ _, false))
    = Ret (VDB_ERROR_OUT_OF_MEMORY, Some db_a77) (World 3 0 [] (λ _, None) (λ _, false)) ∧
  count db_a77 = count db_a77 ∧ dimensions db_a77 = dimensions db_a77 ∧
  metric db_a77 = metric db_a77 ∧
  (∀ i, 0 <= i < count db_a77 → record_at db_a77 i = record_at db_a77 i) ∧
  live_blocks (World 3 0 [] (λ _, None) (λ _, false))
    = (live_blocks (World 3 0 [true; false] (λ _, None) (λ _, false))
       + new_array db_a77 db_a77)%nat ∧
  (live_blocks (World 3 0 [] (λ _, None) (λ _, false)) + owned_blocks db_a77
   = live_blocks (World 3 0 [true; false] (λ _, None) (λ _, false))
     + owned_blocks db_a77)%nat ∧
  open_files (World 3 0 [] (λ _, None) (λ _, false))
    = open_files (World 3 0 [true; false] (λ _, None) (λ _, false)) ∧
  disk (World 3 0 [] (λ _, None) (λ _, false))
    = disk (World 3 0 [true; false] (λ _, None) (λ _, false)) ∧
  ¬ allocs_succeed (World 3 0 [true; false] (λ _, None) (λ _, false)).
Proof.
  assert (vdb_add_vector (Some db_a77) (Some query_a) (Some (c_str "b")) NULL
            (World 3 0 [true; false] (λ _, None) (λ _, false))
          = Ret (VDB_ERROR_OUT_OF_MEMORY, Some db_a77)
                (World 3 0 [] (λ _, None) (λ _, false))) as E
    by (vm_compute; reflexivity).
  split; [exact E|].
  apply (vdb_add_vector_out_of_memory db_a77 query_a (Some (c_str "b")) NULL
           (World 3 0 [true; false] (λ _, None) (λ _, false)) db_a77
           (World 3 0 [] (λ _, None) (λ _, false))).
  - unfold cap_inv, slots_of, sizeof_vdb_vector. simpl. split_all; first [done|lia].
  - exact E.
Defined.

(** X3: a removal releases what the record owned, and nothing else.  When
    [vdb_remove_vector] returns for an index below [count], it returns
    [VDB_OK]; the heap has lost exactly the blocks of the removed record (its
    vector, and its identifier when it had one), which no longer count among
    those the database owns; the dimensions, the metric, the capacity, the
    files and the allocator are untouched. *)
Theorem vdb_remove_vector_releases (db : vdb_database) (i : Z) (w : world)
    (e : vdb_error) (db' : vdb_database) (w' : world) :
  cap_inv db → 0 <= i < count db →
  vdb_remove_vector (Some db) i w = Ret (e, Some db') w' →
  e = VDB_OK ∧
  ∃ v, record_at db i = Some v ∧
       live_blocks w = (live_blocks w' + (if is_held (id v) then 2 else 1))%nat ∧
       owned_blocks db = (owned_blocks db' + (if is_held (id v) then 2 else 1))%nat ∧
       dimensions db' = dimensions db ∧ metric db' = metric db ∧
       capacity db' = capacity db ∧
       open_files w' = open_files w ∧ disk w' = disk w ∧ alloc_plan w' = alloc_plan w.
Proof.
  intros Hinv Hi Hrun.
  destruct (vdb_remove_vector_inv db i w e db' w' Hinv Hi Hrun)
    as (-> & v & Hv & Hc & Hcap & Hd & Hm & Hheld & Hshift & Hl & Ho & Hdisk & _ & Hp).
  split; [done|]. exists v.
  pose proof (owned_blocks_remove db db' i v Hi Hv Hc Hheld Hshift) as Hown.
  simpl in Hl, Hown. split_all; done.
Qed.

Lemma vdb_remove_vector_releases_witness :
  ∃ db' w',
    vdb_remove_vector (Some db_abc) 1 world_abc = Ret (VDB_OK, Some db') w' ∧
    VDB_OK = VDB_OK ∧
    ∃ v, record_at db_abc 1 = Some v ∧
         live_blocks world_abc = (live_blocks w' + (if is_held (id v) then 2 else 1))%nat ∧
         owned_blocks db_abc = (owned_blocks db' + (if is_held (id v) then 2 else 1))%nat ∧
         dimensions db' = dimensions db_abc ∧ metric db' = metric db_abc ∧
         capacity db' = capacity db_abc ∧
         open_files w' = open_files world_abc ∧ disk w' = disk world_abc ∧
         alloc_plan w' = alloc_plan world_abc.
Proof.
  eexists _, _. split; [vm_compute; reflexivity|].
  eapply (vdb_remove_vector_releases db_abc 1 world_abc VDB_OK).
  - apply cap_inv_db_abc.
  - simpl. lia.
  - vm_compute. reflexivity.
Defined.

(** X4: [vdb_destroy] releases everything the database owns.  On a
    database whose slots in use are initialised, in a heap that holds its
    blocks, the call returns and the heap has lost exactly the blocks the
    database owned: the structure, the array of slots if there is one, and
    the one or two blocks of every record in use; no file is touched.
    [vdb_destroy(NULL)] does nothing. *)
Theorem vdb_destroy_releases (db : vdb_database) (w : world) :
  vdb_destroy None w = Ret tt w ∧
  (cap_inv db → live_inv db → (owned_blocks db <= live_blocks w)%nat →
   ∃ w', vdb_destroy (Some db) w = Ret tt w' ∧
         live_blocks w = (live_blocks w' + owned_blocks db)%nat ∧
         open_files w' = open_files w ∧ disk w' = disk w ∧
         alloc_plan w' = alloc_plan w).
Proof.
  split; [done|]. intros Hinv Hlive Hown.
  destruct (vdb_destroy_run db w Hinv Hlive Hown) as (w' & Hrun & Hl & Ho & Hd & _ & Hp).
  by exists w'.
Qed.

Lemma vdb_destroy_releases_witness :
  vdb_destroy None world_abc = Ret tt world_abc ∧
  ∃ w', vdb_destroy (Some db_abc) world_abc = Ret tt w' ∧
        live_blocks world_abc = (live_blocks w' + owned_blocks db_abc)%nat ∧
        open_files w' = open_files world_abc ∧ disk w' = disk world_abc ∧
        alloc_plan w' = alloc_plan world_abc.
Proof.
  split.
  - apply (proj1 (vdb_destroy_releases db_abc world_abc)).
  - apply (proj2 (vdb_destroy_releases db_abc world_abc)).
    + apply cap_inv_db_abc.
    + apply live_inv_db_abc.
    + vm_compute. lia.
Defined.

(** The changes of a session keep the invariants of the store and the
    account of the heap, whatever the allocator answers. *)
Lemma apply_ops_run ops :
  ∀ db w,
    cap_inv db → live_inv db → dims_fit db → (owned_blocks db <= live_blocks w)%nat →
    2 * (count db + Z.of_nat (length ops)) * sizeof_vdb_vector < 2 ^ 64 →
    Forall (valid_op (dimensions db)) ops →
    ∃ db' w',
      apply_ops ops db w = Ret db' w' ∧ cap_inv db' ∧ live_inv db' ∧
      (live_blocks w' + owned_blocks db = live_blocks w + owned_blocks db')%nat ∧
      open_files w' = open_files w ∧ disk w' = disk w ∧
      dimensions db' = dimensions db ∧ metric db' = metric db.
Proof.
  induction ops as [|op ops IH]; intros db w Hinv Hlive Hdims Hheap Hsz Hops.
  - exists db, w. simpl. by split_all.
  - apply Forall_cons in Hops as [Hop Hops]. simpl in Hsz.
    assert (∃ db1 w1,
              apply_op op db w = Ret db1 w1 ∧ cap_inv db1 ∧ live_inv db1 ∧
              (live_blocks w1 + owned_blocks db = live_blocks w + owned_blocks db1)%nat ∧
              open_files w1 = open_files w ∧ disk w1 = disk w ∧
              dimensions db1 = dimensions db ∧ metric db1 = metric db ∧
              count db1 <= count db + 1) as Hstep.
    { destruct op as [a|i]; simpl in Hop.
      - destruct Hop as [Hdata Hid].
        destruct (vdb_add_vector_total db (arg_data a) (arg_id a) (arg_metadata a) w)
          as (e & db1 & w1 & Hrun); try done.
        { apply (can_grow_bound db (Z.of_nat (S (length ops)))); [done|done|lia]. }
        { rewrite copied_floats_fit by done. lia. }
        destruct (vdb_add_vector_owned db _ _ _ w e db1 w1 Hinv Hrun) as [Hown Hlive1].
        destruct (vdb_add_vector_Ret db _ _ _ w e (Some db1) w1 Hinv Hrun)
          as (db2 & [= <-] & Hinv1 & Hd & Hm & Ho & Hdisk & _ & _ & _ & _ & He).
        exists db1, w1. simpl. rewrite (bind_run _ _ _ _ _ Hrun). simpl.
        split_all; try done; [by apply Hlive1|].
        destruct e; try done; destruct He as (-> & _); lia.
      - destruct (decide (i < count db)) as [Hlt|Hge].
        + destruct (Hlive i (conj Hop Hlt)) as [v Hv].
          destruct (vdb_remove_vector_run db i v w Hinv Hheap (conj Hop Hlt) Hv)
            as (db1 & w1 & Hrun & _ & _ & _ & _ & Hinv1 & _).
          destruct (vdb_remove_vector_inv db i w _ db1 w1 Hinv (conj Hop Hlt) Hrun)
            as (_ & v' & Hv' & Hc & _ & Hd & Hm & Hheld & Hshift & Hl & Ho & Hdisk & _).
          pose proof (owned_blocks_remove db db1 i v' (conj Hop Hlt) Hv' Hc Hheld Hshift)
            as Hown.
          exists db1, w1. simpl. rewrite (bind_run _ _ _ _ _ Hrun). simpl.
          split_all; try done; try lia.
          intros j Hj. rewrite Hshift by lia. apply Hlive. destruct (j <? i); lia.
        + exists db, w. simpl. unfold vdb_remove_vector, bind.
          assert ((i >=? count db) = true) as ->
            by (rewrite Z.geb_leb; apply Z.leb_le; lia).
          simpl. split_all; try done. lia. }
    destruct Hstep as (db1 & w1 & Hrun & Hinv1 & Hlive1 & Hown & Ho & Hdisk & Hd & Hm & Hc).
    destruct (IH db1 w1) as (db' & w' & Hrest & Hinv' & Hlive' & Hown' & Ho' & Hdisk'
                             & Hd' & Hm'); try done.
    { unfold dims_fit in *. by rewrite Hd. }
    { lia. }
    { unfold sizeof_vdb_vector in *. lia. }
    { by rewrite Hd. }
    exists db', w'. simpl. rewrite (bind_run _ _ _ _ _ Hrun).
    split_all; try done; try congruence; lia.
Qed.

(** X5: a session leaks nothing.  [vdb_create], then any sequence of
    insertions from readable buffers and of removals (in range or not),
    then [vdb_destroy]: the program returns and holds as many heap blocks
    as before, with no file touched, whichever of the allocation requests
    along the way fail. *)
Theorem session_leaks_nothing (dims : Z) (m : vdb_metric) (ops : list store_op)
    (w : world) :
  0 <= dims → dims * sizeof_float < 2 ^ 64 →
  2 * Z.of_nat (length ops) * sizeof_vdb_vector < 2 ^ 64 →
  Forall (valid_op dims) ops →
  ∃ w', session dims m ops w = Ret tt w' ∧
        live_blocks w' = live_blocks w ∧ open_files w' = open_files w ∧
        disk w' = disk w.
Proof.
  intros Hd0 Hd Hsz Hops. unfold session.
  destruct (decide (dims = 0)) as [->|Hne]; [by exists w|].
  destruct (vdb_create dims m w) as [[db|] w1|] eqn:Hc.
  - rewrite (bind_run _ _ _ _ _ Hc).
    apply vdb_create_Ret in Hc as (Ho1 & Hdisk1 & -> & Hl1).
    destruct (apply_ops_run ops (Database None 0 0 dims m) w1)
      as (db' & w2 & Hrun & Hinv & Hlive & Hown & Ho2 & Hdisk2 & _).
    { apply cap_inv_empty. }
    { apply live_inv_empty. }
    { unfold dims_fit. simpl. split; [lia|done]. }
    { change (owned_blocks (Database None 0 0 dims m)) with 1%nat. lia. }
    { simpl. lia. }
    { done. }
    rewrite (bind_run _ _ _ _ _ Hrun).
    change (owned_blocks (Database None 0 0 dims m)) with 1%nat in Hown.
    destruct (vdb_destroy_run db' w2 Hinv Hlive) as (w3 & Hdes & Hl3 & Ho3 & Hdisk3 & _);
      [lia|].
    exists w3. split_all; [done|lia|congruence|congruence].
  - rewrite (bind_run _ _ _ _ _ Hc).
    apply vdb_create_Ret in Hc as (Ho1 & Hdisk1 & Hl1).
    exists w1. by split_all.
  - exfalso. unfold vdb_create in Hc. destruct (dims =? 0); [done|].
    destruct (malloc_total 40 w) as (ok & w1 & Hm).
    rewrite (bind_run _ _ _ _ _ Hm) in Hc. by destruct ok.
Qed.

Lemma session_leaks_nothing_witness :
  ∃ w', session 3 VDB_METRIC_COSINE some_ops
          (World 0 0 [true; true; true; false] (λ _, None) (λ _, false)) = Ret tt w' ∧
        live_blocks w'
          = live_blocks (World 0 0 [true; true; true; false] (λ _, None) (λ _, false)) ∧
        open_files w'
          = open_files (World 0 0 [true; true; true; false] (λ _, None) (λ _, false)) ∧
        disk w' = disk (World 0 0 [true; true; true; false] (λ _, None) (λ _, false)).
Proof.
  apply (session_leaks_nothing 3 VDB_METRIC_COSINE some_ops).
  - lia.
  - unfold sizeof_float. lia.
  - unfold sizeof_vdb_vector. simpl. lia.
  - repeat constructor; simpl; try lia.
    + intros s [= <-]. apply NUL_in_c_str.
    + intros s [=].
Defined.

(** * What every reachable database satisfies *)

Lemma vdb_add_vector_rep_inv db data id md w e db' w' :
  cap_inv db → rep_inv db →
  vdb_add_vector (Some db) (Some data) id md w = Ret (e, Some db') w' → rep_inv db'.
Proof.
  intros Hinv [Hd Hrecs] Hrun.
  destruct (vdb_add_vector_Ret db data id md w e (Some db') w' Hinv Hrun)
    as (db2 & [= <-] & _ & Hd' & _ & _ & _ & _ & Hrec & _ & _ & He).
  assert (copied_floats db' = copied_floats db) as Hcf by (unfold copied_floats; by rewrite Hd').
  split; [by rewrite Hd'|]. intros i Hi. rewrite Hcf.
  destruct e; try done.
  - destruct He as (Hc & _ & Hlen & _ & Hnew & _).
    destruct (decide (i = count db)) as [->|Hne].
    + eexists. split; [exact Hnew|]. simpl. rewrite length_take. lia.
    + rewrite Hrec by lia. apply Hrecs. lia.
  - destruct He as (Hc & _). rewrite Hrec by lia. apply Hrecs. lia.
Qed.

Lemma vdb_remove_vector_rep_inv db i w e db' w' :
  cap_inv db → rep_inv db → 0 <= i →
  vdb_remove_vector (Some db) i w = Ret (e, Some db') w' → rep_inv db'.
Proof.
  intros Hinv [Hd Hrecs] Hi Hrun.
  destruct (decide (i < count db)) as [Hlt|Hge].
  - destruct (vdb_remove_vector_inv db i w e db' w' Hinv (conj Hi Hlt) Hrun)
      as (_ & v & _ & Hc & _ & Hd' & _ & _ & Hshift & _).
    assert (copied_floats db' = copied_floats db) as Hcf
      by (unfold copied_floats; by rewrite Hd').
    split; [by rewrite Hd'|]. intros j Hj. rewrite Hcf, Hshift by lia.
    apply Hrecs. destruct (j <? i); lia.
  - unfold vdb_remove_vector in Hrun.
    assert ((i >=? count db) = true) as Hidx by (rewrite Z.geb_leb; apply Z.leb_le; lia).
    rewrite Hidx in Hrun. inv_ret Hrun. by split.
Qed.

Section LoadKeeps.

Variable P : vdb_database → Prop.
Hypothesis add_keeps :
  ∀ db data id w db' w',
    cap_inv db → P db →
    vdb_add_vector (Some db) (Some data) id NULL w = Ret (VDB_OK, Some db') w' → P db'.

Lemma load_add_keeps next db data id stream w db' w' :
  cap_inv db → P db →
  (∀ db1 s1 w1 w1', cap_inv db1 → P db1 → next db1 s1 w1 = Ret (Some db') w1' → P db') →
  load_add next db data id stream w = Ret (Some db') w' → P db'.
Proof using add_keeps.
  intros Hinv HP Hnext H. unfold load_add in H.
  inv_bind H as ra w1 Hadd. destruct ra as [e odb1].
  destruct (vdb_add_vector_Ret db data id NULL w e odb1 w1 Hinv Hadd)
    as (db1 & -> & Hinv1 & _ & _ & _ & _ & _ & _ & _ & _ & He).
  inv_bind H as u2 w2 H2. inv_bind H as u3 w3 H3.
  destruct e; try done.
  - pose proof (add_keeps _ _ _ _ _ _ Hinv HP Hadd) as HP1. by eapply Hnext.
  - inv_bind H as u4 w4 H4. inv_bind H as u5 w5 H5. by inv_ret H.
Qed.

Lemma load_records_keeps n :
  ∀ dims db stream w db' w',
    cap_inv db → P db →
    load_records n dims db stream w = Ret (Some db') w' → P db'.
Proof using add_keeps.
  induction n as [|n IH]; intros dims db stream w db' w' Hinv HP H.
  - simpl in H. inv_bind H as u w1 Hc. by inv_ret H.
  - cbn [load_records] in H. cbv zeta in H.
    assert (∀ dh ih w0 w0', load_abort dh ih db w0 = Ret (Some db') w0' → False) as Habort.
    { intros dh ih w0 w0' Ha. by apply load_abort_Ret in Ha as [_ ?]. }
    inv_bind H as ok w1 Hm. destruct ok; simpl in H; [|by apply Habort in H].
    inv_bind H as r1 w2 Hf. destruct r1 as [[bytes|] stream1]; [|by apply Habort in H].
    inv_bind H as r2 w3 Hf2. destruct r2 as [[len_bytes|] stream2]; [|by apply Habort in H].
    destruct (decode_le len_bytes >? 0).
    + inv_bind H as ok w4 Hm4. destruct ok; simpl in H; [|by apply Habort in H].
      inv_bind H as r3 w5 Hf3. destruct r3 as [[id_bytes|] stream3]; [|by apply Habort in H].
      destruct (wrap32 (decode_le len_bytes + 1) <=? decode_le len_bytes); [done|].
      eapply load_add_keeps; [exact Hinv|exact HP| |exact H].
      intros db1 s1 wa wa' ? ?. by apply IH.
    + eapply load_add_keeps; [exact Hinv|exact HP| |exact H].
      intros db1 s1 wa wa' ? ?. by apply IH.
Qed.

Lemma vdb_load_keeps filename w db w' :
  (∀ d m, d ≠ 0 → P (Database None 0 0 d m)) →
  vdb_load filename w = Ret (Some db) w' → P db.
Proof using add_keeps.
  intros Hfresh H. unfold vdb_load in H. destruct filename as [f|]; [|by inv_ret H].
  inv_bind H as stream w1 Hopen. destruct stream as [bytes|]; [|by inv_ret H].
  assert (∀ wa wb, (_ <- fclose ;; ret None) wa = Ret (Some db) wb → False) as Hclose.
  { intros wa wb Hc. inv_bind Hc as u wc Hc'. by inv_ret Hc. }
  inv_bind H as r1 w2 Hf. destruct r1 as [[magic|] s1]; [|by apply Hclose in H].
  destruct (decode_le magic =? VDB_MAGIC); simpl in H; [|by apply Hclose in H].
  inv_bind H as r2 w3 Hf2. destruct r2 as [[d|] s2]; [|by apply Hclose in H].
  inv_bind H as r3 w4 Hf3. destruct r3 as [[c|] s3]; [|by apply Hclose in H].
  inv_bind H as r4 w5 Hf4. destruct r4 as [[m|] s4]; [|by apply Hclose in H].
  inv_bind H as odb w6 Hcreate. destruct odb as [db0|]; [|by apply Hclose in H].
  assert (decode_le d ≠ 0 ∧ db0 = Database None 0 0 (decode_le d) (decode_le m)) as [Hd ->].
  { unfold vdb_create in Hcreate. destruct (decode_le d =? 0) eqn:E; [by inv_ret Hcreate|].
    apply Z.eqb_neq in E. split; [done|].
    inv_bind Hcreate as ok w7 Hm. destruct ok; by inv_ret Hcreate. }
  eapply load_records_keeps; [apply cap_inv_empty|by apply Hfresh|exact H].
Qed.

End LoadKeeps.

Lemma reachable_rep_inv db : reachable db → rep_inv db.
Proof.
  induction 1 as [dims m w db w' Hc|filename w db w' Hl
                  |db data id md w e db' w' Hreach IH Ha|db i w e db' w' Hreach IH Hi Hr].
  - unfold vdb_create in Hc. destruct (dims =? 0) eqn:E; [by inv_ret Hc|].
    apply Z.eqb_neq in E. inv_bind Hc as ok w1 Hm. destruct ok; inv_ret Hc.
    split; [done|]. simpl. intros i Hi. lia.
  - apply (vdb_load_keeps rep_inv (λ db data id w, vdb_add_vector_rep_inv db data id NULL w VDB_OK)
             filename w db w'); [|done].
    intros d m Hd. split; [done|]. simpl. intros i Hi. lia.
  - eapply vdb_add_vector_rep_inv; [by apply reachable_cap_inv|done..].
  - eapply vdb_remove_vector_rep_inv; [by apply reachable_cap_inv|done..].
Qed.

(** X6: what holds of every database a program can hold (returned by
    [vdb_create] or [vdb_load], then changed by any insertions and removals,
    successful or not).  Its dimensions are not zero; [vdb_get_vector]
    returns [VDB_OK] at every index below [count], with a vector of exactly
    [dimensions] floats (when a vector of that many floats is an object),
    and [VDB_ERROR_INVALID_INDEX] at every other index; it never reads an
    uninitialised slot and changes nothing. *)
Theorem reachable_get_vector (db : vdb_database) (i : Z) (w : world) :
  reachable db →
  vdb_dimensions (Some db) ≠ 0 ∧ 0 <= vdb_count (Some db) ∧
  (0 <= i < count db →
     ∃ v, vdb_get_vector (Some db) i w = Ret (VDB_OK, Some v) w ∧
          (dims_fit db → Z.of_nat (length (data v)) = dimensions db)) ∧
  (count db <= i → vdb_get_vector (Some db) i w = Ret (VDB_ERROR_INVALID_INDEX, None) w).
Proof.
  intros Hreach.
  pose proof (reachable_cap_inv db Hreach) as Hinv.
  pose proof (reachable_rep_inv db Hreach) as [Hd Hrecs].
  assert (0 <= count db) as Hc0 by (destruct Hinv as ((? & ?) & _); lia).
  split_all; try done.
  - intros Hi. destruct (Hrecs i Hi) as (v & Hv & Hlen). exists v.
    split; [by apply vdb_get_vector_live|].
    intros Hfit. rewrite Hlen, copied_floats_fit by done. destruct Hfit. lia.
  - intros Hi. unfold vdb_get_vector.
    by assert ((i >=? count db) = true) as -> by (rewrite Z.geb_leb; apply Z.leb_le; lia).
Qed.

Lemma reachable_get_vector_witness :
  vdb_dimensions (Some db_a77) ≠ 0 ∧ 0 <= vdb_count (Some db_a77) ∧
  (0 <= 0 < count db_a77 →
     ∃ v, vdb_get_vector (Some db_a77) 0 empty_world = Ret (VDB_OK, Some v) empty_world ∧
          (dims_fit db_a77 → Z.of_nat (length (data v)) = dimensions db_a77)) ∧
  (count db_a77 <= 0 →
     vdb_get_vector (Some db_a77) 0 empty_world
       = Ret (VDB_ERROR_INVALID_INDEX, None) empty_world).
Proof.
  apply (reachable_get_vector db_a77 0 empty_world).
  apply (reach_add empty_db3 (floats [1; 0; 0]) (Some (c_str "a")) 77 empty_world VDB_OK
           db_a77 (World 3 0 [] (λ _, None) (λ _, false))).
  - apply (reach_create 3 VDB_METRIC_COSINE empty_world empty_db3
             (World 1 0 [] (λ _, None) (λ _, false))).
    reflexivity.
  - vm_compute. reflexivity.
Defined.

(** * Further properties of the search *)

Lemma score_record_Ret db query i arr w arr' w' :
  score_record db query i arr w = Ret arr' w' → w' = w ∧ length arr' = length arr.
Proof.
  unfold score_record. intros H. destruct (_ <=? _)%nat; [done|].
  inv_bind H as v w1 Hr. apply read_slot_Ret in Hr as [_ ->]; [|lia].
  destruct (_ && _); [done|]. inv_ret H. by rewrite length_insert.
Qed.

Lemma score_loop_Ret db query n :
  ∀ lo arr w arr' w',
    for_rangeM lo n (score_record db query) arr w = Ret arr' w' → w' = w.
Proof.
  induction n as [|n IH]; intros lo arr w arr' w' H; simpl in H.
  - by inv_ret H.
  - inv_bind H as arr1 w1 H1. apply score_record_Ret in H1 as [-> _]. by eapply IH.
Qed.

Lemma index_candidates db query :
  index <$> candidates db query = Z.of_nat <$> seq 0 (length (records db)).
Proof.
  unfold candidates. apply list_eq. intros i.
  rewrite !list_lookup_fmap, list_lookup_imap.
  destruct (records db !! i) as [v|] eqn:E; simpl.
  - rewrite lookup_seq_lt by (by eapply lookup_lt_Some). done.
  - rewrite lookup_seq_ge by (by apply lookup_ge_None). done.
Qed.

Lemma NoDup_of_submseteq {A} (l k : list A) : l ⊆+ k → NoDup k → NoDup l.
Proof.
  intros [k' Hk]%submseteq_Permutation Hn. rewrite Hk in Hn.
  by apply NoDup_app in Hn as [? _].
Qed.

Section SearchFurther.

Variable qsort : ∀ A : Type, (A → A → Z) → list A → list A.

(** What a search that returns has done to the heap. *)
Lemma vdb_search_Ret db query k w r w' :
  vdb_search qsort db query k w = Ret r w' →
  live_blocks w' = (live_blocks w + (if is_held r then 2 else 0))%nat ∧
  open_files w' = open_files w ∧ disk w' = disk w.
Proof.
  unfold vdb_search. intros H.
  destruct db as [db|]; [|inv_ret H; split_all; [simpl; lia|done..]].
  destruct query as [query|]; [|inv_ret H; split_all; [simpl; lia|done..]].
  destruct (k =? 0); [inv_ret H; split_all; [simpl; lia|done..]|].
  destruct (count db =? 0); [inv_ret H; split_all; [simpl; lia|done..]|].
  inv_bind H as ok1 w1 Hm1. apply malloc_Ret in Hm1 as (Hl1 & Ho1 & Hd1 & _).
  destruct ok1; simpl in H; [|inv_ret H; split_all; [simpl; lia|done..]].
  inv_bind H as arr w2 Hloop. apply score_loop_Ret in Hloop as ->.
  inv_bind H as arr' w3 Hsort.
  assert (w3 = w1) as ->.
  { unfold qsort_array in Hsort. destruct (_ <? _)%nat; [done|].
    destruct (mapM _ _); [|done]. by inv_ret Hsort. }
  inv_bind H as ok2 w4 Hm2. apply malloc_Ret in Hm2 as (Hl2 & Ho2 & Hd2 & _).
  destruct ok2; simpl in H.
  2:{ inv_bind H as u w5 Hf. apply free_Ret in Hf as (Hl5 & Ho5 & Hd5 & _).
      inv_ret H. split_all; [simpl; lia|congruence..]. }
  inv_bind H as ok3 w5 Hm3. apply malloc_Ret in Hm3 as (Hl3 & Ho3 & Hd3 & _).
  destruct ok3; simpl in H.
  2:{ inv_bind H as u w6 Hf. apply free_Ret in Hf as (Hl6 & Ho6 & Hd6 & _).
      inv_bind H as u' w7 Hf'. apply free_Ret in Hf' as (Hl7 & Ho7 & Hd7 & _).
      inv_ret H. split_all; [simpl; lia|congruence..]. }
  destruct (_ <? _)%nat; [done|].
  inv_bind H as u w6 Hf. apply free_Ret in Hf as (Hl6 & Ho6 & Hd6 & _).
  inv_ret H. split_all; [simpl; lia|congruence..].
Qed.

(** X7: a search leaks nothing.  Whenever [vdb_search] returns, also when
    one of its three allocations fails, the heap holds the blocks it held
    plus, for a result set, the two blocks of the result set; NULL comes
    with the heap as it was.  [vdb_free_result_set] on what was returned
    (NULL included) then brings the heap back to what it was before the
    search.  No file is touched. *)
Theorem vdb_search_then_free (db : option vdb_database) (query : option (list c_float))
    (k : Z) (w : world) (r : option vdb_result_set) (w' : world) :
  vdb_search qsort db query k w = Ret r w' →
  live_blocks w' = (live_blocks w + (if is_held r then 2 else 0))%nat ∧
  ∃ w'', vdb_free_result_set r w' = Ret tt w'' ∧
         live_blocks w'' = live_blocks w ∧ open_files w'' = open_files w ∧
         disk w'' = disk w.
Proof.
  intros Hrun. apply vdb_search_Ret in Hrun as (Hl & Ho & Hd). split; [done|].
  destruct r as [rs|]; simpl in *.
  - destruct (free_succeeds w' (S (live_blocks w))) as (w1 & Hf1 & Hl1 & Ho1 & Hd1 & _);
      [lia|].
    destruct (free_succeeds w1 (live_blocks w)) as (w2 & Hf2 & Hl2 & Ho2 & Hd2 & _);
      [done|].
    exists w2. rewrite (bind_run _ _ _ _ _ Hf1). split_all; try done; congruence.
  - exists w'. split_all; try done. lia.
Qed.

Hypothesis qsort_permutes :
  ∀ A (cmp : A → A → Z) (l : list A), qsort A cmp l ≡ₚ l.

(** X8: the results are records of the database, each at most once,
    whatever the distances.  On a non-empty database with [k >= 1], when
    the allocations succeed, every entry of the result set is the entry of
    a stored record (its index, its distance to the query, its identifier
    and attachment), no index occurs twice, and with [k >= count] every
    record is there.  This holds also when distances are NaN and the
    results are not in order. *)
Theorem vdb_search_genuine (db : vdb_database) (query : list c_float) (k : Z)
    (w : world) :
  cap_inv db → live_inv db → data_inv db →
  dimensions db <= Z.of_nat (length query) →
  count db * sizeof_vdb_result < 2 ^ 64 → allocs_succeed w →
  0 < k → 0 < count db →
  ∃ rs w',
    vdb_search qsort (Some db) (Some query) k w = Ret (Some rs) w' ∧
    entries rs ⊆+ candidates db query ∧
    NoDup (index <$> entries rs) ∧
    (count db <= k → entries rs ≡ₚ candidates db query).
Proof using qsort_permutes.
  intros Hinv Hlive Hdata Hq Hsize Hs Hk Hc.
  destruct (vdb_search_run qsort qsort_permutes db query k w) as (w' & Hrun & _); try done.
  eexists _, w'. split; [exact Hrun|]. rewrite entries_written.
  assert (take (Z.to_nat (Z.min k (count db)))
            (qsort _ vdb_result_compare (candidates db query)) ⊆+ candidates db query)
    as Hsub.
  { etrans; [apply submseteq_take|]. by rewrite qsort_permutes. }
  split_all.
  - done.
  - eapply NoDup_of_submseteq; [by apply fmap_submseteq|].
    rewrite index_candidates. apply NoDup_fmap; [apply Nat2Z.inj'|apply NoDup_seq].
  - intros Hge. rewrite take_ge.
    + apply qsort_permutes.
    + rewrite (Permutation_length (qsort_permutes _ _ _)), length_candidates.
      rewrite (length_records db Hinv Hlive). lia.
Qed.

End SearchFurther.

Lemma vdb_search_then_free_witness :
  ∃ r w',
    vdb_search insertion_qsort (Some db_abc) (Some query_a) 2 world_abc = Ret r w' ∧
    live_blocks w' = (live_blocks world_abc + (if is_held r then 2 else 0))%nat ∧
    ∃ w'', vdb_free_result_set r w' = Ret tt w'' ∧
           live_blocks w'' = live_blocks world_abc ∧ open_files w'' = open_files world_abc ∧
           disk w'' = disk world_abc.
Proof.
  eexists _, _. split; [vm_compute; reflexivity|].
  eapply (vdb_search_then_free insertion_qsort (Some db_abc) (Some query_a) 2 world_abc).
  vm_compute. reflexivity.
Defined.

Lemma vdb_search_genuine_witness :
  ∃ rs w',
    vdb_search insertion_qsort (Some db_nan) (Some query_nan) 3 world_abc
      = Ret (Some rs) w' ∧
    entries rs ⊆+ candidates db_nan query_nan ∧
    NoDup (index <$> entries rs) ∧
    (count db_nan <= 3 → entries rs ≡ₚ candidates db_nan query_nan).
Proof.
  apply (vdb_search_genuine insertion_qsort insertion_qsort_permutes db_nan query_nan 3
           world_abc).
  - unfold cap_inv, slots_of, sizeof_vdb_vector. simpl. split_all; first [done|lia].
  - by eapply live_inv_3.
  - intros i v Hi. simpl in Hi.
    assert (i = 0 ∨ i = 1 ∨ i = 2) as [->|[->| ->]] by lia;
      intros [= <-]; vm_compute; discriminate.
  - simpl. lia.
  - unfold sizeof_vdb_result. simpl. lia.
  - apply allocs_succeed_nil.
  - lia.
  - simpl. lia.
Defined.

(** * Further properties of the metric engine *)

(** ** Bits and values *)

Lemma float_bits_of_bits z : float_bits (float_of_bits z) = z mod 2 ^ 32.
Proof.
  unfold float_bits, float_of_bits, float_of_bytes, float_bytes. cbn.
  rewrite !Z_of_byte_of_Z. change (2 ^ 32) with 4294967296.
  Z.div_mod_to_equations. lia.
Qed.

Lemma float_bits_range f : 0 <= float_bits f < 2 ^ 32.
Proof. unfold float_bits. apply (decode_le_range (float_bytes f)). Qed.

Lemma to_SF_of_SF x : to_SF (of_SF x) = SF_of_bits (bits_of_SF x mod 2 ^ 32).
Proof. unfold to_SF, of_SF. by rewrite float_bits_of_bits. Qed.

(** The three fields of a word built from a sign, an exponent and a
    fraction. *)
Lemma fields_of_word (s : bool) e m :
  0 <= e < 256 → 0 <= m < 2 ^ 23 →
  Z.testbit (sign_bit s + e * 2 ^ 23 + m) 31 = s ∧
  Z.land (Z.shiftr (sign_bit s + e * 2 ^ 23 + m) 23) 255 = e ∧
  Z.land (sign_bit s + e * 2 ^ 23 + m) (2 ^ 23 - 1) = m.
Proof.
  intros He Hm. set (z := sign_bit s + e * 2 ^ 23 + m).
  assert (z = (if s then 2147483648 else 0) + e * 8388608 + m) as Hz by (by destruct s).
  change (2 ^ 23) with 8388608 in Hm.
  split_all.
  - apply Z.b2z_inj. rewrite Z.testbit_spec' by lia. change (2 ^ 31) with 2147483648.
    destruct s; simpl; Z.div_mod_to_equations; lia.
  - change 255 with (Z.ones 8). rewrite Z.land_ones, Z.shiftr_div_pow2 by lia.
    change (2 ^ 23) with 8388608. change (2 ^ 8) with 256.
    destruct s; Z.div_mod_to_equations; lia.
  - change (2 ^ 23 - 1) with (Z.ones 23). rewrite Z.land_ones by lia.
    change (2 ^ 23) with 8388608.
    destruct s; Z.div_mod_to_equations; lia.
Qed.

(** Every 32-bit word is built from its three fields. *)
Lemma word_of_fields z :
  0 <= z < 2 ^ 32 →
  z = sign_bit (Z.testbit z 31) + Z.land (Z.shiftr z 23) 255 * 2 ^ 23
      + Z.land z (2 ^ 23 - 1) ∧
  0 <= Z.land (Z.shiftr z 23) 255 < 256 ∧ 0 <= Z.land z (2 ^ 23 - 1) < 2 ^ 23.
Proof.
  intros Hz. change (2 ^ 32) with 4294967296 in Hz.
  change 255 with (Z.ones 8). change (2 ^ 23 - 1) with (Z.ones 23).
  rewrite !Z.land_ones, Z.shiftr_div_pow2 by lia.
  assert (sign_bit (Z.testbit z 31) = 2147483648 * (z / 2147483648 mod 2)) as ->.
  { change 2147483648 with (2 ^ 31). rewrite <- Z.testbit_spec' by lia.
    by destruct (Z.testbit z 31). }
  change (2 ^ 23) with 8388608. change (2 ^ 8) with 256.
  Z.div_mod_to_equations. lia.
Qed.

Lemma SF_of_bits_word (s : bool) e m :
  0 <= e < 256 → 0 <= m < 2 ^ 23 →
  SF_of_bits (sign_bit s + e * 2 ^ 23 + m)
  = if e =? 0 then
      match m with
      | Zpos p => S754_finite s p (-149)
      | _ => S754_zero s
      end
    else if e =? 255 then (if m =? 0 then S754_infinity s else S754_nan)
    else
      match m + 2 ^ 23 with
      | Zpos p => S754_finite s p (e - 150)
      | _ => S754_nan
      end.
Proof.
  intros He Hm. unfold SF_of_bits.
  destruct (fields_of_word s e m He Hm) as (-> & -> & ->). done.
Qed.

Lemma word_range (s : bool) e m :
  0 <= e < 256 → 0 <= m < 2 ^ 23 → 0 <= sign_bit s + e * 2 ^ 23 + m < 2 ^ 32.
Proof.
  intros He Hm. change (2 ^ 23) with 8388608 in *. change (2 ^ 32) with 4294967296.
  unfold sign_bit. change (2 ^ 31) with 2147483648. destruct s; lia.
Qed.

(** Decoding, encoding and decoding again gives the value decoded first. *)
Lemma to_SF_of_SF_to_SF f : to_SF (of_SF (to_SF f)) = to_SF f.
Proof.
  rewrite to_SF_of_SF. unfold to_SF.
  pose proof (float_bits_range f) as Hz. revert Hz. generalize (float_bits f). intros z Hz.
  destruct (word_of_fields z Hz) as (Hw & He & Hm).
  revert Hw He Hm. generalize (Z.testbit z 31) (Z.land (Z.shiftr z 23) 255)
    (Z.land z (2 ^ 23 - 1)). intros s e m -> He Hm.
  rewrite (SF_of_bits_word s e m He Hm).
  assert (∀ e' m', 0 <= e' < 256 → 0 <= m' < 2 ^ 23 →
            (sign_bit s + e' * 2 ^ 23 + m') mod 2 ^ 32 = sign_bit s + e' * 2 ^ 23 + m')
    as Hsmall.
  { intros e' m' He' Hm'. apply Z.mod_small. by apply word_range. }
  destruct (e =? 0) eqn:E0.
  - apply Z.eqb_eq in E0 as ->. destruct m as [|p|p]; [| |lia].
    + cbn [bits_of_SF]. replace (sign_bit s) with (sign_bit s + 0 * 2 ^ 23 + 0) by lia.
      rewrite Hsmall by (change (2 ^ 23) with 8388608; lia).
      by rewrite SF_of_bits_word by (change (2 ^ 23) with 8388608; lia).
    + cbn [bits_of_SF]. assert ((Z.pos p <? 2 ^ 23) = true) as -> by (apply Z.ltb_lt; lia).
      replace (sign_bit s + Z.pos p) with (sign_bit s + 0 * 2 ^ 23 + Z.pos p) by lia.
      rewrite Hsmall by lia. by rewrite SF_of_bits_word by lia.
  - apply Z.eqb_neq in E0. destruct (e =? 255) eqn:E255.
    + apply Z.eqb_eq in E255 as ->. destruct (m =? 0) eqn:Em.
      * cbn [bits_of_SF].
        replace (sign_bit s + 255 * 2 ^ 23) with (sign_bit s + 255 * 2 ^ 23 + 0) by lia.
        rewrite Hsmall by (change (2 ^ 23) with 8388608; lia).
        by rewrite SF_of_bits_word by (change (2 ^ 23) with 8388608; lia).
      * reflexivity.
    + apply Z.eqb_neq in E255.
      destruct (m + 2 ^ 23) as [|p|p] eqn:Ep; [lia| |lia].
      cbn [bits_of_SF].
      assert ((Z.pos p <? 2 ^ 23) = false) as -> by (apply Z.ltb_ge; lia).
      replace (sign_bit s + (e - 150 + 150) * 2 ^ 23 + (Z.pos p - 2 ^ 23))
        with (sign_bit s + e * 2 ^ 23 + m) by lia.
      rewrite Hsmall by done. rewrite SF_of_bits_word by done.
      apply Z.eqb_neq in E0, E255. rewrite E0, E255, Ep. done.
Qed.

(** Changing the sign of a value changes the sign bit of its encoding. *)
Lemma to_SF_of_SF_opp x : to_SF (of_SF (SFopp x)) = SFopp (to_SF (of_SF x)).
Proof.
  rewrite !to_SF_of_SF.
  assert (∀ z, 0 <= z < 2 ^ 32 →
            SF_of_bits ((z + 2 ^ 31) mod 2 ^ 32) = SFopp (SF_of_bits z)) as Hflip.
  { intros z Hz. destruct (word_of_fields z Hz) as (Hw & He & Hm).
    revert Hw He Hm. generalize (Z.testbit z 31) (Z.land (Z.shiftr z 23) 255)
      (Z.land z (2 ^ 23 - 1)). intros s e m -> He Hm.
    assert ((sign_bit s + e * 2 ^ 23 + m + 2 ^ 31) mod 2 ^ 32
            = sign_bit (negb s) + e * 2 ^ 23 + m) as ->.
    { pose proof (word_range (negb s) e m He Hm) as Hr.
      rewrite <- (Z.mod_small _ _ Hr). unfold sign_bit.
      change (2 ^ 31) with 2147483648. change (2 ^ 32) with 4294967296.
      destruct s; simpl; [|f_equal; lia].
      replace (2147483648 + e * 2 ^ 23 + m + 2147483648)
        with (0 + e * 2 ^ 23 + m + 1 * 4294967296) by lia.
      by rewrite Z_mod_plus_full. }
    rewrite !SF_of_bits_word by done.
    destruct (e =? 0); [by destruct m|].
    destruct (e =? 255); [by destruct (m =? 0)|]. by destruct (m + 2 ^ 23). }
  destruct x as [s|s| |s m e]; [| |done|].
  - rewrite <- Hflip by (apply Z.mod_pos_bound; lia). f_equal.
    rewrite Z.add_mod_idemp_l by lia. by destruct s.
  - rewrite <- Hflip by (apply Z.mod_pos_bound; lia). f_equal.
    rewrite Z.add_mod_idemp_l by lia. by destruct s.
  - rewrite <- Hflip by (apply Z.mod_pos_bound; lia). f_equal.
    rewrite Z.add_mod_idemp_l by lia. cbn [SFopp bits_of_SF]. unfold sign_bit.
    change (2 ^ 31) with 2147483648. change (2 ^ 32) with 4294967296.
    destruct (Z.pos m <? 2 ^ 23); destruct s; simpl negb; cbv iota.
    + replace (2147483648 + Z.pos m + 2147483648) with (0 + Z.pos m + 1 * 4294967296) by lia.
      by rewrite Z_mod_plus_full.
    + f_equal. lia.
    + replace (2147483648 + (e + 150) * 2 ^ 23 + (Z.pos m - 2 ^ 23) + 2147483648)
        with (0 + (e + 150) * 2 ^ 23 + (Z.pos m - 2 ^ 23) + 1 * 4294967296) by lia.
      by rewrite Z_mod_plus_full.
    + f_equal. lia.
Qed.

(** ** Symmetries of the operations *)

Lemma SFmul_comm x y : SFmul prec32 emax32 x y = SFmul prec32 emax32 y x.
Proof.
  destruct x as [sx|sx| |sx mx ex], y as [sy|sy| |sy my ey]; simpl; try done;
    try (by rewrite xorb_comm).
  by rewrite xorb_comm, Pos.mul_comm, Z.add_comm.
Qed.

Lemma SFmul_opp_opp x :
  SFmul prec32 emax32 (SFopp x) (SFopp x) = SFmul prec32 emax32 x x.
Proof. destruct x as [s|s| |s m e]; simpl; try done; by destruct s. Qed.

Lemma binary_round_aux_opp s m e l :
  binary_round_aux prec32 emax32 (negb s) m e l
  = SFopp (binary_round_aux prec32 emax32 s m e l).
Proof. unfold binary_round_aux. repeat case_match; done. Qed.

Lemma binary_round_opp s m e :
  binary_round prec32 emax32 (negb s) m e = SFopp (binary_round prec32 emax32 s m e).
Proof. unfold binary_round. case_match. apply binary_round_aux_opp. Qed.

Lemma binary_normalize_opp m e :
  m ≠ 0 →
  binary_normalize prec32 emax32 (- m) e false
  = SFopp (binary_normalize prec32 emax32 m e false).
Proof.
  intros Hm. destruct m as [|p|p]; [done| |]; simpl.
  - apply (binary_round_opp false).
  - apply (binary_round_opp true).
Qed.

(** [y - x] is the opposite of [x - y], or both are the same zero or NaN. *)
Lemma SFsub_swap x y :
  SFsub prec32 emax32 y x = SFopp (SFsub prec32 emax32 x y) ∨
  SFsub prec32 emax32 y x = SFsub prec32 emax32 x y.
Proof.
  destruct x as [[]|[]| |sx mx ex], y as [[]|[]| |sy my ey]; simpl;
    try (by left); try (by right); try (left; by rewrite negb_involutive).
  rewrite (Z.min_comm ey ex).
  set (A := cond_Zopp sx (Z.pos (shl_align mx ex (ex `min` ey)).1)).
  set (B := cond_Zopp sy (Z.pos (shl_align my ey (ex `min` ey)).1)).
  destruct (decide (A - B = 0)) as [E|E].
  - right. replace (B - A) with 0 by lia. by rewrite E.
  - left. replace (B - A) with (- (A - B)) by lia. by apply binary_normalize_opp.
Qed.

Lemma f_mul_comm a b : f_mul a b = f_mul b a.
Proof. unfold f_mul. by rewrite SFmul_comm. Qed.

Lemma f_sub_swap_square a b :
  f_mul (f_sub b a) (f_sub b a) = f_mul (f_sub a b) (f_sub a b).
Proof.
  unfold f_mul, f_sub. destruct (SFsub_swap (to_SF a) (to_SF b)) as [-> | ->]; [|done].
  by rewrite to_SF_of_SF_opp, SFmul_opp_opp.
Qed.

Lemma for_range_ext {S} (f g : nat → S → S) n :
  (∀ i s, f i s = g i s) → ∀ lo s, for_range lo n f s = for_range lo n g s.
Proof.
  intros Hfg. induction n as [|n IH]; intros lo s; simpl; [done|]. by rewrite Hfg, IH.
Qed.

Lemma vdb_dot_product_comm a b dims : vdb_dot_product a b dims = vdb_dot_product b a dims.
Proof.
  unfold vdb_dot_product. apply for_range_ext. intros i s. by rewrite f_mul_comm.
Qed.

(** X9: the metrics are symmetric.  For every metric value, the distance
    computed from [a] to [b] is the distance computed from [b] to [a], as
    an IEEE value (NaN payloads apart, which the model does not track),
    whatever the floats: infinities, NaN, and rounding included. *)
Theorem vdb_compute_distance_sym (a b : list c_float) (dims : Z) (metric : vdb_metric) :
  vdb_compute_distance a b dims metric = vdb_compute_distance b a dims metric.
Proof.
  unfold vdb_compute_distance.
  destruct (metric =? VDB_METRIC_COSINE).
  { unfold vdb_cosine_similarity. cbv zeta.
    rewrite (vdb_dot_product_comm a b), orb_comm.
    by rewrite (f_mul_comm (vdb_magnitude a dims)). }
  destruct (metric =? VDB_METRIC_EUCLIDEAN).
  { unfold vdb_euclidean_distance. f_equal. apply for_range_ext. intros i s. cbv zeta.
    by rewrite f_sub_swap_square. }
  destruct (metric =? VDB_METRIC_DOT_PRODUCT); [|done].
  by rewrite vdb_dot_product_comm.
Qed.

(** ** Order and sign *)

Lemma SFcompare_opp x y : SFcompare (SFopp x) (SFopp y) = SFcompare y x.
Proof.
  destruct x as [[]|[]| |[] mx ex], y as [[]|[]| |[] my ey]; simpl; try done;
    change (PosDef.Pos.compare_cont Eq) with Pos.compare;
    rewrite (Z.compare_antisym ex ey), (Pos.compare_antisym mx my);
    by destruct (ex ?= ey), (mx ?= my)%positive.
Qed.

Lemma f_lt_neg a b : f_lt (f_neg a) (f_neg b) = f_lt b a.
Proof.
  unfold f_lt, f_neg, SFltb.
  by rewrite !to_SF_of_SF_opp, !to_SF_of_SF_to_SF, SFcompare_opp.
Qed.

(** X10: the dot-product metric ranks by decreasing dot product.  Under
    [VDB_METRIC_DOT_PRODUCT] the distance of [a] is below the distance of
    [b] exactly when the dot product of the query with [a] is above the one
    with [b], and [vdb_result_compare] puts [a] first exactly then. *)
Theorem vdb_dot_product_ranking (q a b : list c_float) (dims : Z)
    (ra rb : vdb_result) :
  f_lt (vdb_compute_distance q a dims VDB_METRIC_DOT_PRODUCT)
       (vdb_compute_distance q b dims VDB_METRIC_DOT_PRODUCT)
  = f_lt (vdb_dot_product q b dims) (vdb_dot_product q a dims) ∧
  (distance ra = vdb_compute_distance q a dims VDB_METRIC_DOT_PRODUCT →
   distance rb = vdb_compute_distance q b dims VDB_METRIC_DOT_PRODUCT →
   (vdb_result_compare ra rb = -1
    ↔ f_lt (vdb_dot_product q b dims) (vdb_dot_product q a dims) = true)).
Proof.
  assert (f_lt (vdb_compute_distance q a dims VDB_METRIC_DOT_PRODUCT)
               (vdb_compute_distance q b dims VDB_METRIC_DOT_PRODUCT)
          = f_lt (vdb_dot_product q b dims) (vdb_dot_product q a dims)) as Hlt.
  { unfold vdb_compute_distance. simpl. apply f_lt_neg. }
  split; [done|]. intros Ha Hb. unfold vdb_result_compare, f_gt. rewrite Ha, Hb, Hlt.
  destruct (f_lt (vdb_dot_product q b dims) (vdb_dot_product q a dims)); [done|].
  split; [case_match; discriminate|discriminate].
Qed.

Lemma vdb_dot_product_ranking_witness :
  f_lt (vdb_compute_distance (floats [1; 0]) (floats [3; 0]) 2 VDB_METRIC_DOT_PRODUCT)
       (vdb_compute_distance (floats [1; 0]) (floats [2; 0]) 2 VDB_METRIC_DOT_PRODUCT)
  = f_lt (vdb_dot_product (floats [1; 0]) (floats [2; 0]) 2)
         (vdb_dot_product (floats [1; 0]) (floats [3; 0]) 2) ∧
  (vdb_result_compare (Result 0 (f_of_Z (-3)) None NULL) (Result 1 (f_of_Z (-2)) None NULL) = -1
   ↔ f_lt (vdb_dot_product (floats [1; 0]) (floats [2; 0]) 2)
          (vdb_dot_product (floats [1; 0]) (floats [3; 0]) 2) = true).
Proof.
  pose proof (vdb_dot_product_ranking (floats [1; 0]) (floats [3; 0]) (floats [2; 0]) 2
                (Result 0 (f_of_Z (-3)) None NULL) (Result 1 (f_of_Z (-2)) None NULL))
    as [Hlt Hcmp].
  split; [exact Hlt|]. apply Hcmp; vm_compute; reflexivity.
Defined.

Lemma f_lt_nan_l a b : f_is_nan a = true → f_lt a b = false.
Proof. unfold f_is_nan, f_lt, SFltb. by destruct (to_SF a). Qed.

Lemma f_lt_nan_r a b : f_is_nan b = true → f_lt a b = false.
Proof.
  unfold f_is_nan, f_lt, SFltb. destruct (to_SF b); try done. by destruct (to_SF a).
Qed.

Lemma f_lt_irrefl a : f_lt a a = false.
Proof. destruct (f_lt a a) eqn:E; [|done]. by rewrite (f_lt_asym a a E) in E. Qed.

(** X11: [vdb_result_compare] is a sign function that is antisymmetric on
    all entries, NaN included: it answers -1, 0 or 1, the answer for
    [(b, a)] is the opposite of the answer for [(a, b)], entries with the
    same distance compare equal whatever their index, identifier and
    attachment, and an entry whose distance is NaN compares equal to every
    entry. *)
Theorem vdb_result_compare_antisym (a b : vdb_result) :
  vdb_result_compare a b = - vdb_result_compare b a ∧
  (vdb_result_compare a b = -1 ∨ vdb_result_compare a b = 0 ∨ vdb_result_compare a b = 1) ∧
  (distance a = distance b → vdb_result_compare a b = 0) ∧
  (f_is_nan (distance a) = true ∨ f_is_nan (distance b) = true →
   vdb_result_compare a b = 0).
Proof.
  unfold vdb_result_compare, f_gt. split_all.
  - destruct (f_lt (distance a) (distance b)) eqn:Hab,
             (f_lt (distance b) (distance a)) eqn:Hba; try done.
    apply f_lt_asym in Hab. congruence.
  - destruct (f_lt (distance a) (distance b)), (f_lt (distance b) (distance a)); auto.
  - intros ->. by rewrite f_lt_irrefl.
  - intros [Hn|Hn].
    + by rewrite (f_lt_nan_l _ _ Hn), (f_lt_nan_r _ _ Hn).
    + by rewrite (f_lt_nan_r _ _ Hn), (f_lt_nan_l _ _ Hn).
Qed.

Lemma vdb_result_compare_antisym_witness :
  vdb_result_compare result_nan result_one = - vdb_result_compare result_one result_nan ∧
  vdb_result_compare result_nan result_one = 0 ∧
  vdb_result_compare result_one (Result 7 f_one (Some (c_str "x")) 5) = 0.
Proof.
  split_all.
  - apply (proj1 (vdb_result_compare_antisym result_nan result_one)).
  - apply (proj2 (proj2 (proj2 (vdb_result_compare_antisym result_nan result_one)))).
    left. vm_compute. reflexivity.
  - apply (proj1 (proj2 (proj2 (vdb_result_compare_antisym result_one
                                  (Result 7 f_one (Some (c_str "x")) 5))))).
    reflexivity.
Defined.

(** * Further properties of the persistence codec *)

Lemma length_id_image v dims :
  storable dims v → Z.of_nat (length (id_image (id v))) = 4 + id_chars v.
Proof.
  intros [_ Hid]. unfold id_image, id_chars. destruct (id v) as [s|]; [|done].
  destruct (Hid s eq_refl) as [_ Hlen]. cbv zeta.
  unfold wrap32. rewrite Z.mod_small by lia.
  rewrite length_app, length_encode_le.
  destruct (Z.of_nat (length (c_string s)) >? 0) eqn:E.
  - rewrite Nat2Z.id, take_c_string. lia.
  - rewrite Z.gtb_ltb in E. apply Z.ltb_ge in E. simpl. lia.
Qed.

Lemma length_record_image dims v :
  0 <= dims → storable dims v →
  Z.of_nat (length (record_image dims v)) = record_size dims v.
Proof.
  intros Hd Hst. unfold record_image, record_size.
  rewrite length_app, Nat2Z.inj_add, (length_id_image v dims Hst).
  rewrite length_floats_to_bytes, length_take. destruct Hst as [Hlen _]. lia.
Qed.

Lemma length_records_image dims vs :
  0 <= dims → Forall (storable dims) vs →
  Z.of_nat (length (vs ≫= record_image dims)) = records_size dims vs.
Proof.
  intros Hd. induction 1 as [|v vs Hv _ IH]; [done|].
  cbn [mbind list_bind records_size foldr]. rewrite length_app, Nat2Z.inj_add.
  rewrite (length_record_image dims v Hd Hv). unfold records_size in IH.
  fold (@mbind list _ _ _ (record_image dims) vs). rewrite IH. done.
Qed.

(** X12: the layout of the file.  On a database whose vectors and
    identifiers can be read, [vdb_save] to a file that can be written
    returns [VDB_OK] and leaves in the file, whatever it held: the four
    bytes of the magic tag, [dimensions] and [count] on eight bytes each,
    the metric on four, then for each record in index order its
    [dimensions] floats, the length of its identifier on four bytes and the
    characters of the identifier (no terminator, no attachment):
    24 + count * (4 * dimensions + 4) + the lengths of the identifiers bytes
    in all.  The other files, the heap and the streams are as before. *)
Theorem vdb_save_layout (db : vdb_database) (filename : string) (w : world) :
  cap_inv db → live_inv db → data_inv db → id_inv db → 0 <= dimensions db →
  read_only w filename = false →
  ∃ w' body,
    vdb_save (Some db) (Some filename) w = Ret VDB_OK w' ∧
    disk w' filename
      = Some (magic_bytes ++ encode_le 8 (dimensions db) ++ encode_le 8 (count db)
              ++ encode_le 4 (metric db) ++ body) ∧
    body = records db ≫= record_image (dimensions db) ∧
    Z.of_nat (length body) = records_size (dimensions db) (records db) ∧
    live_blocks w' = live_blocks w ∧ open_files w' = open_files w ∧
    ∀ other, other ≠ filename → disk w' other = disk w other.
Proof.
  intros Hinv Hlive Hdata Hid Hd Hro.
  destruct (vdb_save_run db filename w Hinv Hlive Hdata Hid Hro)
    as (w' & Hrun & [Hl Ho] & _ & _ & Hdisk & Hother).
  exists w', (records db ≫= record_image (dimensions db)).
  split_all; [done| |done| |done..].
  - rewrite Hdisk. unfold file_image, header_image. by rewrite <- !(assoc_L (++)).
  - apply length_records_image; [done|]. by apply storable_records.
Qed.

Lemma vdb_save_layout_witness :
  ∃ w' body,
    vdb_save (Some db_abc) (Some "test.vdb"%string) world_abc = Ret VDB_OK w' ∧
    disk w' "test.vdb"%string
      = Some (magic_bytes ++ encode_le 8 (dimensions db_abc) ++ encode_le 8 (count db_abc)
              ++ encode_le 4 (metric db_abc) ++ body) ∧
    body = records db_abc ≫= record_image (dimensions db_abc) ∧
    Z.of_nat (length body) = records_size (dimensions db_abc) (records db_abc) ∧
    live_blocks w' = live_blocks world_abc ∧ open_files w' = open_files world_abc ∧
    ∀ other, other ≠ "test.vdb"%string → disk w' other = disk world_abc other.
Proof.
  apply (vdb_save_layout db_abc "test.vdb" world_abc).
  - apply cap_inv_db_abc.
  - apply live_inv_db_abc.
  - apply data_inv_db_abc.
  - apply well_formed_db_abc.
  - simpl. lia.
  - reflexivity.
Defined.

(** X13: the failures of [vdb_save].  With a NULL database or file name it
    returns [VDB_ERROR_NULL_POINTER]; when the file cannot be opened for
    writing it returns [VDB_ERROR_OUT_OF_MEMORY]; it returns no other error
    code (never [VDB_ERROR_NOT_FOUND]); and whenever it fails nothing has
    changed: no file is created, truncated or written. *)
Theorem vdb_save_failures (db : option vdb_database) (filename : option string)
    (w : world) :
  (db = None ∨ filename = None → vdb_save db filename w = Ret VDB_ERROR_NULL_POINTER w) ∧
  (∀ db0 f, db = Some db0 → filename = Some f → read_only w f = true →
     vdb_save db filename w = Ret VDB_ERROR_OUT_OF_MEMORY w) ∧
  (∀ e w', vdb_save db filename w = Ret e w' →
     (e = VDB_OK ∨ e = VDB_ERROR_NULL_POINTER ∨ e = VDB_ERROR_OUT_OF_MEMORY) ∧
     (e ≠ VDB_OK → w' = w)).
Proof.
  split_all.
  - intros [-> | ->]; [done|]. by destruct db.
  - intros db0 f -> -> Hro. unfold vdb_save, bind, fopen_wb. by rewrite Hro.
  - intros e w' H. unfold vdb_save in H.
    destruct db as [db0|]; [|inv_ret H; split; [auto|done]].
    destruct filename as [f|]; [|inv_ret H; split; [auto|done]].
    inv_bind H as ok w1 Hopen. unfold fopen_wb in Hopen.
    destruct (read_only w f); injection Hopen as <- <-; simpl in H.
    + inv_ret H. split; [auto|done].
    + inv_bind H as u1 w2 H1. inv_bind H as u2 w3 H2. inv_bind H as u3 w4 H3.
      inv_bind H as u4 w5 H4. inv_bind H as u5 w6 H5. inv_bind H as u6 w7 H6.
      inv_ret H. split; [auto|done].
Qed.

Lemma vdb_save_failures_witness :
  vdb_save None (Some "test.vdb"%string) world_abc = Ret VDB_ERROR_NULL_POINTER world_abc ∧
  vdb_save (Some db_abc) (Some "test.vdb"%string)
      (World 8 0 [] (λ _, Some []) (λ _, true))
    = Ret VDB_ERROR_OUT_OF_MEMORY (World 8 0 [] (λ _, Some []) (λ _, true)).
Proof.
  split.
  - apply (proj1 (vdb_save_failures None (Some "test.vdb"%string) world_abc)). by left.
  - apply (proj1 (proj2 (vdb_save_failures (Some db_abc) (Some "test.vdb"%string)
                           (World 8 0 [] (λ _, Some []) (λ _, true))))
             db_abc "test.vdb"%string); reflexivity.
Defined.

Lemma magic_bytes_unique magic :
  length magic = 4%nat → decode_le magic = VDB_MAGIC → magic = magic_bytes.
Proof.
  intros Hl4 Hdec.
  destruct magic as [|b0 [|b1 [|b2 [|b3 [|? ?]]]]]; try done.
  assert (decode_le [b0; b1; b2; b3] = decode_le magic_bytes) as Heq by done.
  clear -Heq. unfold magic_bytes. cbn [decode_le] in Heq.
  change (decode_le magic_bytes) with 1447313968 in Heq.
  pose proof (Z_of_byte_range b0). pose proof (Z_of_byte_range b1).
  pose proof (Z_of_byte_range b2). pose proof (Z_of_byte_range b3).
  assert (Z_of_byte b0 = 48 ∧ Z_of_byte b1 = 66 ∧ Z_of_byte b2 = 68 ∧ Z_of_byte b3 = 86)
    as (E0 & E1 & E2 & E3) by lia.
  rewrite <- (byte_of_Z_of_byte b0), <- (byte_of_Z_of_byte b1),
    <- (byte_of_Z_of_byte b2), <- (byte_of_Z_of_byte b3).
  by rewrite E0, E1, E2, E3.
Qed.

(** X14: what [vdb_load] rejects at once.  With a NULL file name, a file
    that does not exist, a file of less than four bytes or a file that does
    not start with the magic tag, [vdb_load] returns NULL; it has made no
    allocation request, holds no stream and no block more than before, and
    has changed no file. *)
Theorem vdb_load_rejects (filename : option string) (w : world) :
  (filename = None ∨ (∃ f, filename = Some f ∧ disk w f = None) →
   vdb_load filename w = Ret None w) ∧
  (∀ f bytes, filename = Some f → disk w f = Some bytes →
     (length bytes < 4)%nat ∨ take 4 bytes ≠ magic_bytes →
     ∃ w', vdb_load filename w = Ret None w' ∧
           live_blocks w' = live_blocks w ∧ open_files w' = open_files w ∧
           alloc_plan w' = alloc_plan w ∧ disk w' = disk w).
Proof.
  split.
  - intros [-> | (f & -> & Hdisk)]; [done|]. unfold vdb_load, bind, fopen_rb.
    by rewrite Hdisk.
  - intros f bytes -> Hdisk Hbad.
    destruct (vdb_load_bad_magic f bytes w Hdisk) as (w' & Hrun & [Hl Ho] & Hp & Hd).
    + destruct Hbad as [Hshort|Hmagic]; [by left|].
      destruct (decide (length bytes < 4)%nat) as [?|Hlen]; [by left|]. right.
      intros Hdec. apply Hmagic. apply magic_bytes_unique; [|done].
      rewrite length_take. lia.
    + by exists w'.
Qed.

Lemma vdb_load_rejects_witness :
  vdb_load (Some "absent.vdb"%string) empty_world = Ret None empty_world ∧
  ∃ w', vdb_load (Some "crafted.vdb"%string)
          (world_with_file "crafted.vdb" (c_str "VDB0 and more")) = Ret None w' ∧
        live_blocks w' = live_blocks (world_with_file "crafted.vdb" (c_str "VDB0 and more")) ∧
        open_files w' = open_files (world_with_file "crafted.vdb" (c_str "VDB0 and more")) ∧
        alloc_plan w' = alloc_plan (world_with_file "crafted.vdb" (c_str "VDB0 and more")) ∧
        disk w' = disk (world_with_file "crafted.vdb" (c_str "VDB0 and more")).
Proof.
  split.
  - apply (proj1 (vdb_load_rejects (Some "absent.vdb"%string) empty_world)).
    right. by exists "absent.vdb"%string.
  - apply (proj2 (vdb_load_rejects (Some "crafted.vdb"%string)
                    (world_with_file "crafted.vdb" (c_str "VDB0 and more")))
             "crafted.vdb"%string (c_str "VDB0 and more")).
    + reflexivity.
    + reflexivity.
    + right. vm_compute. discriminate.
Defined.

(** X15: a truncated file is refused cleanly.  When the file is the
    beginning of what [vdb_save] writes for a well-formed database, cut
    anywhere before its end, [vdb_load] returns NULL; the blocks allocated on
    the way and the stream are released, and no file is changed. *)
Theorem vdb_load_truncated_file (db : vdb_database) (filename : string)
    (bytes : list byte) (w : world) :
  well_formed db → strict_prefix bytes (file_image db) →
  disk w filename = Some bytes → allocs_succeed w →
  ∃ w', vdb_load (Some filename) w = Ret None w' ∧
        live_blocks w' = live_blocks w ∧ open_files w' = open_files w ∧
        disk w' = disk w.
Proof.
  intros Hwf Hpre Hdisk Hs.
  destruct (vdb_load_truncated db filename bytes w Hwf Hpre Hdisk Hs)
    as (w' & Hrun & Hl & Ho).
  exists w'. split_all; try done. by apply vdb_load_Ret in Hrun as (_ & ? & _).
Qed.

Lemma vdb_load_truncated_file_witness :
  ∃ w', vdb_load (Some "test.vdb"%string)
          (world_with_file "test.vdb" (take 40 (file_image db_abc))) = Ret None w' ∧
        live_blocks w'
          = live_blocks (world_with_file "test.vdb" (take 40 (file_image db_abc))) ∧
        open_files w'
          = open_files (world_with_file "test.vdb" (take 40 (file_image db_abc))) ∧
        disk w' = disk (world_with_file "test.vdb" (take 40 (file_image db_abc))).
Proof.
  apply (vdb_load_truncated_file db_abc "test.vdb" (take 40 (file_image db_abc))).
  - apply well_formed_db_abc.
  - exists (drop 40 (file_image db_abc)). split.
    + symmetry. apply take_drop.
    + vm_compute. discriminate.
  - reflexivity.
  - apply allocs_succeed_nil.
Defined.

Lemma records_loaded db db' :
  cap_inv db → live_inv db → cap_inv db' → live_inv db' → count db' = count db →
  (∀ i v, 0 <= i < count db → record_at db i = Some v →
          record_at db' i = Some (loaded_record (dimensions db) v)) →
  records db' = loaded_record (dimensions db) <$> records db.
Proof.
  intros Hinv Hlive Hinv' Hlive' Hc Hrec. apply list_eq. intros i.
  rewrite list_lookup_fmap.
  destruct (records db !! i) as [v|] eqn:E; simpl.
  - apply lookup_records in E as [Hi Hv]; [|done..].
    apply lookup_records; [done..|]. split; [lia|]. apply Hrec; [lia|done].
  - apply lookup_ge_None in E. apply lookup_ge_None.
    rewrite length_records in * by done. lia.
Qed.

(** X16: [vdb_load] reads the records the header announces and no
    further.  A file that starts with what [vdb_save] writes for a
    well-formed database is loaded as that file is, whatever comes after:
    same dimensions, metric and count, and for records the first
    [dimensions] floats of each vector, its identifier (NULL for an empty
    one) and a NULL attachment, in the same order. *)
Theorem vdb_load_ignores_trailing (db : vdb_database) (filename : string)
    (rest : list byte) (w : world) :
  well_formed db → disk w filename = Some (file_image db ++ rest) → allocs_succeed w →
  ∃ db' w',
    vdb_load (Some filename) w = Ret (Some db') w' ∧
    dimensions db' = dimensions db ∧ metric db' = metric db ∧ count db' = count db ∧
    records db' = loaded_record (dimensions db) <$> records db.
Proof.
  intros Hwf Hdisk Hs.
  destruct (vdb_load_image db filename rest w Hwf Hdisk Hs)
    as (db' & w' & Hrun & Hd & Hm & Hc & Hrec & _).
  exists db', w'. split_all; try done.
  pose proof Hrun as (_ & _ & Hinv' & Hlive' & _)%vdb_load_Ret.
  destruct Hwf as (Hinv & Hlive & _). by apply records_loaded.
Qed.

Lemma vdb_load_ignores_trailing_witness :
  ∃ db' w',
    vdb_load (Some "test.vdb"%string)
      (world_with_file "test.vdb" (file_image db_abc ++ c_str "trailing bytes"))
      = Ret (Some db') w' ∧
    dimensions db' = dimensions db_abc ∧ metric db' = metric db_abc ∧
    count db' = count db_abc ∧
    records db' = loaded_record (dimensions db_abc) <$> records db_abc.
Proof.
  apply (vdb_load_ignores_trailing db_abc "test.vdb" (c_str "trailing bytes")).
  - apply well_formed_db_abc.
  - reflexivity.
  - apply allocs_succeed_nil.
Defined.

Lemma vdb_add_vector_no_metadata db data id w e db' w' :
  cap_inv db → no_metadata db →
  vdb_add_vector (Some db) (Some data) id NULL w = Ret (e, Some db') w' → no_metadata db'.
Proof.
  intros Hinv Hrecs Hrun.
  destruct (vdb_add_vector_Ret db data id NULL w e (Some db') w' Hinv Hrun)
    as (db2 & [= <-] & _ & _ & _ & _ & _ & _ & Hrec & _ & _ & He).
  intros i Hi. destruct e; try done.
  - destruct He as (Hc & _ & _ & _ & Hnew & _).
    destruct (decide (i = count db)) as [->|Hne].
    + eexists. split; [exact Hnew|done].
    + rewrite Hrec by lia. apply Hrecs. lia.
  - destruct He as (Hc & _). rewrite Hrec by lia. apply Hrecs. lia.
Qed.

(** X17: [vdb_load] returns a whole database or nothing.  Whenever it
    returns, the stream is closed and no file is changed.  With NULL, the
    heap is as before.  With a database, the file starts with the magic tag
    and the database has the dimensions (not zero), the count and the
    metric of its header; each of its [count] slots holds a record, with a
    NULL attachment; and the blocks the call has left allocated are exactly
    those the database owns, which [vdb_destroy] frees. *)
Theorem vdb_load_whole (filename : option string) (w : world)
    (r : option vdb_database) (w' : world) :
  vdb_load filename w = Ret r w' →
  open_files w' = open_files w ∧ disk w' = disk w ∧
  match r with
  | None => live_blocks w' = live_blocks w
  | Some db =>
      live_blocks w' = (live_blocks w + owned_blocks db)%nat ∧
      cap_inv db ∧ rep_inv db ∧ no_metadata db ∧
      ∃ f d c m rest,
        filename = Some f ∧ disk w f = Some (magic_bytes ++ d ++ c ++ m ++ rest) ∧
        length d = 8%nat ∧ length c = 8%nat ∧ length m = 4%nat ∧
        dimensions db = decode_le d ∧ count db = decode_le c ∧ metric db = decode_le m
  end.
Proof.
  intros Hrun. pose proof Hrun as (Ho & Hd & Hr)%vdb_load_Ret.
  split_all; try done. destruct r as [db|]; [|done].
  destruct Hr as (Hinv & Hlive & Hl & f & magic & d & c & m & rest & -> & Hdisk
                  & Hlm & Hld & Hlc & Hlmt & Hmagic & Hdim & Hc & Hmet).
  split_all; try done.
  - apply (vdb_load_keeps rep_inv (λ db data id w, vdb_add_vector_rep_inv db data id NULL w VDB_OK)
             (Some f) w db w'); [|done].
    intros d0 m0 Hd0. split; [done|]. simpl. intros i Hi. lia.
  - apply (vdb_load_keeps no_metadata (λ db data id w, vdb_add_vector_no_metadata db data id w VDB_OK)
             (Some f) w db w');
      [|done].
    intros d0 m0 _ i Hi. simpl in Hi. lia.
  - exists f, d, c, m, rest. rewrite <- (magic_bytes_unique magic Hlm Hmagic).
    by split_all.
Qed.

Lemma vdb_load_whole_witness :
  ∃ r w',
    vdb_load (Some "test.vdb"%string) (world_with_file "test.vdb" (file_image db_a77))
      = Ret r w' ∧
    open_files w' = open_files (world_with_file "test.vdb" (file_image db_a77)) ∧
    disk w' = disk (world_with_file "test.vdb" (file_image db_a77)) ∧
    match r with
    | None => live_blocks w' = live_blocks (world_with_file "test.vdb" (file_image db_a77))
    | Some db =>
        live_blocks w'
          = (live_blocks (world_with_file "test.vdb" (file_image db_a77))
             + owned_blocks db)%nat ∧
        cap_inv db ∧ rep_inv db ∧ no_metadata db ∧
        ∃ f d c m rest,
          Some "test.vdb"%string = Some f ∧
          disk (world_with_file "test.vdb" (file_image db_a77)) f
            = Some (magic_bytes ++ d ++ c ++ m ++ rest) ∧
          length d = 8%nat ∧ length c = 8%nat ∧ length m = 4%nat ∧
          dimensions db = decode_le d ∧ count db = decode_le c ∧ metric db = decode_le m
    end.
Proof.
  eexists _, _. split; [vm_compute; reflexivity|].
  eapply (vdb_load_whole (Some "test.vdb"%string)
            (world_with_file "test.vdb" (file_image db_a77))).
  vm_compute. reflexivity.
Defined.

Lemma id_image_loaded dims v :
  storable dims v → id_image (loaded_id (id v)) = id_image (id v).
Proof.
  intros [_ Hid]. unfold loaded_id, id_image. destruct (id v) as [s|]; [|done].
  destruct (Hid s eq_refl) as [_ Hlen]. unfold wrap32. rewrite Z.mod_small by lia.
  destruct (Z.of_nat (length (c_string s)) >? 0) eqn:E.
  - rewrite (c_string_app_NUL (c_string s)) by apply c_string_no_NUL.
    rewrite Z.mod_small by lia. rewrite E, Nat2Z.id.
    by rewrite take_app_length, take_c_string.
  - rewrite Z.gtb_ltb in E. apply Z.ltb_ge in E.
    assert (Z.of_nat (length (c_string s)) = 0) as -> by lia. done.
Qed.

Lemma record_image_loaded dims v :
  storable dims v → record_image dims (loaded_record dims v) = record_image dims v.
Proof.
  intros Hst. unfold record_image, loaded_record. simpl.
  rewrite take_take, Nat.min_id. by rewrite (id_image_loaded dims v Hst).
Qed.

Lemma storable_loaded dims v : 0 <= dims → storable dims v → storable dims (loaded_record dims v).
Proof.
  intros Hd [Hlen Hid]. split; simpl.
  - rewrite length_take. lia.
  - intros s' Hs'. unfold loaded_id in Hs'. destruct (id v) as [s|]; [|done].
    destruct (Hid s eq_refl) as [_ Hl]. destruct (_ >? 0); [|done].
    injection Hs' as <-. split.
    + apply elem_of_app. right. by left.
    + by rewrite (c_string_app_NUL (c_string s)) by apply c_string_no_NUL.
Qed.

(** X18: the file is a fixed point of loading and saving.  A well-formed
    database saved, loaded, and saved again (to any file, in any state of
    the program) gives byte for byte the file of the first save: what the
    format drops (attachments, the difference between no identifier and an
    empty one, the floats beyond [dimensions]) is dropped once. *)
Theorem save_load_save (db : vdb_database) (filename : string) (w : world) :
  well_formed db → read_only w filename = false → allocs_succeed w →
  ∃ w1 db' w2 bytes,
    vdb_save (Some db) (Some filename) w = Ret VDB_OK w1 ∧
    disk w1 filename = Some bytes ∧
    vdb_load (Some filename) w1 = Ret (Some db') w2 ∧
    ∀ other w3, read_only w3 other = false →
      ∃ w4, vdb_save (Some db') (Some other) w3 = Ret VDB_OK w4 ∧
            disk w4 other = Some bytes.
Proof.
  intros Hwf Hro Hs.
  pose proof Hwf as (Hinv & Hlive & Hdata & Hid & Hfit & Hhdr & Hbound).
  destruct (vdb_save_run db filename w Hinv Hlive Hdata Hid Hro)
    as (w1 & Hsave & _ & Hp1 & _ & Hd1 & _).
  assert (allocs_succeed w1) as Hs1 by (unfold allocs_succeed in *; congruence).
  destruct (vdb_load_image db filename [] w1 Hwf) as (db' & w2 & Hload & Hd & Hm & Hc & Hrec & _).
  { by rewrite app_nil_r. }
  { done. }
  pose proof Hload as (_ & _ & Hinv' & Hlive' & _)%vdb_load_Ret.
  pose proof (records_loaded db db' Hinv Hlive Hinv' Hlive' Hc Hrec) as Hrecs.
  pose proof (storable_records db Hinv Hlive Hdata Hid) as Hst.
  assert (0 <= dimensions db) as Hd0 by (destruct Hfit; lia).
  assert (Forall (storable (dimensions db')) (records db')) as Hst'.
  { rewrite Hrecs, Hd. apply Forall_fmap. eapply Forall_impl; [exact Hst|].
    intros v Hv. by apply storable_loaded. }
  assert (data_inv db') as Hdata'.
  { intros i v Hi Hv. rewrite Forall_lookup in Hst'.
    assert (records db' !! Z.to_nat i = Some v) as Hl.
    { apply lookup_records; [done..|]. split; [lia|]. by rewrite Z2Nat.id by lia. }
    by destruct (Hst' _ _ Hl). }
  assert (id_inv db') as Hid'.
  { intros i v s Hi Hv Hsv. rewrite Forall_lookup in Hst'.
    assert (records db' !! Z.to_nat i = Some v) as Hl.
    { apply lookup_records; [done..|]. split; [lia|]. by rewrite Z2Nat.id by lia. }
    destruct (Hst' _ _ Hl) as [_ Hids]. by apply Hids. }
  assert (file_image db' = file_image db) as Himg.
  { unfold file_image, header_image. rewrite Hd, Hm, Hc, Hrecs. f_equal.
    clear -Hst. induction Hst as [|v vs Hv _ IH]; [done|].
    rewrite fmap_cons. cbn [mbind list_bind].
    rewrite (record_image_loaded _ v Hv). f_equal. apply IH. }
  exists w1, db', w2, (file_image db). split_all; try done.
  intros other w3 Hro3.
  destruct (vdb_save_run db' other w3 Hinv' Hlive' Hdata' Hid' Hro3)
    as (w4 & Hsave4 & _ & _ & _ & Hd4 & _).
  exists w4. split; [done|]. by rewrite Hd4, Himg.
Qed.

Lemma save_load_save_witness :
  ∃ w1 db' w2 bytes,
    vdb_save (Some db_abc) (Some "test.vdb"%string) world_abc = Ret VDB_OK w1 ∧
    disk w1 "test.vdb"%string = Some bytes ∧
    vdb_load (Some "test.vdb"%string) w1 = Ret (Some db') w2 ∧
    ∀ other w3, read_only w3 other = false →
      ∃ w4, vdb_save (Some db') (Some other) w3 = Ret VDB_OK w4 ∧
            disk w4 other = Some bytes.
Proof.
  apply (save_load_save db_abc "test.vdb" world_abc).
  - apply well_formed_db_abc.
  - reflexivity.
  - apply allocs_succeed_nil.
Defined.

(** X19: saving, destroying, loading and destroying again, as a program
    does that moves a database through a file.  For a well-formed database
    whose blocks the heap holds, the four calls return; the database loaded
    has the count of the one saved; and at the end every block of both
    databases is released and no stream is open: the heap holds what it
    held before, less the blocks of the database destroyed. *)
Theorem save_destroy_load_destroy (db : vdb_database) (filename : string) (w : world) :
  well_formed db → (owned_blocks db <= live_blocks w)%nat →
  read_only w filename = false → allocs_succeed w →
  ∃ w1 w2 db' w3 w4,
    vdb_save (Some db) (Some filename) w = Ret VDB_OK w1 ∧
    vdb_destroy (Some db) w1 = Ret tt w2 ∧
    vdb_load (Some filename) w2 = Ret (Some db') w3 ∧
    vdb_count (Some db') = vdb_count (Some db) ∧
    vdb_dimensions (Some db') = vdb_dimensions (Some db) ∧
    vdb_destroy (Some db') w3 = Ret tt w4 ∧
    live_blocks w = (live_blocks w4 + owned_blocks db)%nat ∧
    open_files w4 = open_files w.
Proof.
  intros Hwf Hown Hro Hs.
  pose proof Hwf as (Hinv & Hlive & Hdata & Hid & Hfit & Hhdr & Hbound).
  destruct (vdb_save_run db filename w Hinv Hlive Hdata Hid Hro)
    as (w1 & Hsave & [Hl1 Ho1] & Hp1 & _ & Hd1 & _).
  destruct (vdb_destroy_run db w1 Hinv Hlive) as (w2 & Hdes & Hl2 & Ho2 & Hd2 & _ & Hp2);
    [lia|].
  assert (allocs_succeed w2) as Hs2 by (unfold allocs_succeed in *; congruence).
  destruct (vdb_load_image db filename [] w2 Hwf) as (db' & w3 & Hload & Hd & Hm & Hc & _).
  { rewrite app_nil_r. congruence. }
  { done. }
  pose proof Hload as (Ho3 & _ & Hinv' & Hlive' & Hl3 & _)%vdb_load_Ret.
  destruct (vdb_destroy_run db' w3 Hinv' Hlive') as (w4 & Hdes' & Hl4 & Ho4 & _); [lia|].
  exists w1, w2, db', w3, w4. split_all; first [done|lia|congruence].
Qed.

Lemma save_destroy_load_destroy_witness :
  ∃ w1 w2 db' w3 w4,
    vdb_save (Some db_abc) (Some "test.vdb"%string) world_abc = Ret VDB_OK w1 ∧
    vdb_destroy (Some db_abc) w1 = Ret tt w2 ∧
    vdb_load (Some "test.vdb"%string) w2 = Ret (Some db') w3 ∧
    vdb_count (Some db') = vdb_count (Some db_abc) ∧
    vdb_dimensions (Some db') = vdb_dimensions (Some db_abc) ∧
    vdb_destroy (Some db') w3 = Ret tt w4 ∧
    live_blocks world_abc = (live_blocks w4 + owned_blocks db_abc)%nat ∧
    open_files w4 = open_files world_abc.
Proof.
  apply (save_destroy_load_destroy db_abc "test.vdb" world_abc).
  - apply well_formed_db_abc.
  - vm_compute. lia.
  - reflexivity.
  - apply allocs_succeed_nil.
Defined.

(** * Further invariants of reachable databases *)

Lemma vdb_add_vector_capacity_shape db data id md w e db' w' :
  cap_inv db → capacity_shape db →
  vdb_add_vector (Some db) (Some data) id md w = Ret (e, Some db') w' → capacity_shape db'.
Proof.
  intros Hinv Hshape Hrun.
  destruct (vdb_add_vector_Ret db data id md w e (Some db') w' Hinv Hrun)
    as (db2 & [= <-] & _ & _ & _ & _ & _ & _ & _ & _ & _ & He).
  assert (capacity db' = capacity db ∨
          capacity db' = (if capacity db =? 0 then 16 else 2 * capacity db)) as Hcap.
  { destruct e; try done.
    - destruct He as (_ & -> & _). destruct (count db >=? capacity db); auto.
    - by destruct He as (_ & ? & _). }
  unfold capacity_shape in *. destruct Hcap as [-> | ->]; [done|].
  destruct Hshape as [-> | [j Hj]].
  - right. by exists 0%nat.
  - right. exists (S j). rewrite Hj.
    assert ((16 * 2 ^ Z.of_nat j =? 0) = false) as -> by (apply Z.eqb_neq; lia).
    rewrite Nat2Z.inj_succ, Z.pow_succ_r by lia. lia.
Qed.

(** X20: the capacity of every database a program can hold is 0 (no
    array yet) or 16 doubled some number of times, whatever insertions and
    removals, successful or not, and whatever file it was loaded from. *)
Theorem reachable_capacity_shape (db : vdb_database) :
  reachable db →
  0 <= count db <= capacity db ∧
  (capacity db = 0 ∨ ∃ j : nat, capacity db = 16 * 2 ^ Z.of_nat j).
Proof.
  intros Hreach. split; [by destruct (reachable_cap_inv db Hreach) as (? & _)|].
  change (capacity_shape db).
  induction Hreach as [dims m w db w' Hc|filename w db w' Hl
                       |db data id md w e db' w' Hreach IH Ha
                       |db i w e db' w' Hreach IH Hi Hr].
  - apply vdb_create_Ret in Hc as (_ & _ & -> & _). by left.
  - apply (vdb_load_keeps capacity_shape
             (λ db data id w, vdb_add_vector_capacity_shape db data id NULL w VDB_OK)
             filename w db w'); [|done].
    intros d m _. by left.
  - eapply vdb_add_vector_capacity_shape; [by apply reachable_cap_inv|done..].
  - destruct (vdb_remove_vector_Ret db i w e db' w' (reachable_cap_inv db Hreach) Hi Hr)
      as (_ & Hcap & _).
    unfold capacity_shape in *. by rewrite Hcap.
Qed.

Lemma reachable_capacity_shape_witness :
  0 <= count db_a77 <= capacity db_a77 ∧
  (capacity db_a77 = 0 ∨ ∃ j : nat, capacity db_a77 = 16 * 2 ^ Z.of_nat j).
Proof.
  apply (reachable_capacity_shape db_a77).
  apply (reach_add empty_db3 (floats [1; 0; 0]) (Some (c_str "a")) 77 empty_world VDB_OK
           db_a77 (World 3 0 [] (λ _, None) (λ _, false))).
  - apply (reach_create 3 VDB_METRIC_COSINE empty_world empty_db3
             (World 1 0 [] (λ _, None) (λ _, false))).
    reflexivity.
  - vm_compute. reflexivity.
Defined.

Lemma reachable_live_data db :
  reachable db → dims_fit db → live_inv db ∧ data_inv db.
Proof.
  intros Hreach Hfit. destruct (reachable_rep_inv db Hreach) as [_ Hrecs]. split.
  - intros i Hi. destruct (Hrecs i Hi) as (v & -> & _). by eexists.
  - intros i v Hi Hv. destruct (Hrecs i Hi) as (v' & Hv' & Hlen).
    assert (v' = v) as -> by congruence.
    rewrite Hlen, copied_floats_fit by done. destruct Hfit. lia.
Qed.

Section SearchReachable.

Variable qsort : ∀ A : Type, (A → A → Z) → list A → list A.
Hypothesis qsort_permutes :
  ∀ A (cmp : A → A → Z) (l : list A), qsort A cmp l ≡ₚ l.

(** X21: search works on every database a program can hold.  On a
    non-empty reachable database, for a query of at least [dimensions]
    floats and [k >= 1], when the allocations succeed, [vdb_search] returns
    a result set of [min k count] entries, and every entry refers to a
    record that is there: [vdb_get_vector] at the entry's index returns
    [VDB_OK] with the identifier and the attachment the entry carries, and
    the entry's distance is the distance from the query to that vector. *)
Theorem reachable_search (db : vdb_database) (query : list c_float) (k : Z) (w : world) :
  reachable db → dims_fit db → count db * sizeof_vdb_result < 2 ^ 64 →
  dimensions db <= Z.of_nat (length query) → allocs_succeed w →
  0 < k → 0 < count db →
  ∃ rs w',
    vdb_search qsort (Some db) (Some query) k w = Ret (Some rs) w' ∧
    result_count rs = Z.min k (count db) ∧
    results rs = Some <$> entries rs ∧
    Z.of_nat (length (entries rs)) = Z.min k (count db) ∧
    ∀ r, r ∈ entries rs →
      ∃ v, vdb_get_vector (Some db) (index r) w' = Ret (VDB_OK, Some v) w' ∧
           result_id r = id v ∧ result_metadata r = metadata v ∧
           distance r = vdb_compute_distance query (data v) (dimensions db) (metric db).
Proof using qsort_permutes.
  intros Hreach Hfit Hsize Hq Hs Hk Hc.
  pose proof (reachable_cap_inv db Hreach) as Hinv.
  destruct (reachable_live_data db Hreach Hfit) as [Hlive Hdata].
  destruct (vdb_search_run qsort qsort_permutes db query k w) as (w' & Hrun & _); try done.
  eexists _, w'. split; [exact Hrun|]. rewrite entries_written. simpl.
  split_all; try done.
  - rewrite length_take, (Permutation_length (qsort_permutes _ _ _)), length_candidates.
    rewrite (length_records db Hinv Hlive). lia.
  - intros r Hr. apply elem_of_take in Hr as (j & Hr & _).
    apply list_elem_of_lookup_2 in Hr. rewrite qsort_permutes in Hr.
    apply elem_of_lookup_imap in Hr as (i & v & -> & Hv).
    apply lookup_records in Hv as [Hi Hv]; [|done..].
    exists v. simpl. split; [|done]. apply vdb_get_vector_live; [lia|done].
Qed.

End SearchReachable.

Lemma reachable_search_witness :
  ∃ rs w',
    vdb_search insertion_qsort (Some db_a77) (Some query_a) 5
      (World 3 0 [] (λ _, None) (λ _, false)) = Ret (Some rs) w' ∧
    result_count rs = Z.min 5 (count db_a77) ∧
    results rs = Some <$> entries rs ∧
    Z.of_nat (length (entries rs)) = Z.min 5 (count db_a77) ∧
    ∀ r, r ∈ entries rs →
      ∃ v, vdb_get_vector (Some db_a77) (index r) w' = Ret (VDB_OK, Some v) w' ∧
           result_id r = id v ∧ result_metadata r = metadata v ∧
           distance r
             = vdb_compute_distance query_a (data v) (dimensions db_a77) (metric db_a77).
Proof.
  apply (reachable_search insertion_qsort insertion_qsort_permutes db_a77 query_a 5
           (World 3 0 [] (λ _, None) (λ _, false))).
  - apply (reach_add empty_db3 (floats [1; 0; 0]) (Some (c_str "a")) 77 empty_world VDB_OK
             db_a77 (World 3 0 [] (λ _, None) (λ _, false))).
    + apply (reach_create 3 VDB_METRIC_COSINE empty_world empty_db3
               (World 1 0 [] (λ _, None) (λ _, false))).
      reflexivity.
    + vm_compute. reflexivity.
  - unfold dims_fit, sizeof_float. simpl. lia.
  - unfold sizeof_vdb_result. simpl. lia.
  - simpl. lia.
  - apply allocs_succeed_nil.
  - lia.
  - simpl. lia.
Defined.

Lemma vdb_add_vector_compact db data id md w db' w' :
  cap_inv db → compact db →
  vdb_add_vector (Some db) (Some data) id md w = Ret (VDB_OK, Some db') w' → compact db'.
Proof.
  intros Hinv Hcompact Hrun. pose proof Hinv as ((Hc0 & Hc) & _).
  destruct (vdb_add_vector_Ret db data id md w VDB_OK (Some db') w' Hinv Hrun)
    as (db2 & [= <-] & _ & _ & _ & _ & _ & _ & _ & _ & _ & Hcount & Hcap & _).
  unfold compact in *. rewrite Hcount, Hcap.
  destruct (count db >=? capacity db) eqn:Hfull.
  - rewrite Z.geb_leb in Hfull. apply Z.leb_le in Hfull.
    destruct (capacity db =? 0) eqn:E; [auto|]. apply Z.eqb_neq in E. right. right. lia.
  - rewrite Z.geb_leb in Hfull. apply Z.leb_gt in Hfull.
    destruct Hcompact as [[? ?]|[?|?]]; [lia|auto|right; right; lia].
Qed.

(** X23: a loaded database wastes less than half of its array.  The
    database [vdb_load] returns has an array of 16 slots, or one that is more
    than half full; and none at all when the file announces no record. *)
Theorem vdb_load_compact (filename : option string) (w : world) (db : vdb_database)
    (w' : world) :
  vdb_load filename w = Ret (Some db) w' →
  count db <= capacity db ∧
  ((capacity db = 0 ∧ count db = 0) ∨ capacity db = 16 ∨ capacity db < 2 * count db).
Proof.
  intros Hrun. split.
  - pose proof Hrun as (_ & _ & ((_ & ?) & _) & _)%vdb_load_Ret. done.
  - apply (vdb_load_keeps compact (λ db data id, vdb_add_vector_compact db data id NULL)
             filename w db w'); [|done].
    intros d m _. by left.
Qed.

Lemma vdb_load_compact_witness :
  ∃ db w',
    vdb_load (Some "test.vdb"%string) (world_with_file "test.vdb" (file_image db_abc))
      = Ret (Some db) w' ∧
    count db <= capacity db ∧
    ((capacity db = 0 ∧ count db = 0) ∨ capacity db = 16 ∨ capacity db < 2 * count db).
Proof.
  eexists _, _. split; [vm_compute; reflexivity|].
  eapply (vdb_load_compact (Some "test.vdb"%string)
            (world_with_file "test.vdb" (file_image db_abc))).
  vm_compute. reflexivity.
Defined.

(** * Rounding in binary32, and metric sanity (claim C3)

    How far from 0 the cosine distance of a vector to itself can be: an
    error analysis of [sqrtf], the product and the quotient on the
    operations of [SpecFloat], with mantissas and exponents as integers. *)

(** The number of binary digits of a positive number. *)
Lemma digits2_pos_bounds p :
  2 ^ (Zpos (digits2_pos p) - 1) <= Zpos p < 2 ^ Zpos (digits2_pos p).
Proof.
  induction p as [p IH|p IH|]; simpl digits2_pos; [| |done].
  - rewrite Pos2Z.inj_succ, Z.pow_succ_r by lia.
    replace (Z.succ (Zpos (digits2_pos p)) - 1) with (Z.succ (Zpos (digits2_pos p) - 1)) by lia.
    rewrite Z.pow_succ_r by lia. lia.
  - rewrite Pos2Z.inj_succ, Z.pow_succ_r by lia.
    replace (Z.succ (Zpos (digits2_pos p)) - 1) with (Z.succ (Zpos (digits2_pos p) - 1)) by lia.
    rewrite Z.pow_succ_r by lia. lia.
Qed.

Lemma digits2_pos_eq p k :
  2 ^ (k - 1) <= Zpos p < 2 ^ k → Zpos (digits2_pos p) = k.
Proof.
  intros [Hlo Hhi]. pose proof (digits2_pos_bounds p) as [Hlo' Hhi'].
  assert (0 < k).
  { destruct (decide (0 < k)); [done|]. rewrite Z.pow_neg_r in Hlo by lia.
    assert (k = 0) as -> by (destruct (decide (k = 0)); [done|]; rewrite Z.pow_neg_r in Hhi by lia; lia).
    simpl in Hhi. lia. }
  destruct (Z.lt_trichotomy (Zpos (digits2_pos p)) k) as [Hlt|[Heq|Hgt]]; [|done|].
  - assert (2 ^ Zpos (digits2_pos p) <= 2 ^ (k - 1)) by (apply Z.pow_le_mono_r; lia). lia.
  - assert (2 ^ k <= 2 ^ (Zpos (digits2_pos p) - 1)) by (apply Z.pow_le_mono_r; lia). lia.
Qed.

(** The shift of a mantissa is [shr_1] iterated. *)
Lemma iter_pos_nat {A} (f : A → A) (p : positive) (x : A) :
  @SpecFloat.iter_pos A f p x = @Nat.iter (Pos.to_nat p) A f x.
Proof.
  revert x. induction p as [p IH|p IH|]; intros x; simpl SpecFloat.iter_pos; [| |done].
  - rewrite !IH, Pos2Nat.inj_xI.
    replace (S (2 * Pos.to_nat p)) with (Pos.to_nat p + (Pos.to_nat p + 1))%nat by lia.
    rewrite !Nat.iter_add. done.
  - rewrite !IH, Pos2Nat.inj_xO.
    replace (2 * Pos.to_nat p)%nat with (Pos.to_nat p + Pos.to_nat p)%nat by lia.
    by rewrite Nat.iter_add.
Qed.

Lemma shr_1_spec m r s :
  0 <= m → shr_1 (Build_shr_record m r s) = Build_shr_record (m / 2) (Z.odd m) (r || s).
Proof.
  intros Hm. destruct m as [|[p|p|]|]; simpl shr_1; [done| | |done|lia].
  - f_equal. rewrite Pos2Z.inj_xI. Z.div_mod_to_equations. lia.
  - f_equal. rewrite Pos2Z.inj_xO. Z.div_mod_to_equations. lia.
Qed.

(** A mantissa shifted right by [S k] bits: the quotient, the last bit
    shifted out, and whether a bit shifted out before it was set. *)
Lemma shr_iter_spec k m :
  0 <= m →
  Nat.iter (S k) shr_1 (Build_shr_record m false false)
  = Build_shr_record (m / 2 ^ Z.of_nat (S k)) (Z.odd (m / 2 ^ Z.of_nat k))
      (negb (m mod 2 ^ Z.of_nat k =? 0)).
Proof.
  intros Hm. induction k as [|k IH].
  - change (Nat.iter 1 shr_1 ?x) with (shr_1 x). rewrite shr_1_spec by done. change (2 ^ Z.of_nat 0) with 1.
    change (2 ^ Z.of_nat 1) with 2. rewrite Z.div_1_r, Z.mod_1_r. done.
  - rewrite Nat.iter_succ, IH, shr_1_spec by (apply Z.div_pos; lia).
    assert (0 < 2 ^ Z.of_nat k) by (apply Z.pow_pos_nonneg; lia).
    assert (2 ^ Z.of_nat (S k) = 2 ^ Z.of_nat k * 2) as Hk
      by (rewrite Nat2Z.inj_succ, Z.pow_succ_r by lia; lia).
    assert (2 ^ Z.of_nat (S (S k)) = 2 ^ Z.of_nat (S k) * 2) as Hk'
      by (rewrite (Nat2Z.inj_succ (S k)), Z.pow_succ_r by lia; lia).
    f_equal.
    + rewrite Hk', Z.div_div by lia. done.
    + rewrite Hk. rewrite Z.rem_mul_r by lia.
      rewrite <- Z.bit0_mod. rewrite Z.bit0_odd.
      destruct (Z.odd (m / 2 ^ Z.of_nat k)) eqn:Hodd; simpl.
      * symmetry. apply negb_true_iff, Z.eqb_neq.
        pose proof (Z.mod_pos_bound m (2 ^ Z.of_nat k)). lia.
      * rewrite Z.mul_0_r, Z.add_0_r. done.
Qed.

(** Rounding to nearest after a shift of [S k] bits: the result is within
    half a unit of the shifted mantissa. *)
Lemma round_shift_spec k m :
  0 <= m →
  let mrs := Nat.iter (S k) shr_1 (Build_shr_record m false false) in
  let R := round_nearest_even (shr_m mrs) (loc_of_shr_record mrs) in
  2 * m - 2 ^ Z.of_nat (S k) <= 2 ^ Z.of_nat (S k) * (2 * R) <= 2 * m + 2 ^ Z.of_nat (S k) ∧
  m / 2 ^ Z.of_nat (S k) <= R <= m / 2 ^ Z.of_nat (S k) + 1.
Proof.
  intros Hm. cbv zeta. rewrite shr_iter_spec by done.
  assert (0 < 2 ^ Z.of_nat k) as Ha by (apply Z.pow_pos_nonneg; lia).
  assert (2 ^ Z.of_nat (S k) = 2 ^ Z.of_nat k * 2) as ->
    by (rewrite Nat2Z.inj_succ, Z.pow_succ_r by lia; lia).
  set (a := 2 ^ Z.of_nat k) in *.
  rewrite <- Z.div_div by lia.
  pose proof (Z.div_mod m a ltac:(lia)) as Hdm.
  pose proof (Z.mod_pos_bound m a Ha) as Hlow.
  set (b := m / a) in *. set (low := m mod a) in *.
  pose proof (Z.div_mod b 2 ltac:(lia)) as Hb.
  pose proof (Z.mod_pos_bound b 2 ltac:(lia)) as Hbit.
  assert (Z.odd b = (b mod 2 =? 1)) as Hodd.
  { rewrite <- Z.bit0_odd. pose proof (Z.bit0_mod b) as Hb0.
    destruct (Z.testbit b 0); simpl in Hb0; rewrite <- Hb0; done. }
  set (q := b / 2) in *. simpl shr_m.
  unfold loc_of_shr_record, round_nearest_even. rewrite Hodd.
  destruct (Z.eqb_spec (b mod 2) 1) as [Hbit1|Hbit1];
    destruct (Z.eqb_spec low 0) as [Hlow0|Hlow0]; simpl negb; cbv iota;
    try destruct (Z.even q); clearbody a b low q; nia.
Qed.

(** The result of [binary_round_aux] once the first shift is known and
    the rounded mantissa has 24 bits, or is [2^24]. *)
Lemma binary_round_aux_eq sx mx ex lx mrs' e' :
  shr_fexp 24 128 mx ex lx = (mrs', e') →
  2 ^ 23 <= round_nearest_even (shr_m mrs') (loc_of_shr_record mrs') <= 2 ^ 24 →
  -149 <= e' <= 103 →
  binary_round_aux 24 128 sx mx ex lx
  = if round_nearest_even (shr_m mrs') (loc_of_shr_record mrs') <? 2 ^ 24
    then S754_finite sx (Z.to_pos (round_nearest_even (shr_m mrs') (loc_of_shr_record mrs'))) e'
    else S754_finite sx 8388608 (e' + 1).
Proof.
  intros Hshr HR He. unfold binary_round_aux. rewrite Hshr.
  set (R := round_nearest_even (shr_m mrs') (loc_of_shr_record mrs')) in *.
  destruct (Z.ltb_spec R (2 ^ 24)) as [Hlt|Hge].
  - destruct R as [|rp|rp]; [lia| |lia]. unfold shr_fexp.
    assert (Zdigits2 (Z.pos rp) = 24) as -> by (apply (digits2_pos_eq rp 24); lia).
    assert (fexp 24 128 (24 + e') - e' = 0) as -> by (unfold fexp, emin; lia).
    cbn [shr shr_record_of_loc shr_m]. change (128 - 24) with 104.
    assert ((e' <=? 104) = true) as -> by (apply Z.leb_le; lia). done.
  - assert (R = 2 ^ 24) as -> by lia. unfold shr_fexp.
    change (Zdigits2 (2 ^ 24)) with 25.
    assert (fexp 24 128 (25 + e') - e' = 1) as -> by (unfold fexp, emin; lia).
    change (shr (shr_record_of_loc (2 ^ 24) loc_Exact) e' 1)
      with (Build_shr_record (2 ^ 23) false false, e' + 1).
    cbn [shr_m]. change (128 - 24) with 104. change (2 ^ 23) with (Zpos 8388608).
    cbv iota. assert ((e' + 1 <=? 104) = true) as -> by (apply Z.leb_le; lia). done.
Qed.

(** Rounding an exact mantissa of [24 + k] bits. *)
Lemma binary_round_aux_shift (k : positive) P E :
  2 ^ (23 + Zpos k) <= P < 2 ^ (24 + Zpos k) → -149 <= E + Zpos k <= 103 →
  ∃ Mp n, binary_round_aux 24 128 false P E loc_Exact = S754_finite false Mp (E + n) ∧
          2 ^ 23 <= Zpos Mp < 2 ^ 24 ∧ (n = Zpos k ∨ n = Zpos k + 1) ∧
          2 * P - 2 ^ n <= 2 ^ n * (2 * Zpos Mp) <= 2 * P + 2 ^ n.
Proof.
  intros HP HE.
  assert (0 < 2 ^ (23 + Zpos k)) by (apply Z.pow_pos_nonneg; lia).
  destruct P as [|pp|pp]; [lia| |lia].
  assert (shr_fexp 24 128 (Zpos pp) E loc_Exact
          = (Nat.iter (Pos.to_nat k) shr_1 (Build_shr_record (Zpos pp) false false),
             E + Zpos k)) as Hshr.
  { unfold shr_fexp.
    assert (Zdigits2 (Z.pos pp) = 24 + Zpos k) as ->.
    { apply (digits2_pos_eq pp). by replace (24 + Zpos k - 1) with (23 + Zpos k) by lia. }
    assert (fexp 24 128 (24 + Zpos k + E) - E = Zpos k) as -> by (unfold fexp, emin; lia).
    unfold shr, shr_record_of_loc. by rewrite iter_pos_nat. }
  destruct (Pos2Nat.is_succ k) as [k' Hk']. rewrite Hk' in Hshr.
  assert (Z.of_nat (S k') = Zpos k) as HkZ by (rewrite <- Hk'; apply positive_nat_Z).
  pose proof (round_shift_spec k' (Zpos pp) ltac:(lia)) as [Herr Hdiv]. cbv zeta in Herr, Hdiv.
  rewrite HkZ in Herr, Hdiv.
  set (mrs := Nat.iter (S k') shr_1 (Build_shr_record (Zpos pp) false false)) in *.
  set (R := round_nearest_even (shr_m mrs) (loc_of_shr_record mrs)) in *.
  assert (2 ^ (23 + Zpos k) = 2 ^ 23 * 2 ^ Zpos k) as Hp23 by (apply Z.pow_add_r; lia).
  assert (2 ^ (24 + Zpos k) = 2 ^ 24 * 2 ^ Zpos k) as Hp24 by (apply Z.pow_add_r; lia).
  assert (0 < 2 ^ Zpos k) as Hk0 by (apply Z.pow_pos_nonneg; lia).
  assert (2 ^ 23 <= Zpos pp / 2 ^ Zpos k < 2 ^ 24) as Hq.
  { split.
    - apply Z.div_le_lower_bound; lia.
    - apply Z.div_lt_upper_bound; lia. }
  rewrite (binary_round_aux_eq false (Zpos pp) E loc_Exact mrs (E + Zpos k) Hshr); fold R;
    [|lia|lia].
  destruct (Z.ltb_spec R (2 ^ 24)) as [Hlt|Hge].
  - exists (Z.to_pos R), (Zpos k). rewrite Z2Pos.id by lia. split_all; try done; try lia.
  - exists 8388608%positive, (Zpos k + 1). assert (R = 2 ^ 24) as HR by lia.
    rewrite HR in Herr.
    assert (2 ^ (Zpos k + 1) = 2 ^ Zpos k * 2) as -> by (rewrite Z.pow_add_r by lia; lia).
    split_all; try done; try lia. f_equal. lia.
Qed.

Lemma shr_record_of_loc_m m l : shr_m (shr_record_of_loc m l) = m.
Proof. by destruct l as [|[]]. Qed.

Lemma loc_of_shr_record_of_loc m l : loc_of_shr_record (shr_record_of_loc m l) = l.
Proof. by destruct l as [|[]]. Qed.

(** A mantissa of 24 bits is not shifted. *)
Lemma shr_fexp_24 m e l :
  2 ^ 23 <= m < 2 ^ 24 → -149 <= e →
  shr_fexp 24 128 m e l = (shr_record_of_loc m l, e).
Proof.
  intros Hm He. destruct m as [|mp|mp]; [lia| |lia]. unfold shr_fexp.
  assert (Zdigits2 (Z.pos mp) = 24) as -> by (apply (digits2_pos_eq mp 24); lia).
  by assert (fexp 24 128 (24 + e) - e = 0) as -> by (unfold fexp, emin; lia).
Qed.

(** The square root of a normal number: the mantissa [M] of the result is
    the integer nearest to the square root of [m * 2^s]. *)
Lemma SFsqrt_normal m e :
  2 ^ 23 <= Zpos m < 2 ^ 24 → -149 <= e <= 104 →
  ∃ M E s, SFsqrt 24 128 (S754_finite false m e) = S754_finite false M E ∧
           2 ^ 23 <= Zpos M < 2 ^ 24 ∧ (s = 23 ∨ s = 24) ∧ e = 2 * E + s ∧
           Zpos M * Zpos M - Zpos M + 1 <= Zpos m * 2 ^ s <= Zpos M * Zpos M + Zpos M.
Proof.
  intros Hm He. unfold SFsqrt, SFsqrt_core_binary.
  assert (Zdigits2 (Z.pos m) = 24) as -> by (apply (digits2_pos_eq m 24); lia).
  rewrite !Z.div2_div.
  set (E := Z.min (fexp 24 128 ((24 + e + 1) / 2)) (e / 2)).
  assert (∃ s, (s = 23 ∨ s = 24) ∧ e - 2 * E = s) as (s & Hs & HE).
  { unfold E, fexp, emin. destruct (Z.even e) eqn:Heven.
    - exists 24. split; [by right|]. apply Z.even_spec in Heven as [h ->].
      Z.div_mod_to_equations. lia.
    - exists 23. split; [by left|].
      assert (Z.odd e = true) as [h ->]%Z.odd_spec by (by rewrite <- Z.negb_even, Heven).
      Z.div_mod_to_equations. lia. }
  rewrite HE.
  assert (match s with
          | 0 => Z.pos m
          | Z.pos _ => Z.shiftl (Z.pos m) s
          | Z.neg _ => 0
          end = Zpos m * 2 ^ s) as ->.
  { destruct Hs as [-> | ->]; by rewrite Z.shiftl_mul_pow2. }
  assert (2 ^ 46 <= Zpos m * 2 ^ s <= 2 ^ 48 - 2 ^ 24) as Hm'.
  { destruct Hs as [-> | ->]; lia. }
  pose proof (Z.sqrtrem_spec (Zpos m * 2 ^ s) ltac:(lia)) as Hsq.
  destruct (Z.sqrtrem (Zpos m * 2 ^ s)) as [q r]. destruct Hsq as [Hsq Hr].
  assert (2 ^ 23 <= q < 2 ^ 24) as Hq by nia.
  set (l := if r =? 0 then loc_Exact
            else loc_Inexact (if r <=? q then Lt else Gt)).
  assert (-149 <= E <= 103) as HE' by lia.
  pose proof (shr_fexp_24 q E l Hq ltac:(lia)) as Hshr.
  assert (round_nearest_even q l = if r <=? q then q else q + 1) as HR.
  { unfold l. destruct (Z.eqb_spec r 0) as [->|Hr0]; simpl.
    - by assert ((0 <=? q) = true) as -> by (apply Z.leb_le; lia).
    - by destruct (r <=? q). }
  assert (2 ^ 23 <= round_nearest_even q l < 2 ^ 24) as HRr.
  { rewrite HR. destruct (Z.leb_spec r q); [lia|]. split; [lia|].
    destruct (decide (q + 1 = 2 ^ 24)) as [Hq1|Hq1]; [|lia].
    assert (q = 2 ^ 24 - 1) as -> by lia. lia. }
  rewrite (binary_round_aux_eq false q E l _ E Hshr);
    rewrite ?shr_record_of_loc_m, ?loc_of_shr_record_of_loc; [|lia|done].
  assert ((round_nearest_even q l <? 2 ^ 24) = true) as -> by (apply Z.ltb_lt; lia).
  exists (Z.to_pos (round_nearest_even q l)), E, s. rewrite Z2Pos.id by lia.
  split_all; try done; try lia.
  - rewrite HR. destruct (Z.leb_spec r q); nia.
  - rewrite HR. destruct (Z.leb_spec r q); nia.
Qed.

(** Encoding then decoding a normal number gives it back. *)
Lemma to_SF_of_SF_normal s m e :
  2 ^ 23 <= Zpos m < 2 ^ 24 → -149 <= e <= 104 →
  to_SF (of_SF (S754_finite s m e)) = S754_finite s m e.
Proof.
  intros Hm He. rewrite to_SF_of_SF. cbn [bits_of_SF].
  assert ((Z.pos m <? 2 ^ 23) = false) as -> by (apply Z.ltb_ge; lia).
  rewrite Z.mod_small by (apply word_range; lia).
  rewrite SF_of_bits_word by lia.
  assert ((e + 150 =? 0) = false) as -> by (apply Z.eqb_neq; lia).
  assert ((e + 150 =? 255) = false) as -> by (apply Z.eqb_neq; lia).
  replace (Z.pos m - 2 ^ 23 + 2 ^ 23) with (Zpos m) by lia. f_equal. lia.
Qed.

(** The finite values a float decodes to: subnormal or normal numbers. *)
Lemma to_SF_finite f s m e :
  to_SF f = S754_finite s m e →
  (e = -149 ∧ Zpos m < 2 ^ 23) ∨ (2 ^ 23 <= Zpos m < 2 ^ 24 ∧ -149 <= e <= 104).
Proof.
  unfold to_SF. pose proof (float_bits_range f) as Hz. revert Hz.
  generalize (float_bits f). intros z Hz.
  destruct (word_of_fields z Hz) as (Hw & He & Hm).
  revert Hw He Hm. generalize (Z.testbit z 31) (Z.land (Z.shiftr z 23) 255)
    (Z.land z (2 ^ 23 - 1)). intros s' e' m' -> He Hm.
  rewrite (SF_of_bits_word s' e' m' He Hm).
  destruct (Z.eqb_spec e' 0) as [->|E0].
  - destruct m' as [|p|p]; [done| |done]. intros [= <- <- <-]. left. lia.
  - destruct (Z.eqb_spec e' 255) as [->|E255]; [by destruct (m' =? 0)|].
    destruct (m' + 2 ^ 23) as [|p|p] eqn:Ep; [done| |done].
    intros [= <- <- <-]. right. lia.
Qed.

(** A float between the least normal number and [2^127]. *)
Lemma to_SF_normal_range f :
  f_le f_min_normal f = true → f_lt f f_2_127 = true →
  ∃ m e, to_SF f = S754_finite false m e ∧ 2 ^ 23 <= Zpos m < 2 ^ 24 ∧ -149 <= e <= 103.
Proof.
  unfold f_le, f_lt. change (to_SF f_min_normal) with (S754_finite false 8388608 (-149)).
  change (to_SF f_2_127) with (S754_finite false 8388608 104).
  destruct (to_SF f) as [s|s| |s m e] eqn:Hf; try done; [by destruct s|].
  intros Hlo Hhi. apply to_SF_finite in Hf.
  unfold SFleb, SFltb, SFcompare in Hlo, Hhi. destruct s; [done|].
  exists m, e. split; [done|].
  destruct (Z.compare_spec (-149) e) as [He|He|He]; [| |done].
  - subst e. destruct Hf as [[_ Hsub]|[Hm He]]; [|lia].
    exfalso. rewrite Pos.compare_cont_spec in Hlo. simpl in Hlo.
    destruct (Pos.compare_spec 8388608 m) as [E|E|E]; simpl in Hlo; try done; lia.
  - destruct (Z.compare_spec e 104) as [He'|He'|He']; [| |done].
    + subst e. rewrite Pos.compare_cont_spec in Hhi. simpl in Hhi.
      destruct (Pos.compare_spec m 8388608) as [E|E|E]; simpl in Hhi; try done.
      destruct Hf as [[? ?]|[Hm ?]]; lia.
    + destruct Hf as [[? ?]|[Hm ?]]; lia.
Qed.

(** Evaluates a rounding whose mantissa, exponent and location are given. *)
Ltac near_one_case :=
  match goal with
  | |- ∃ Mq eq, ?x = _ ∧ _ => let v := eval vm_compute in x in change x with v
  end;
  eexists _, _; split; [reflexivity|lia].

(** The quotient of two normal numbers whose ratio lies between
    [1 - 3 * 2^-24] and [1 + 4 * 2^-24] is a float of that interval; [a] and
    [b] stand for the difference of the two exponents. *)
Lemma SFdiv_near_one m e Mp ep a b :
  2 ^ 23 <= Zpos m < 2 ^ 24 → 2 ^ 23 <= Zpos Mp < 2 ^ 24 →
  (a = 1 ∧ b = 1 ∧ e - ep = 0) ∨ (a = 2 ∧ b = 1 ∧ e - ep = 1) ∨ (a = 1 ∧ b = 2 ∧ e - ep = -1) →
  (2 ^ 24 - 3) * (b * Zpos Mp) <= 2 ^ 24 * (a * Zpos m) <= (2 ^ 24 + 4) * (b * Zpos Mp) →
  ∃ Mq eq,
    SFdiv 24 128 (S754_finite false m e) (S754_finite false Mp ep) = S754_finite false Mq eq ∧
    ((eq = -24 ∧ 2 ^ 24 - 3 <= Zpos Mq < 2 ^ 24) ∨ (eq = -23 ∧ 2 ^ 23 <= Zpos Mq <= 2 ^ 23 + 2)).
Proof.
  intros Hm HMp Hcase Hnear. unfold SFdiv, SFdiv_core_binary.
  assert (Zdigits2 (Z.pos m) = 24) as -> by (apply (digits2_pos_eq m 24); lia).
  assert (Zdigits2 (Z.pos Mp) = 24) as -> by (apply (digits2_pos_eq Mp 24); lia).
  set (E' := Z.min (fexp 24 128 (24 + e - (24 + ep))) (e - ep)).
  assert (E' = e - ep - 24) as -> by (unfold E', fexp, emin; lia).
  replace (e - ep - (e - ep - 24)) with 24 by lia. cbv iota.
  rewrite Z.shiftl_mul_pow2 by lia.
  pose proof (Z_div_mod (Zpos m * 2 ^ 24) (Zpos Mp) ltac:(lia)) as Hdiv.
  destruct (Z.div_eucl (Zpos m * 2 ^ 24) (Zpos Mp)) as [q r]. destruct Hdiv as [Hdiv Hr].
  change (xorb false false) with false.
  assert (r = 0 → new_location (Zpos Mp) r = loc_Exact) as Hexact.
  { intros ->. unfold new_location, new_location_even, new_location_odd.
    by destruct (Z.even (Z.pos Mp)). }
  revert Hexact. generalize (new_location (Zpos Mp) r). intros l Hexact.
  destruct Hcase as [(-> & -> & ->)|[(-> & -> & ->)|(-> & -> & ->)]].
  - assert (2 ^ 24 - 3 <= q <= 2 ^ 24 + 4 ∧ (q = 2 ^ 24 + 4 → r = 0)) as [Hq Hq0] by nia.
    assert (q = 2 ^ 24 - 3 ∨ q = 2 ^ 24 - 2 ∨ q = 2 ^ 24 - 1 ∨ q = 2 ^ 24 ∨ q = 2 ^ 24 + 1 ∨
            q = 2 ^ 24 + 2 ∨ q = 2 ^ 24 + 3 ∨ q = 2 ^ 24 + 4) as Hcases by lia.
    clear Hq Hq0 Hdiv.
    destruct Hcases as [->|[->|[->|[->|[->|[->|[->| ->]]]]]]];
      destruct l as [|[]]; near_one_case.
  - assert (2 ^ 23 <= q <= 2 ^ 23 + 2 ∧ (q = 2 ^ 23 + 2 → r = 0)) as [Hq Hq0] by nia.
    assert (q = 2 ^ 23 ∨ q = 2 ^ 23 + 1 ∨ q = 2 ^ 23 + 2) as Hcases by lia.
    destruct Hcases as [->|[->| ->]].
    + destruct l as [|[]]; near_one_case.
    + destruct l as [|[]]; near_one_case.
    + rewrite (Hexact (Hq0 eq_refl)). near_one_case.
  - assert (2 ^ 25 - 6 <= q <= 2 ^ 25 - 1) as Hq by nia.
    assert (q = 2 ^ 25 - 6 ∨ q = 2 ^ 25 - 5 ∨ q = 2 ^ 25 - 4 ∨ q = 2 ^ 25 - 3 ∨
            q = 2 ^ 25 - 2 ∨ q = 2 ^ 25 - 1) as Hcases by lia.
    clear Hq Hdiv.
    destruct Hcases as [->|[->|[->|[->|[->| ->]]]]];
      destruct l as [|[]]; near_one_case.
Qed.

(** The cosine distance of a vector to itself when the sum [s] of its
    squares is a normal number below [2^127]: the magnitude is not zero and
    the distance is at most [2^-22] in absolute value. *)
Lemma cosine_self_normal s :
  f_le f_min_normal s = true → f_lt s f_2_127 = true →
  f_eq (f_sqrt s) f_zero = false ∧
  f_le (f_neg cosine_eps) (cosine_self s) = true ∧ f_le (cosine_self s) cosine_eps = true.
Proof.
  intros Hlo Hhi. destruct (to_SF_normal_range s Hlo Hhi) as (m & e & Hs & Hm & He).
  destruct (SFsqrt_normal m e Hm ltac:(lia)) as (M & E & sh & Hsqrt & HM & Hsh & HeE & Hsq).
  assert (f_sqrt s = of_SF (S754_finite false M E)) as Hroot
    by (unfold f_sqrt, prec32, emax32; by rewrite Hs, Hsqrt).
  unfold cosine_self. rewrite Hroot.
  assert (-149 <= E <= 104) as HE by lia.
  split.
  { unfold f_eq. by rewrite to_SF_of_SF_normal. }
  unfold f_mul. rewrite to_SF_of_SF_normal by done.
  change (SFmul prec32 emax32 (S754_finite false M E) (S754_finite false M E))
    with (binary_round_aux 24 128 false (Zpos (M * M)) (E + E) loc_Exact).
  rewrite Pos2Z.inj_mul.
  set (Y := Zpos M * Zpos M) in *.
  assert (2 ^ 23 * Zpos M <= Y <= 2 ^ 24 * Zpos M - Zpos M) as HY by (unfold Y; nia).
  assert (sh = 23 → Y < 2 ^ 47) as Hsmall.
  { intros ->. assert (Zpos M <= 11863283) by (unfold Y in *; nia). unfold Y. nia. }
  assert (∃ k : positive, (k = 23%positive ∨ k = 24%positive) ∧
                          2 ^ (23 + Zpos k) <= Y < 2 ^ (24 + Zpos k) ∧
                          (sh = 23 → k = 23%positive)) as (k & Hk & HYk & Hshk).
  { destruct (Z.lt_ge_cases Y (2 ^ 47)).
    - exists 23%positive. split_all; [by left|unfold Y in *; nia|lia|done].
    - exists 24%positive. split_all; [by right|lia|unfold Y in *; nia|]. intros ?. lia. }
  destruct (binary_round_aux_shift k Y (E + E) HYk) as (Mp & n & -> & HMp & Hn & Hmul).
  { destruct Hk as [-> | ->], Hsh as [-> | ->]; lia. }
  unfold f_div. rewrite Hs, to_SF_of_SF_normal;
    [|done|destruct Hk as [-> | ->], Hn as [-> | ->], Hsh as [-> | ->]; lia].
  assert (∃ a b,
            ((a = 1 ∧ b = 1 ∧ e - (E + E + n) = 0) ∨ (a = 2 ∧ b = 1 ∧ e - (E + E + n) = 1) ∨
             (a = 1 ∧ b = 2 ∧ e - (E + E + n) = -1)) ∧
            (2 ^ 24 - 3) * (b * Zpos Mp) <= 2 ^ 24 * (a * Zpos m)
            <= (2 ^ 24 + 4) * (b * Zpos Mp)) as (a & b & Hcase & Hnear).
  { clearbody Y.
    destruct Hk as [-> | ->], Hn as [-> | ->], Hsh as [-> | ->];
      try (specialize (Hshk eq_refl); discriminate Hshk);
      first [ exists 1, 1; split; [left; lia|lia]
            | exists 2, 1; split; [right; left; lia|lia]
            | exists 1, 2; split; [right; right; lia|lia] ]. }
  unfold prec32, emax32.
  destruct (SFdiv_near_one m e Mp (E + E + n) a b Hm HMp Hcase Hnear)
    as (Mq & eq & -> & Hq).
  clear -Hq.
  destruct Hq as [[-> Hq]|[-> Hq]].
  - assert (Mq = 16777213 ∨ Mq = 16777214 ∨ Mq = 16777215)%positive as [->|[->| ->]] by lia;
      split; vm_compute; reflexivity.
  - assert (Mq = 8388608 ∨ Mq = 8388609 ∨ Mq = 8388610)%positive as [->|[->| ->]] by lia;
      split; vm_compute; reflexivity.
Qed.

(** C3, amended: under the cosine metric the distance is exactly 1 as soon
    as one of the two magnitudes compares equal to zero (so also from a
    zero vector to itself).  From a vector whose magnitude is not zero to
    itself it is [cosine_self] of the computed sum [s] of its squares, that
    is [1 - s / (sqrt s * sqrt s)] with each operation rounded; this is 0
    only up to rounding: when [s] is a normal number below [2^127] the
    magnitude is not zero and the distance is at most [2^-22] in absolute
    value (it is 0 for [s = 1] and [-2^-23] for [s = 2]), and when [s] has
    overflowed the distance is a NaN.  Under the euclidean metric the
    distance between two identical vectors with finite components is 0. *)
Theorem metric_sanity (a b : list c_float) (dims : Z) :
  (f_eq (vdb_magnitude a dims) f_zero = true ∨ f_eq (vdb_magnitude b dims) f_zero = true →
   vdb_compute_distance a b dims VDB_METRIC_COSINE = f_one) ∧
  (f_eq (vdb_magnitude a dims) f_zero = false →
   vdb_compute_distance a a dims VDB_METRIC_COSINE
   = cosine_self (vdb_dot_product a a dims)) ∧
  (f_le f_min_normal (vdb_dot_product a a dims) = true →
   f_lt (vdb_dot_product a a dims) f_2_127 = true →
   f_eq (vdb_magnitude a dims) f_zero = false ∧
   f_le (f_neg cosine_eps) (vdb_compute_distance a a dims VDB_METRIC_COSINE) = true ∧
   f_le (vdb_compute_distance a a dims VDB_METRIC_COSINE) cosine_eps = true) ∧
  (f_is_finite (vdb_dot_product a a dims) = false →
   f_is_nan (vdb_compute_distance a a dims VDB_METRIC_COSINE) = true) ∧
  cosine_self f_one = f_zero ∧
  float_bits (cosine_self (f_of_Z 2)) = 2 ^ 31 + 104 * 2 ^ 23 ∧
  (Forall (λ x, f_is_finite x = true) a →
   vdb_compute_distance a a dims VDB_METRIC_EUCLIDEAN = f_zero).
Proof.
  assert (f_eq (vdb_magnitude a dims) f_zero = false →
          vdb_compute_distance a a dims VDB_METRIC_COSINE
          = cosine_self (vdb_dot_product a a dims)) as Hself.
  { intros Hmag. unfold vdb_compute_distance, vdb_cosine_similarity.
    change (VDB_METRIC_COSINE =? VDB_METRIC_COSINE) with true. cbv iota zeta.
    rewrite Hmag. cbn [orb]. by rewrite vdb_magnitude_dot. }
  split_all.
  - intros Hmag. unfold vdb_compute_distance, vdb_cosine_similarity.
    change (VDB_METRIC_COSINE =? VDB_METRIC_COSINE) with true. cbv iota zeta.
    assert (f_eq (vdb_magnitude a dims) f_zero || f_eq (vdb_magnitude b dims) f_zero = true)
      as -> by (apply orb_true_iff; exact Hmag).
    apply f_one_minus_zero.
  - exact Hself.
  - intros Hlo Hhi.
    destruct (cosine_self_normal _ Hlo Hhi) as (Hmag & Hge & Hle).
    rewrite <- vdb_magnitude_dot in Hmag. by rewrite Hself.
  - intros Hinf. apply cosine_self_not_finite in Hinf as [Hmag Hnan].
    rewrite Hself; [done|]. by rewrite vdb_magnitude_dot.
  - vm_compute. reflexivity.
  - vm_compute. reflexivity.
  - intros Hfin. unfold vdb_compute_distance.
    change (VDB_METRIC_EUCLIDEAN =? VDB_METRIC_COSINE) with false.
    change (VDB_METRIC_EUCLIDEAN =? VDB_METRIC_EUCLIDEAN) with true. cbv iota.
    by apply vdb_euclidean_distance_diag.
Qed.

Lemma metric_sanity_witness :
  vdb_compute_distance zero_vector3 zero_vector3 3 VDB_METRIC_COSINE = f_one ∧
  vdb_compute_distance (floats [1; 1; 0]) (floats [1; 1; 0]) 3 VDB_METRIC_COSINE
  = cosine_self (vdb_dot_product (floats [1; 1; 0]) (floats [1; 1; 0]) 3) ∧
  (f_eq (vdb_magnitude (floats [1; 2; 3]) 3) f_zero = false ∧
   f_le (f_neg cosine_eps)
     (vdb_compute_distance (floats [1; 2; 3]) (floats [1; 2; 3]) 3 VDB_METRIC_COSINE) = true ∧
   f_le (vdb_compute_distance (floats [1; 2; 3]) (floats [1; 2; 3]) 3 VDB_METRIC_COSINE)
     cosine_eps = true) ∧
  f_is_nan (vdb_compute_distance (floats [10 ^ 20; 1]) (floats [10 ^ 20; 1]) 2
              VDB_METRIC_COSINE) = true ∧
  vdb_compute_distance (floats [1; 1; 0]) (floats [1; 1; 0]) 3 VDB_METRIC_EUCLIDEAN = f_zero.
Proof.
  split_all.
  - apply (proj1 (metric_sanity zero_vector3 zero_vector3 3)). left.
    vm_compute. reflexivity.
  - apply (proj1 (proj2 (metric_sanity (floats [1; 1; 0]) [] 3))).
    vm_compute. reflexivity.
  - apply (proj1 (proj2 (proj2 (metric_sanity (floats [1; 2; 3]) [] 3)))).
    + vm_compute. reflexivity.
    + vm_compute. reflexivity.
  - apply (proj1 (proj2 (proj2 (metric_sanity (floats [1; 2; 3]) [] 3)))).
    + vm_compute. reflexivity.
    + vm_compute. reflexivity.
  - apply (proj1 (proj2 (proj2 (metric_sanity (floats [1; 2; 3]) [] 3)))).
    + vm_compute. reflexivity.
    + vm_compute. reflexivity.
  - apply (proj1 (proj2 (proj2 (proj2 (metric_sanity (floats [10 ^ 20; 1]) [] 2))))).
    vm_compute. reflexivity.
  - apply (proj2 (proj2 (proj2 (proj2 (proj2 (proj2 (metric_sanity (floats [1; 1; 0]) [] 3))))))).
    repeat constructor; vm_compute; reflexivity.
Defined.

(** * The capacity over the life of a database (claim C9) *)

Lemma add_many_reachable n data :
  ∀ lo db w db' w',
    reachable db →
    for_rangeM lo n
      (λ _ db, r <- vdb_add_vector (Some db) (Some data) None NULL ;;
               ret (default db r.2)) db w = Ret db' w' →
    reachable db'.
Proof.
  induction n as [|n IH]; intros lo db w db' w' Hreach Hrun.
  - simpl in Hrun. by inv_ret Hrun.
  - cbn [for_rangeM] in Hrun. inv_bind Hrun as db1 w1 Hstep.
    inv_bind Hstep as r w2 Hadd. inv_ret Hstep.
    apply (IH (S lo) _ _ _ _) in Hrun; [done|].
    destruct r as [e [db2|]]; simpl; [|done].
    by apply (reach_add db data None NULL w e db2 w1).
Qed.

Lemma reachable_db_16 : reachable db_16.
Proof.
  apply (add_many_reachable 16 query_a 0 empty_db3 empty_world db_16
           (World 17 0 [] (λ _, None) (λ _, false))).
  - apply (reach_create 3 VDB_METRIC_COSINE empty_world empty_db3
             (World 1 0 [] (λ _, None) (λ _, false))).
    reflexivity.
  - vm_compute. reflexivity.
Qed.

(** C9: in every database a program can hold, [count <= capacity].  An
    insertion grows the array geometrically: when the new size of the array
    fits a [size_t], the allocations succeed and the buffers can be read, the
    call succeeds and leaves the capacity at 16 when the store was full with
    capacity 0, doubled when it was full otherwise, and unchanged when it was
    not full; no successful insertion leaves another capacity.  A removal
    returns (given the heap holds the blocks of the database) and leaves the
    capacity as it was, so it never decreases it. *)
Theorem capacity_discipline (db : vdb_database) :
  reachable db →
  count db <= capacity db ∧
  (∀ data id md w,
     can_grow db → allocs_succeed w → (copied_floats db <= length data)%nat →
     (∀ s, id = Some s → NUL ∈ s) →
     ∃ db' w',
       vdb_add_vector (Some db) (Some data) id md w = Ret (VDB_OK, Some db') w' ∧
       count db' = count db + 1 ∧
       capacity db' = (if count db >=? capacity db
                       then (if capacity db =? 0 then 16 else 2 * capacity db)
                       else capacity db)) ∧
  (∀ data id md w db' w',
     vdb_add_vector (Some db) (Some data) id md w = Ret (VDB_OK, Some db') w' →
     capacity db' = (if count db >=? capacity db
                     then (if capacity db =? 0 then 16 else 2 * capacity db)
                     else capacity db)) ∧
  (∀ i w, 0 <= i → (owned_blocks db <= live_blocks w)%nat →
     ∃ e db' w',
       vdb_remove_vector (Some db) i w = Ret (e, Some db') w' ∧
       capacity db' = capacity db ∧
       count db' = (if i <? count db then count db - 1 else count db)) ∧
  (∀ i w e db' w', 0 <= i →
     vdb_remove_vector (Some db) i w = Ret (e, Some db') w' →
     capacity db' = capacity db).
Proof.
  intros Hreach. pose proof (reachable_cap_inv db Hreach) as Hinv.
  pose proof (reachable_rep_inv db Hreach) as [_ Hrecs]. split_all.
  - destruct Hinv as ((? & ?) & _). done.
  - intros data id md w Hgrow Hs Hdata Hid.
    destruct (vdb_add_vector_succeeds db data id md w Hinv Hgrow Hs Hdata Hid)
      as (db' & w' & Hrun).
    exists db', w'. split; [done|].
    by destruct (vdb_add_vector_Ret db data id md w VDB_OK (Some db') w' Hinv Hrun)
      as (db2 & [= <-] & _ & _ & _ & _ & _ & _ & _ & _ & _ & ? & ? & _).
  - intros data id md w db' w' Hrun.
    by destruct (vdb_add_vector_Ret db data id md w VDB_OK (Some db') w' Hinv Hrun)
      as (db2 & [= <-] & _ & _ & _ & _ & _ & _ & _ & _ & _ & _ & ? & _).
  - intros i w Hi Hown. destruct (i <? count db) eqn:Hidx.
    + apply Z.ltb_lt in Hidx. destruct (Hrecs i) as (v & Hv & _); [lia|].
      destruct (vdb_remove_vector_run db i v w Hinv Hown) as (db' & w' & Hrun & ? & ? & _);
        [lia|done|].
      by exists VDB_OK, db', w'.
    + apply Z.ltb_ge in Hidx. exists VDB_ERROR_INVALID_INDEX, db, w.
      unfold vdb_remove_vector.
      by assert ((i >=? count db) = true) as -> by (rewrite Z.geb_leb; apply Z.leb_le; lia).
  - intros i w e db' w' Hi Hrun.
    by destruct (vdb_remove_vector_Ret db i w e db' w' Hinv Hi Hrun) as (_ & ? & _).
Qed.

Lemma capacity_discipline_witness :
  count db_16 <= capacity db_16 ∧
  (∃ db' w',
     vdb_add_vector (Some db_16) (Some query_a) None NULL world_16
       = Ret (VDB_OK, Some db') w' ∧
     count db' = 17 ∧ capacity db' = 32) ∧
  (∃ e db' w',
     vdb_remove_vector (Some db_16) 0 world_16 = Ret (e, Some db') w' ∧
     capacity db' = 16 ∧ count db' = 15).
Proof.
  destruct (capacity_discipline db_16 reachable_db_16) as (Hle & Hadd & _ & Hrem & _).
  split; [exact Hle|]. split.
  - apply (Hadd query_a None NULL world_16).
    + right. unfold sizeof_vdb_vector. simpl. lia.
    + apply allocs_succeed_nil.
    + vm_compute. lia.
    + intros s [=].
  - apply (Hrem 0 world_16); [lia|]. vm_compute. lia.
Defined.
